(** * IndiaElecGen dashboard: data-resolution and aggregation pipeline

    A shallow embedding of [frontend/static/app.js].  JavaScript numbers are
    IEEE-754 binary64 values and are modelled by Rocq's primitive floats;
    objects read through string keys are finite maps; objects that the code
    mutates in place live in an explicit store addressed by locations;
    promises are modelled by their settlement ([Fulfilled] or [Rejected]);
    the interleaving of pending retrievals is an explicit event sequence.

    Documents and tables are taken with the shape the data model gives
    them: ids, labels and timestamps are strings (a Rocq string holds the
    UTF-8 bytes of the JavaScript string), numeric cells hold a number or
    are missing, and a response body that parses as JSON is [null] or an
    object of the expected kind.  Number and currency formatting, the page and the
    charting library are outside the model: a renderer is represented by
    the data it hands to the chart. *)

From Stdlib Require Import ZArith List String Ascii Lia Bool.
From Stdlib Require Import Floats.
From stdpp Require Import base list gmap strings pretty.

Local Open Scope string_scope.
Local Open Scope list_scope.

(** ** JavaScript primitives used by the dashboard *)

Module Js.

Definition is_nan (f : float) : bool := negb (PrimFloat.eqb f f).

(** Truthiness of a number: [0], [-0] and [NaN] are falsy. *)
Definition truthy (f : float) : bool :=
  negb (is_nan f) && negb (PrimFloat.eqb f 0%float).

(** Truthiness of a string: only the empty string is falsy. *)
Definition nonempty (s : string) : bool :=
  match s with EmptyString => false | String _ _ => true end.

(** [a || b] on numeric cells that may be missing: the first truthy one. *)
Definition num_or (a : option float) (b : option float) : option float :=
  match a with
  | Some f => if truthy f then Some f else b
  | None => b
  end.

(** [Number(v || 0)] for a cell [v] that holds a number or is missing
    ([undefined] or [null]). *)
Definition number_or_zero (v : option float) : float :=
  default 0%float (num_or v (Some 0%float)).

(** [v || fallback] for an optional string field. *)
Definition str_or (v : option string) (fallback : string) : string :=
  match v with
  | Some s => if nonempty s then s else fallback
  | None => fallback
  end.

(** [s.slice(0, n)] on a string. *)
Definition str_prefix (n : nat) (s : string) : string := String.substring 0 n s.

(** [Array.prototype.slice(start, end)] for integral arguments: negative
    indices count from the end, and both are clamped to the array. *)
Definition relative_index (len k : Z) : Z :=
  if (k <? 0)%Z then Z.max (len + k) 0 else Z.min k len.

Definition slice {A : Type} (l : list A) (start stop : Z) : list A :=
  let len := Z.of_nat (length l) in
  let from := relative_index len start in
  let final := relative_index len stop in
  take (Z.to_nat (Z.max (final - from) 0)) (drop (Z.to_nat from) l).

(** [String.prototype.trim], on the ASCII white space and line terminators
    (tab, line feed, vertical tab, form feed, carriage return, space). *)
Definition is_space (c : ascii) : bool :=
  let n := nat_of_ascii c in
  (((9 <=? n) && (n <=? 13)) || (n =? 32))%nat.

Fixpoint trim_start (s : string) : string :=
  match s with
  | EmptyString => EmptyString
  | String c rest => if is_space c then trim_start rest else s
  end.

Fixpoint trim_end (s : string) : string :=
  match s with
  | EmptyString => EmptyString
  | String c rest =>
      match trim_end rest with
      | EmptyString => if is_space c then EmptyString else String c EmptyString
      | kept => String c kept
      end
  end.

Definition trim (s : string) : string := trim_end (trim_start s).

(** [encodeURIComponent] on a string held as its UTF-8 bytes: every byte
    outside the unreserved set is written as a percent escape. *)
Definition unreserved (c : ascii) : bool :=
  let n := nat_of_ascii c in
  (((65 <=? n) && (n <=? 90)) || ((97 <=? n) && (n <=? 122)) ||
   ((48 <=? n) && (n <=? 57)))%nat ||
  bool_decide (n ∈ [45; 95; 46; 33; 126; 42; 39; 40; 41]).

Definition hex_digit (n : nat) : ascii :=
  default "0"%char (list_ascii_of_string "0123456789ABCDEF" !! n).

Fixpoint encodeURIComponent (s : string) : string :=
  match s with
  | EmptyString => EmptyString
  | String c rest =>
      if unreserved c then String c (encodeURIComponent rest)
      else
        let n := nat_of_ascii c in
        String "%" (String (hex_digit (n / 16)) (String (hex_digit (n mod 16))
               (encodeURIComponent rest)))
  end.

End Js.

(** ** Data model *)

Module Model.

(** A row object of the hourly series: the timestamp string and the numeric
    cells, read by key.  A missing key is [undefined]. *)
Record Row := mkRow { timestamp : string; num : gmap string float }.

(** A summary document.  Only the fields the pipeline itself reads are
    named; every scalar figure is read through its key. *)
Record Summary := mkSummary {
  scenario_id : option string;
  scenario_label : option string;
  figures : gmap string float
}.

(** A cost row.  [component = None] means the row has no own property
    [component] (the coarse schema). *)
Record CostRow := mkCostRow {
  bucket : option string;
  technology : option string;
  component : option string;
  cost_usd : option float
}.

(** A cell of a parsed table or document: [null], a number or a string. *)
Inductive Cell := CNull | CNum (f : float) | CStr (s : string).

Record AssumptionRow := mkAssumption {
  assumption : Cell;
  value : Cell;
  unit : Cell
}.

Inductive Source := static_base | static_index | api.

(** The share, status and cost fields that the scenario index carries. *)
Record IndexFields := mkIndexFields {
  min_non_fossil_share : option float;
  threshold_non_fossil_share : option float;
  enforced_min_non_fossil_share : option float;
  achieved_non_fossil_share : option float;
  achieved_non_fossil_share_served_primary : option float;
  achieved_fossil_share_served_primary : option float;
  status : option string;
  lcoe_usd_per_mwh_served : option float
}.

(** A catalog entry.  An empty [id] or [label] stands for a missing or
    empty property: both are falsy. *)
Record Descriptor := mkDescriptor {
  id : string;
  label : string;
  source : Source;
  index_fields : option IndexFields
}.

End Model.

(** ** Retrievals: [fetchJson] and [fetchCsvRows] *)

Module Fetch.

(** The settlement of a promise. *)
Inductive Settled (A : Type) : Type :=
| Fulfilled (a : A)
| Rejected (message : string).
Arguments Fulfilled {A} a.
Arguments Rejected {A} message.

(** What Papa Parse returns for a text: [data] is [None] when it is not an
    array, [errors] holds the messages of the parse errors. *)
Record Parsed (A : Type) : Type := mkParsed {
  data : option (list A);
  errors : list string
}.
Arguments mkParsed {A} data errors.
Arguments data {A} p.
Arguments errors {A} p.

(** An HTTP response: [payload] is what reading the body gives, the
    settlement of [resp.json()] for a document or the parse result for a
    table. *)
Record Response (B : Type) : Type := mkResponse {
  ok : bool;
  http_status : Z;
  text : string;
  payload : B
}.
Arguments mkResponse {B} ok http_status text payload.
Arguments ok {B} r.
Arguments http_status {B} r.
Arguments text {B} r.
Arguments payload {B} r.

(** The outcome of [fetch(url)]: the transport fails or a response arrives. *)
Inductive Outcome (B : Type) : Type :=
| NetworkFailure (message : string)
| Answer (resp : Response B).
Arguments NetworkFailure {B} message.
Arguments Answer {B} resp.

(** The body of a JSON response parses to [null] ([None]) or to a document,
    or does not parse ([Rejected]). *)
Definition JsonOutcome (A : Type) : Type := Outcome (Settled (option A)).
Definition CsvOutcome (A : Type) : Type := Outcome (Parsed A).

(** [throw new Error(text || `Request failed: ${url}`)] *)
Definition request_error (url body_text : string) : string :=
  if Js.nonempty body_text then body_text else String.append "Request failed: " url.

(** [fetchJson(url, options)]: [Fulfilled None] is [null], returned for an
    optional resource that is not found and for a body that is [null]. *)
Definition fetchJson {A : Type} (url : string) (optional : bool) (o : JsonOutcome A)
  : Settled (option A) :=
  match o with
  | NetworkFailure m => Rejected m
  | Answer resp =>
      if negb (ok resp) then
        if optional && (http_status resp =? 404)%Z then Fulfilled None
        else Rejected (request_error url (text resp))
      else payload resp
  end.

(** [fetchCsvRows(url, options)]; [papa] tells whether the parser is loaded. *)
Definition fetchCsvRows {A : Type} (papa : bool) (url : string) (optional : bool)
    (o : CsvOutcome A) : Settled (list A) :=
  match o with
  | NetworkFailure m => Rejected m
  | Answer resp =>
      if negb (ok resp) then
        if optional && (http_status resp =? 404)%Z then Fulfilled []
        else Rejected (request_error url (text resp))
      else if negb papa then Rejected "CSV parser not loaded (Papa Parse missing)."
      else
        match errors (payload resp) with
        | first :: _ =>
            Rejected (String.append "CSV parse error ("
                        (String.append url (String.append "): " first)))
        | [] => Fulfilled (default [] (data (payload resp)))
        end
  end.

Definition STATIC_OUTPUTS_DIR : string := "./outputs".

Definition scenarioStaticBasePath (scenarioId : string) : string :=
  if String.eqb scenarioId "base" then STATIC_OUTPUTS_DIR
  else String.append STATIC_OUTPUTS_DIR (String.append "/scenarios/" scenarioId).

(** [`${endpoint}?scenario=${encodeURIComponent(scenarioId)}`] *)
Definition api_url (endpoint scenarioId : string) : string :=
  String.append endpoint (String.append "?scenario=" (Js.encodeURIComponent scenarioId)).

(** [`${scenarioStaticBasePath(scenarioId)}${file}`] *)
Definition static_url (scenarioId file : string) : string :=
  String.append (scenarioStaticBasePath scenarioId) file.

(** The message of the [TypeError] thrown when [property] is read from
    [null], as V8 words it. *)
Definition null_access (property : string) : string :=
  String.append "Cannot read properties of null (reading '" (String.append property "')").

End Fetch.

(** ** Source resolver: [loadScenarioListFromStaticFiles], [loadScenarioList] *)

Module Resolver.
Import Model Fetch.

(** One entry of [scenario_index.json]. *)
Record IndexEntry := mkIndexEntry {
  entry_id : option string;
  entry_label : option string;
  entry_fields : IndexFields
}.

(** The index document; [index_scenarios = None] when the property is not
    an array. *)
Record IndexDoc := mkIndexDoc { index_scenarios : option (list IndexEntry) }.




Definition base_rows (baseSummary : option Summary) : list Descriptor :=
  match baseSummary with
  | Some _ => [mkDescriptor "base" "Base case" static_base None]
  | None => []
  end.

(** The body of [for (const scenario of indexPayload.scenarios)]. *)
Definition push_index_entry (rows : list Descriptor) (scenario : IndexEntry) : list Descriptor :=
  let id := Js.trim (Js.str_or (entry_id scenario) "") in
  if negb (Js.nonempty id) then rows
  else rows ++ [mkDescriptor id (Js.str_or (entry_label scenario) id) static_index
                             (Some (entry_fields scenario))].

Definition push_index_rows (rows : list Descriptor) (indexPayload : option IndexDoc)
  : list Descriptor :=
  match indexPayload with
  | Some doc =>
      match index_scenarios doc with
      | Some entries => foldl push_index_entry rows entries
      | None => rows
      end
  | None => rows
  end.

(** The deduplication loop, with its [seen] set and its [deduped] array. *)
Fixpoint dedupe_loop (rows : list Descriptor) (seen : gset string) (deduped : list Descriptor)
  : list Descriptor :=
  match rows with
  | [] => deduped
  | row :: rest =>
      if negb (Js.nonempty (id row)) || bool_decide (id row ∈ seen)
      then dedupe_loop rest seen deduped
      else dedupe_loop rest ({[ id row ]} ∪ seen) (deduped ++ [row])
  end.

Definition dedupe (rows : list Descriptor) : list Descriptor := dedupe_loop rows ∅ [].







(** *** Specification side *)

(** First occurrence wins, written without the set: keep a row, then drop
    every later row that carries its id. *)
Fixpoint first_by_id (rows : list Descriptor) : list Descriptor :=
  match rows with
  | [] => []
  | row :: rest => row :: filter (fun later => id later <> id row) (first_by_id rest)
  end.







(** A catalog with a repeated id. *)
Definition repeated_rows : list Descriptor :=
  [ mkDescriptor "base" "Base case" static_base None;
    mkDescriptor "nf70" "70%" static_index None;
    mkDescriptor "base" "Base again" static_index None;
    mkDescriptor "nf70" "70% again" static_index None;
    mkDescriptor "nf90" "90%" static_index None ].

End Resolver.

(** ** Scenario data loader: [loadScenarioData] and the scenario switch *)

Module Loader.
Import Model Fetch.

(** A [{rows: [...]}] payload of the API; [rows = None] when the property is
    missing. *)
Record RowsDoc (A : Type) : Type := mkRowsDoc { rows : option (list A) }.
Arguments mkRowsDoc {A} rows.
Arguments rows {A} r.

(** The four requests of one call, with what the network will answer.  A
    call made while [useApiBackend] is set issues [ApiRequests], any other
    call issues [StaticRequests]; [papa] tells whether the table parser is
    loaded on the page. *)
Inductive Requests :=
| ApiRequests (summaryR : JsonOutcome Summary) (hourlyR : JsonOutcome (RowsDoc Row))
              (costR : JsonOutcome (RowsDoc CostRow))
              (assumptionsR : JsonOutcome (RowsDoc AssumptionRow))
| StaticRequests (papa : bool) (summaryR : JsonOutcome Summary) (hourlyR : CsvOutcome Row)
                 (costR : CsvOutcome CostRow) (assumptionsR : CsvOutcome (gmap string Cell)).

Inductive Slot := SummarySlot | HourlySlot | CostSlot | AssumptionsSlot.

Definition all_slots : list Slot := [SummarySlot; HourlySlot; CostSlot; AssumptionsSlot].

#[export] Instance Slot_eq_dec : EqDecision Slot.
Proof. solve_decision. Defined.

(** The values the four promises fulfil with. *)
Inductive Payloads :=
| ApiPayloads (summaryPayload : option Summary) (hourlyPayload : option (RowsDoc Row))
              (costPayload : option (RowsDoc CostRow))
              (assumptionsPayload : option (RowsDoc AssumptionRow))
| StaticPayloads (summaryPayload : option Summary) (hourlyRows : list Row)
                 (costs : list CostRow) (assumptions : list (gmap string Cell)).

Definition reason {A : Type} (s : Settled A) : option string :=
  match s with
  | Fulfilled _ => None
  | Rejected m => Some m
  end.

(** The rejection message of the promise in [slot], if it rejects. *)
Definition rejection (scenarioId : string) (rq : Requests) (slot : Slot) : option string :=
  match rq with
  | ApiRequests s h c a =>
      match slot with
      | SummarySlot => reason (fetchJson (api_url "/api/summary" scenarioId) false s)
      | HourlySlot => reason (fetchJson (api_url "/api/hourly" scenarioId) false h)
      | CostSlot => reason (fetchJson (api_url "/api/cost-breakdown" scenarioId) false c)
      | AssumptionsSlot => reason (fetchJson (api_url "/api/assumptions" scenarioId) false a)
      end
  | StaticRequests papa s h c a =>
      match slot with
      | SummarySlot => reason (fetchJson (static_url scenarioId "/summary.json") false s)
      | HourlySlot =>
          reason (fetchCsvRows papa (static_url scenarioId "/hourly_dispatch.csv") false h)
      | CostSlot =>
          reason (fetchCsvRows papa (static_url scenarioId "/cost_breakdown.csv") false c)
      | AssumptionsSlot =>
          reason (fetchCsvRows papa (static_url scenarioId "/assumptions_used.csv") true a)
      end
  end.

(** What [await Promise.all([...])] destructures, when all four fulfil. *)
Definition fulfilled_payloads (scenarioId : string) (rq : Requests) : option Payloads :=
  match rq with
  | ApiRequests s h c a =>
      match fetchJson (api_url "/api/summary" scenarioId) false s,
            fetchJson (api_url "/api/hourly" scenarioId) false h,
            fetchJson (api_url "/api/cost-breakdown" scenarioId) false c,
            fetchJson (api_url "/api/assumptions" scenarioId) false a with
      | Fulfilled sp, Fulfilled hp, Fulfilled cp, Fulfilled ap => Some (ApiPayloads sp hp cp ap)
      | _, _, _, _ => None
      end
  | StaticRequests papa s h c a =>
      match fetchJson (static_url scenarioId "/summary.json") false s,
            fetchCsvRows papa (static_url scenarioId "/hourly_dispatch.csv") false h,
            fetchCsvRows papa (static_url scenarioId "/cost_breakdown.csv") false c,
            fetchCsvRows papa (static_url scenarioId "/assumptions_used.csv") true a with
      | Fulfilled sp, Fulfilled hr, Fulfilled cs, Fulfilled asm =>
          Some (StaticPayloads sp hr cs asm)
      | _, _, _, _ => None
      end
  end.

(** The globals that hold the current scenario's data. *)
Record Dashboard := mkDashboard {
  currentScenario : option string;
  summary : option Summary;
  hourly : list Row;
  costRows : list CostRow;
  assumptionsRows : list AssumptionRow
}.

(** [a ?? b ?? fallback] on the cells of a parsed row. *)
Definition coalesce (row : gmap string Cell) (canonical header : string) (fallback : Cell) : Cell :=
  match row !! canonical with
  | Some CNull | None =>
      match row !! header with
      | Some CNull | None => fallback
      | Some v => v
      end
  | Some v => v
  end.

Definition alias_columns (row : gmap string Cell) : AssumptionRow :=
  mkAssumption (coalesce row "assumption" "Assumption" (CStr ""))
               (coalesce row "value" "Value" CNull)
               (coalesce row "unit" "Unit / Notes" (CStr "")).

(** The assignments that follow the [await], in order.  Reading a property
    of a [null] payload throws and leaves the earlier assignments done; the
    second component is the message thrown, if any. *)
Definition assign (scenarioId : string) (p : Payloads) (d : Dashboard)
  : Dashboard * option string :=
  match p with
  | ApiPayloads summaryPayload hourlyPayload costPayload assumptionsPayload =>
      match summaryPayload with
      | None => (d, Some (null_access "scenario_id"))
      | Some sp =>
          let current := Some (Js.str_or (scenario_id sp) scenarioId) in
          match hourlyPayload with
          | None =>
              (mkDashboard current (Some sp) (hourly d) (costRows d) (assumptionsRows d),
               Some (null_access "rows"))
          | Some hp =>
              let hourly' := default [] (rows hp) in
              match costPayload with
              | None =>
                  (mkDashboard current (Some sp) hourly' (costRows d) (assumptionsRows d),
                   Some (null_access "rows"))
              | Some cp =>
                  let costRows' := default [] (rows cp) in
                  match assumptionsPayload with
                  | None =>
                      (mkDashboard current (Some sp) hourly' costRows' (assumptionsRows d),
                       Some (null_access "rows"))
                  | Some ap =>
                      (mkDashboard current (Some sp) hourly' costRows' (default [] (rows ap)),
                       None)
                  end
              end
          end
      end
  | StaticPayloads summaryPayload hourlyRows costs assumptions =>
      match summaryPayload with
      | None =>
          (mkDashboard (Some scenarioId) (summary d) (hourly d) (costRows d) (assumptionsRows d),
           Some (null_access "scenario_id"))
      | Some sp =>
          (mkDashboard (Some scenarioId)
             (Some (mkSummary (Some (Js.str_or (scenario_id sp) scenarioId))
                              (scenario_label sp) (figures sp)))
             hourlyRows costs (alias_columns <$> assumptions),
           None)
      end
  end.

(** One call of [loadScenarioData] in flight. *)
Inductive Phase := Waiting | Failed (message : string) | Completed.

Record Load := mkLoad {
  target : string;
  requests : Requests;
  arrived : list Slot;
  phase : Phase
}.

(** The page: the current data, the calls made so far, and the message
    [setError] last put on the page. *)
Record World := mkWorld {
  dashboard : Dashboard;
  loads : list Load;
  shown_error : option string
}.

Inductive Event :=
| Initiate (scenarioId : string) (rq : Requests)
| Settle (call : nat) (slot : Slot).

Definition all_arrived (got : list Slot) : bool :=
  forallb (fun s => bool_decide (s ∈ got)) all_slots.

(** The reaction of one pending call to the settlement of one of its
    promises: [Promise.all] rejects with the first rejection, and resumes
    the function once the fourth promise has fulfilled. *)
Definition settle (w : World) (k : nat) (ld : Load) (slot : Slot) : World :=
  let got := slot :: arrived ld in
  let keep ph := <[k := mkLoad (target ld) (requests ld) got ph]> (loads w) in
  match phase ld with
  | Waiting =>
      match rejection (target ld) (requests ld) slot with
      | Some m => mkWorld (dashboard w) (keep (Failed m)) (Some m)
      | None =>
          if all_arrived got then
            match fulfilled_payloads (target ld) (requests ld) with
            | Some p =>
                match assign (target ld) p (dashboard w) with
                | (d, None) => mkWorld d (keep Completed) (shown_error w)
                | (d, Some m) => mkWorld d (keep (Failed m)) (Some m)
                end
            | None => mkWorld (dashboard w) (keep Waiting) (shown_error w)
            end
          else mkWorld (dashboard w) (keep Waiting) (shown_error w)
      end
  | ph => mkWorld (dashboard w) (keep ph) (shown_error w)
  end.

Definition step (w : World) (e : Event) : World :=
  match e with
  | Initiate scenarioId rq =>
      mkWorld (dashboard w) (loads w ++ [mkLoad scenarioId rq [] Waiting]) (shown_error w)
  | Settle k slot =>
      match loads w !! k with
      | None => w
      | Some ld => if bool_decide (slot ∈ arrived ld) then w else settle w k ld slot
      end
  end.

Definition run (w : World) (events : list Event) : World := foldl step w events.

(** [loadScenarioData(scenarioId)] run on its own from the current data
    [d], its promises settling in the given order: the current data it
    leaves, and how the call ended. *)
Definition loadScenarioData (scenarioId : string) (rq : Requests) (order : list Slot)
    (d : Dashboard) : Dashboard * option Phase :=
  let w := run (mkWorld d [] None) (Initiate scenarioId rq :: (Settle 0 <$> order)) in
  (dashboard w, phase <$> loads w !! 0).

(** The message of the first promise, in settlement order, that rejects. *)
Fixpoint first_rejection (scenarioId : string) (rq : Requests) (order : list Slot)
  : option string :=
  match order with
  | [] => None
  | slot :: rest =>
      match rejection scenarioId rq slot with
      | Some m => Some m
      | None => first_rejection scenarioId rq rest
      end
  end.

(** What a call that publishes leaves in the globals. *)
Definition published (scenarioId : string) (p : Payloads) : Dashboard :=
  fst (assign scenarioId p (mkDashboard None None [] [] [])).

(** No JSON document among the payloads is [null]. *)
Definition no_null_document (p : Payloads) : bool :=
  match p with
  | ApiPayloads (Some _) (Some _) (Some _) (Some _) => true
  | StaticPayloads (Some _) _ _ _ => true
  | _ => false
  end.

(** A switch to [A] followed by a switch to [B]: [early] are the promises
    of the first call settled before the second switch, [late] is the order
    in which the remaining promises of both calls settle. *)
Definition two_switches (A : string) (rqA : Requests) (early : list Slot)
    (B : string) (rqB : Requests) (late : list (nat * Slot)) : list Event :=
  Initiate A rqA :: (Settle 0 <$> early) ++
  Initiate B rqB :: ((fun e => Settle (fst e) (snd e)) <$> late).

(** *** Proof vocabulary *)

(** The phase a call ends in once the function has resumed after the
    [await]: [thrown] is the message thrown by the assignments, if any. *)
Definition resumed (thrown : option string) : Phase :=
  match thrown with
  | None => Completed
  | Some m => Failed m
  end.

(** The phase of a call agrees with what has arrived for it. *)
Definition load_ok (ld : Load) : Prop :=
  match phase ld with
  | Waiting =>
      (forall s, s ∈ arrived ld -> rejection (target ld) (requests ld) s = None) /\
      all_arrived (arrived ld) = false
  | Failed m =>
      (exists s, s ∈ arrived ld /\ rejection (target ld) (requests ld) s = Some m) \/
      (all_arrived (arrived ld) = true /\
       exists p, fulfilled_payloads (target ld) (requests ld) = Some p /\
                 no_null_document p = false)
  | Completed =>
      all_arrived (arrived ld) = true /\
      exists p, fulfilled_payloads (target ld) (requests ld) = Some p /\
                no_null_document p = true
  end.

Definition world_ok (w : World) : Prop := Forall load_ok (loads w).

Definition is_initiate (e : Event) : bool :=
  match e with
  | Initiate _ _ => true
  | Settle _ _ => false
  end.

(** The eight settlements of two calls. *)
Definition both_calls : list (nat * Slot) :=
  ((fun s => (0, s)) <$> all_slots) ++ ((fun s => (1, s)) <$> all_slots).

(** *** Sample data: two scenarios served from static files *)

Definition ok_json {A : Type} (doc : A) : JsonOutcome A :=
  Answer (mkResponse true 200 "" (Fulfilled (Some doc))).

Definition ok_csv {A : Type} (table : list A) : CsvOutcome A :=
  Answer (mkResponse true 200 "" (mkParsed (Some table) [])).

Definition sample_requests (scenarioId : string) (demand : float) : Requests :=
  StaticRequests true
    (ok_json (mkSummary (Some scenarioId) None {[ "total_demand_mwh" := demand ]}))
    (ok_csv [mkRow "2024-01-01T00:00:00" {[ "demand_mwh" := demand ]}])
    (ok_csv [mkCostRow None (Some "solar") (Some "capex_annualized") (Some demand)])
    (ok_csv [ {[ "Assumption" := CStr "Demand"; "Value" := CNum demand ]} ]).

(** A load through the API whose hourly endpoint answers with the body
    [null]. *)
Definition api_requests_hourly_null (scenarioId : string) (demand : float) : Requests :=
  ApiRequests
    (ok_json (mkSummary (Some scenarioId) None {[ "total_demand_mwh" := demand ]}))
    (Answer (mkResponse true 200 "null" (Fulfilled None)))
    (ok_json (mkRowsDoc (Some [mkCostRow None (Some "solar") (Some "capex_annualized")
                                         (Some demand)])))
    (ok_json (mkRowsDoc (Some []))).

(** A load from static files whose summary file holds [null]. *)
Definition static_requests_summary_null (demand : float) : Requests :=
  StaticRequests true
    (Answer (mkResponse true 200 "null" (Fulfilled None)))
    (ok_csv [mkRow "2024-01-01T00:00:00" {[ "demand_mwh" := demand ]}])
    (ok_csv [mkCostRow None (Some "solar") (Some "capex_annualized") (Some demand)])
    (ok_csv []).

(** The same requests, with the cost table missing on the server. *)
Definition sample_requests_cost_missing (scenarioId : string) (demand : float) : Requests :=
  StaticRequests true
    (ok_json (mkSummary (Some scenarioId) None {[ "total_demand_mwh" := demand ]}))
    (ok_csv [mkRow "2024-01-01T00:00:00" {[ "demand_mwh" := demand ]}])
    (Answer (mkResponse false 404 "cost_breakdown.csv not found" (mkParsed None [])))
    (ok_csv []).

Definition sample_dashboard (scenarioId : string) (demand : float) : Dashboard :=
  mkDashboard (Some scenarioId)
    (Some (mkSummary (Some scenarioId) None {[ "total_demand_mwh" := demand ]}))
    [mkRow "2024-01-01T00:00:00" {[ "demand_mwh" := demand ]}]
    [mkCostRow None (Some "solar") (Some "capex_annualized") (Some demand)]
    [mkAssumption (CStr "Demand") (CNum demand) (CStr "")].

Definition blank : World := mkWorld (mkDashboard None None [] [] []) [] None.

(** The second call's promises settle first, the first call's last. *)
Definition stale_last : list (nat * Slot) :=
  ((fun s => (1, s)) <$> all_slots) ++ ((fun s => (0, s)) <$> all_slots).

End Loader.

(** ** Temporal aggregator: [getWindowedRows] and [aggregateDaily] *)

Module Temporal.
Import Model.

Definition FULL_YEAR_HOURS : Z := 8784.

(** [getWindowedRows]: the two control values are read from the page, the
    array is the global [hourly]. *)
Definition getWindowedRows {A : Type} (hourly : list A) (windowSize start : Z) : list A :=
  let stop := Z.min (Z.of_nat (length hourly)) (start + windowSize) in
  Js.slice hourly start stop.

Definition isFullYearWindowSelected (windowSize : Z) : bool :=
  (windowSize =? FULL_YEAR_HOURS)%Z.

Definition DAILY_SUM_KEYS : list string :=
  [ "demand_mwh"; "gen_solar_mwh"; "gen_diesel_mwh"; "gen_ccgt_mwh";
    "gen_coal_mwh"; "battery_discharge_mwh"; "battery_charge_mwh";
    "battery_net_mwh"; "unserved_mwh" ].

Definition SOC_KEY : string := "battery_soc_mwh".

(** Row objects live in a store; an array of rows is a list of locations. *)
Abbreviation loc := nat (only parsing).
Abbreviation heap := (list Row) (only parsing).

Definition undefined_row : Row := mkRow "undefined" ∅.

Definition deref (h : heap) (l : loc) : Row := default undefined_row (h !! l).

(** [o[key]] read as a number ([undefined] converts to [NaN]). *)
Definition get_num (o : Row) (key : string) : float :=
  default PrimFloat.nan (num o !! key).

Definition set_num (o : Row) (key : string) (v : float) : Row :=
  mkRow (timestamp o) (<[key := v]> (num o)).

(** [Number(row[key] || 0)] *)
Definition reading (key : string) (row : Row) : float :=
  Js.number_or_zero (num row !! key).

(** [String(row.timestamp).slice(0, 10)] *)
Definition day_key (row : Row) : string := Js.str_prefix 10 (timestamp row).

(** [acc = { timestamp: dayKey, battery_soc_mwh: 0 }] followed by
    [acc[key] = 0] for every summed key. *)
Definition fresh_acc (dayKey : string) : Row :=
  foldl (fun o key => set_num o key 0%float)
        (mkRow dayKey {[ SOC_KEY := 0%float ]}) DAILY_SUM_KEYS.

Record LoopState := mkLoop {
  store : heap;
  grouped : list loc;
  day : option string;
  acc : option loc
}.

(** [acc[key] += Number(row[key] || 0)] *)
Definition add_key (row a : loc) (h : heap) (key : string) : heap :=
  alter (fun o => set_num o key (PrimFloat.add (get_num o key) (reading key (deref h row)))) a h.

(** [acc.battery_soc_mwh = Number(row.battery_soc_mwh || 0)] *)
Definition set_soc (row a : loc) (h : heap) : heap :=
  alter (fun o => set_num o SOC_KEY (reading SOC_KEY (deref h row))) a h.

(** One iteration of [for (const row of rows)].  [None] is the [TypeError]
    of writing through a null [acc]. *)
Definition daily_step (st : LoopState) (row : loc) : option LoopState :=
  let dayKey := day_key (deref (store st) row) in
  let st1 :=
    if bool_decide (day st = Some dayKey) then st
    else
      let a := length (store st) in
      mkLoop (store st ++ [fresh_acc dayKey]) (grouped st ++ [a]) (Some dayKey) (Some a) in
  match acc st1 with
  | None => None
  | Some a =>
      let h1 := foldl (add_key row a) (store st1) DAILY_SUM_KEYS in
      Some (mkLoop (set_soc row a h1) (grouped st1) (day st1) (Some a))
  end.

Fixpoint daily_loop (st : LoopState) (rows : list loc) : option LoopState :=
  match rows with
  | [] => Some st
  | row :: rest =>
      match daily_step st row with
      | Some st' => daily_loop st' rest
      | None => None
      end
  end.

(** [aggregateDaily(rows)]: the store after the call and the array of
    grouped objects. *)
Definition aggregateDaily (h : heap) (rows : list loc) : option (heap * list loc) :=
  match rows with
  | [] => Some (h, [])
  | _ =>
      match daily_loop (mkLoop h [] None None) rows with
      | Some st => Some (store st, grouped st)
      | None => None
      end
  end.

(** [renderWindow]: the rows handed to the two chart renderers. *)
Definition renderWindow (h : heap) (hourly : list loc) (windowSize start : Z)
  : option (heap * list loc) :=
  if isFullYearWindowSelected windowSize
  then aggregateDaily h (getWindowedRows hourly windowSize start)
  else Some (h, getWindowedRows hourly windowSize start).

(** *** Specification side *)

(** The maximal runs of consecutive rows with the same day prefix. *)
Fixpoint runs (rows : list Row) : list (list Row) :=
  match rows with
  | [] => []
  | row :: rest =>
      match runs rest with
      | (next :: others) :: later =>
          if bool_decide (day_key row = day_key next)
          then (row :: next :: others) :: later
          else [row] :: (next :: others) :: later
      | _ => [[row]]
      end
  end.

(** The sum of a column over a group, accumulated from zero in row order. *)
Definition column_sum (key : string) (group : list Row) : float :=
  foldl (fun total row => PrimFloat.add total (reading key row)) 0%float group.

(** The reading of the state of charge of the last row of a group. *)
Definition closing_soc (group : list Row) : float :=
  match last group with
  | Some row => reading SOC_KEY row
  | None => 0%float
  end.

(** An output row summarizes a group. *)
Definition summarizes (group : list Row) (out : Row) : Prop :=
  (exists first, head group = Some first /\ timestamp out = day_key first) /\
  (forall key, key ∈ DAILY_SUM_KEYS -> num out !! key = Some (column_sum key group)) /\
  num out !! SOC_KEY = Some (closing_soc group).

(** Two neighbouring groups never share their day prefix. *)
Fixpoint neighbours_differ (groups : list (list Row)) : Prop :=
  match groups with
  | g1 :: ((g2 :: _) as rest) =>
      (forall r1 r2, last g1 = Some r1 -> head g2 = Some r2 -> day_key r1 <> day_key r2) /\
      neighbours_differ rest
  | _ => True
  end.

(** The day prefixes of the rows that differ from the row just before them
    (the first row has none before it). *)
Fixpoint day_changes (previous : option string) (rows : list Row) : list string :=
  match rows with
  | [] => []
  | row :: rest =>
      if bool_decide (previous = Some (day_key row))
      then day_changes (Some (day_key row)) rest
      else day_key row :: day_changes (Some (day_key row)) rest
  end.

(** The day prefix a group opens with. *)
Definition opening_key (group : list Row) : string :=
  match head group with
  | Some row => day_key row
  | None => EmptyString
  end.

(** Sample series: two hours of one day followed by one hour of the next,
    and a series whose first day comes back after another day. *)
Definition two_days : list Row :=
  [ mkRow "2024-01-01T00:00:00" {[ "demand_mwh" := 10%float; "battery_soc_mwh" := 3%float ]};
    mkRow "2024-01-01T01:00:00" {[ "demand_mwh" := 20%float; "battery_soc_mwh" := 4%float ]};
    mkRow "2024-01-02T00:00:00" {[ "demand_mwh" := 5%float; "battery_soc_mwh" := 7%float ]} ].

Definition day_comes_back : list Row :=
  [ mkRow "2024-01-01T00:00:00" {[ "demand_mwh" := 1%float ]};
    mkRow "2024-01-02T00:00:00" {[ "demand_mwh" := 2%float ]};
    mkRow "2024-01-01T01:00:00" {[ "demand_mwh" := 4%float ]} ].

(** What one iteration does to the accumulator object, as a function of
    the row's contents. *)
Definition absorb_keys (v : Row) (keys : list string) (o : Row) : Row :=
  foldl (fun o key => set_num o key (PrimFloat.add (get_num o key) (reading key v))) o keys.

Definition absorb (v : Row) (o : Row) : Row :=
  set_num (absorb_keys v DAILY_SUM_KEYS o) SOC_KEY (reading SOC_KEY v).

(** The accumulator object [o] of day [d] holds the totals of the rows
    [group] read so far. *)
Definition tracks (d : string) (group : list Row) (o : Row) : Prop :=
  timestamp o = d /\
  (forall key, key ∈ DAILY_SUM_KEYS -> num o !! key = Some (column_sum key group)) /\
  num o !! SOC_KEY = Some (closing_soc group).

End Temporal.

(** ** The daily rollup, stated from the rows *)

Module DailySpec.
Import Model.

(** The calendar day of a row: the first ten characters of its timestamp. *)
Definition calendar_day (row : Row) : string :=
  string_of_list_ascii (take 10 (list_ascii_of_string (timestamp row))).

(** The flow quantities: demand, generation by technology, battery charge,
    discharge and net output, unserved energy. *)
Definition flow_columns : list string :=
  [ "demand_mwh"; "gen_solar_mwh"; "gen_diesel_mwh"; "gen_ccgt_mwh"; "gen_coal_mwh";
    "battery_charge_mwh"; "battery_discharge_mwh"; "battery_net_mwh"; "unserved_mwh" ].

(** The number a cell contributes: the number it holds, and zero for a
    cell that is missing, zero or not a number. *)
Definition cell (key : string) (row : Row) : float :=
  match num row !! key with
  | Some v => if PrimFloat.eqb v v && negb (PrimFloat.eqb v 0%float) then v else 0%float
  | None => 0%float
  end.

(** The sum of a column over a group, added up from zero in row order. *)
Fixpoint flow_total_from (total : float) (key : string) (group : list Row) : float :=
  match group with
  | [] => total
  | row :: rest => flow_total_from (PrimFloat.add total (cell key row)) key rest
  end.

Definition flow_total (key : string) (group : list Row) : float :=
  flow_total_from 0%float key group.

(** The state of charge at the end of a group. *)
Definition closing_charge (group : list Row) : float :=
  match last group with
  | Some row => cell "battery_soc_mwh" row
  | None => 0%float
  end.

(** The maximal groups of consecutive rows of the same calendar day. *)
Fixpoint day_groups (rows : list Row) : list (list Row) :=
  match rows with
  | [] => []
  | row :: rest =>
      match day_groups rest with
      | (next :: others) :: later =>
          if String.eqb (calendar_day row) (calendar_day next)
          then (row :: next :: others) :: later
          else [row] :: (next :: others) :: later
      | _ => [[row]]
      end
  end.

(** An output row is the rollup of a group. *)
Definition day_row (group : list Row) (out : Row) : Prop :=
  (exists first, head group = Some first /\ timestamp out = calendar_day first) /\
  (forall key, key ∈ flow_columns -> num out !! key = Some (flow_total key group)) /\
  num out !! "battery_soc_mwh" = Some (closing_charge group).

(** A group ends on another calendar day than the next group starts on. *)
Fixpoint days_differ (groups : list (list Row)) : Prop :=
  match groups with
  | g1 :: ((g2 :: _) as rest) =>
      (forall r1 r2, last g1 = Some r1 -> head g2 = Some r2 ->
                     calendar_day r1 <> calendar_day r2) /\
      days_differ rest
  | _ => True
  end.

(** Sample series: two hours of one day and one hour of the next, with
    generation, battery and unserved figures. *)
Definition busy_days : list Row :=
  [ mkRow "2024-01-01T00:00:00"
      (list_to_map [ ("demand_mwh", 10%float); ("gen_solar_mwh", 4%float);
                     ("gen_coal_mwh", 6%float); ("battery_charge_mwh", 1%float);
                     ("battery_net_mwh", (-1)%float); ("unserved_mwh", 0.5%float);
                     ("battery_soc_mwh", 3%float) ]);
    mkRow "2024-01-01T01:00:00"
      (list_to_map [ ("demand_mwh", 20%float); ("gen_solar_mwh", 8%float);
                     ("gen_coal_mwh", 12%float); ("battery_discharge_mwh", 2%float);
                     ("battery_net_mwh", 2%float); ("unserved_mwh", 1.5%float);
                     ("battery_soc_mwh", 4%float) ]);
    mkRow "2024-01-02T00:00:00"
      (list_to_map [ ("demand_mwh", 5%float); ("gen_diesel_mwh", 5%float);
                     ("gen_ccgt_mwh", 1%float); ("battery_soc_mwh", 7%float) ]) ].

(** The two rows of the rollup of [busy_days]. *)
Definition busy_days_rollup : list Row :=
  [ mkRow "2024-01-01"
      (list_to_map [ ("demand_mwh", 30%float); ("gen_solar_mwh", 12%float);
                     ("gen_diesel_mwh", 0%float); ("gen_ccgt_mwh", 0%float);
                     ("gen_coal_mwh", 18%float); ("battery_discharge_mwh", 2%float);
                     ("battery_charge_mwh", 1%float); ("battery_net_mwh", 1%float);
                     ("unserved_mwh", 2%float); ("battery_soc_mwh", 4%float) ]);
    mkRow "2024-01-02"
      (list_to_map [ ("demand_mwh", 5%float); ("gen_solar_mwh", 0%float);
                     ("gen_diesel_mwh", 5%float); ("gen_ccgt_mwh", 1%float);
                     ("gen_coal_mwh", 0%float); ("battery_discharge_mwh", 0%float);
                     ("battery_charge_mwh", 0%float); ("battery_net_mwh", 0%float);
                     ("unserved_mwh", 0%float); ("battery_soc_mwh", 7%float) ]) ].

End DailySpec.

(** ** Cost waterfall builder: [renderCostBreakdown] *)

Module Waterfall.
Import Model.

Definition THEME_demand : string := "#f2a13b".

Definition TECH_COST_COLORS : gmap string string :=
  list_to_map [ ("solar", "#ffcf5c"); ("battery", "#9ef076"); ("diesel", "#ff7f50");
                ("ccgt", "#55d3be"); ("coal", "#7fb3ff"); ("unserved_penalty", "#ff4d6d") ].

Definition techOrder : list string := ["solar"; "battery"; "diesel"; "ccgt"; "coal"].
Definition componentOrder : list string := ["capex_annualized"; "fixed_om"; "var_om"].

Definition techLabel : gmap string string :=
  list_to_map [ ("solar", "Solar"); ("battery", "Battery"); ("diesel", "Diesel");
                ("ccgt", "CCGT"); ("coal", "Coal") ].

Definition componentLabel : gmap string string :=
  list_to_map [ ("capex_annualized", "CAPEX (annualized)"); ("fixed_om", "Fixed O&M");
                ("var_om", "Var O&M") ].

(** [`${techLabel[tech]} ${componentLabel[component]}`] *)
Definition step_label (tech component : string) : string :=
  String.append (default "undefined" (techLabel !! tech))
    (String.append " " (default "undefined" (componentLabel !! component))).

Definition PENALTY_LABEL : string := "Unserved Penalty".
Definition TOTAL_LABEL : string := "Total System Cost".

(** [Number(summary.served_energy_mwh || summary.total_demand_mwh || 0)] *)
Definition servedEnergy (summary : Summary) : float :=
  Js.number_or_zero (Js.num_or (figures summary !! "served_energy_mwh")
                               (figures summary !! "total_demand_mwh")).

Definition usePerMwh (mode : string) (summary : Summary) : bool :=
  String.eqb mode "per_mwh" && PrimFloat.ltb 0%float (servedEnergy summary).

Definition scale_of (mode : string) (summary : Summary) : float :=
  if usePerMwh mode summary then PrimFloat.div 1%float (servedEnergy summary) else 1%float.

Definition yAxisTitle (mode : string) (summary : Summary) : string :=
  if usePerMwh mode summary then "USD per MWh served" else "USD".

(** [.reduce((sum, row) => sum + Number(row.cost_usd || 0), 0)] *)
Definition total_cost (rows : list CostRow) : float :=
  foldl (fun sum row => PrimFloat.add sum (Js.number_or_zero (cost_usd row))) 0%float rows.

Definition valueFor (costRows : list CostRow) (tech comp : string) : float :=
  total_cost (filter (fun row => technology row = Some tech /\ component row = Some comp)
                     costRows).

Definition below_half (v : float) : bool := PrimFloat.ltb (PrimFloat.abs v) 0.5%float.
Definition at_least_half (v : float) : bool := PrimFloat.leb 0.5%float (PrimFloat.abs v).

Record Step := mkStep { label : string; value : float; step_technology : string }.

Definition push_component (costRows : list CostRow) (tech : string)
    (steps : list Step) (comp : string) : list Step :=
  let value := valueFor costRows tech comp in
  if below_half value then steps
  else steps ++ [mkStep (step_label tech comp) value tech].

Definition push_technology (costRows : list CostRow) (steps : list Step) (tech : string)
  : list Step :=
  foldl (push_component costRows tech) steps componentOrder.

Definition unservedPenalty (costRows : list CostRow) : float :=
  total_cost (filter (fun row => component row = Some "unserved_penalty") costRows).

Definition build_steps (costRows : list CostRow) : list Step :=
  let steps := foldl (push_technology costRows) [] techOrder in
  if at_least_half (unservedPenalty costRows)
  then steps ++ [mkStep PENALTY_LABEL (unservedPenalty costRows) "unserved_penalty"]
  else steps.

(** The arrays handed to the chart, and the running total. *)
Record Bars := mkBars {
  x : list string;
  y : list float;
  base : list float;
  colors : list string;
  running : float
}.

Definition push_bar (scale : float) (b : Bars) (step : Step) : Bars :=
  let scaledValue := PrimFloat.mul (value step) scale in
  mkBars (x b ++ [label step]) (y b ++ [scaledValue]) (base b ++ [running b])
         (colors b ++ [default "#5ec2ff" (TECH_COST_COLORS !! step_technology step)])
         (PrimFloat.add (running b) scaledValue).

Definition push_total (b : Bars) : Bars :=
  mkBars (x b ++ [TOTAL_LABEL]) (y b ++ [running b]) (base b ++ [0%float])
         (colors b ++ [THEME_demand]) (running b).

Definition waterfall (scale : float) (steps : list Step) : Bars :=
  push_total (foldl (push_bar scale) (mkBars [] [] [] [] 0%float) steps).

(** [grouped[row.bucket] = (grouped[row.bucket] || 0) + Number(row.cost_usd || 0)] *)
Definition add_bucket (grouped : gmap string float) (row : CostRow) : gmap string float :=
  let key := default "undefined" (bucket row) in
  <[key := PrimFloat.add (Js.number_or_zero (grouped !! key))
                         (Js.number_or_zero (cost_usd row))]> grouped.

Definition bucket_totals (costRows : list CostRow) : gmap string float :=
  foldl add_bucket
        (list_to_map [("fixed", 0%float); ("variable", 0%float); ("penalty", 0%float)])
        costRows.

Definition bucket_bar (grouped : gmap string float) (key : string) (scale : float) : float :=
  PrimFloat.mul (default PrimFloat.nan (grouped !! key)) scale.

(** What is drawn: three stacked bars for the coarse schema, the waterfall
    for the detailed one. *)
Inductive Chart :=
| Stacked (fixed variable penalty : float) (axis : string)
| Cascade (bars : Bars) (axis : string).

Definition hasDetailed (costRows : list CostRow) : bool :=
  existsb (fun row => bool_decide (is_Some (component row))) costRows.

(** [renderCostBreakdown]: [costUnitMode] is the value of the unit selector,
    [None] when the page has none. *)
Definition renderCostBreakdown (summary : option Summary) (costUnitMode : option string)
    (costRows : list CostRow) : option Chart :=
  match summary with
  | None => None
  | Some s =>
      let mode := default "total" costUnitMode in
      let scale := scale_of mode s in
      if negb (hasDetailed costRows) then
        let grouped := bucket_totals costRows in
        Some (Stacked (bucket_bar grouped "fixed" scale) (bucket_bar grouped "variable" scale)
                      (bucket_bar grouped "penalty" scale) (yAxisTitle mode s))
      else
        Some (Cascade (waterfall scale (build_steps costRows)) (yAxisTitle mode s))
  end.

(** *** Specification side *)

(** The sum of a list of bar heights, accumulated from zero in order. *)
Definition sum_of (values : list float) : float := foldl PrimFloat.add 0%float values.

(** The divisor of the per-unit mode: the summary's served energy, or the
    total demand when the served energy is zero, not a number or missing,
    or zero when neither is usable. *)
Definition effective_energy (summary : Summary) : float :=
  match figures summary !! "served_energy_mwh" with
  | Some served =>
      if Js.truthy served then served
      else Js.number_or_zero (figures summary !! "total_demand_mwh")
  | None => Js.number_or_zero (figures summary !! "total_demand_mwh")
  end.

(** Sample data: a detailed table with one negligible pair, and summaries
    with and without served energy. *)
Definition detailed_rows : list CostRow :=
  [ mkCostRow None (Some "solar") (Some "capex_annualized") (Some 1000%float);
    mkCostRow None (Some "solar") (Some "fixed_om") (Some 0.25%float);
    mkCostRow None None (Some "unserved_penalty") (Some 8%float) ].

Definition served_1000 : Summary :=
  mkSummary None None {[ "served_energy_mwh" := 1000%float ]}.

Definition nothing_served : Summary :=
  mkSummary None None {[ "served_energy_mwh" := 0%float; "total_demand_mwh" := 4%float ]}.

Definition served_49 : Summary :=
  mkSummary None None {[ "served_energy_mwh" := 49%float ]}.

End Waterfall.

(** ** The detailed cost chart, stated from the rows *)

Module WaterfallSpec.
Import Model.

(** The technology and component pairs of the detailed chart, in the
    order of its steps, each with the label of its step. *)
Definition labelled_pairs : list (string * string * string) :=
  [ ("solar", "capex_annualized", "Solar CAPEX (annualized)");
    ("solar", "fixed_om", "Solar Fixed O&M");
    ("solar", "var_om", "Solar Var O&M");
    ("battery", "capex_annualized", "Battery CAPEX (annualized)");
    ("battery", "fixed_om", "Battery Fixed O&M");
    ("battery", "var_om", "Battery Var O&M");
    ("diesel", "capex_annualized", "Diesel CAPEX (annualized)");
    ("diesel", "fixed_om", "Diesel Fixed O&M");
    ("diesel", "var_om", "Diesel Var O&M");
    ("ccgt", "capex_annualized", "CCGT CAPEX (annualized)");
    ("ccgt", "fixed_om", "CCGT Fixed O&M");
    ("ccgt", "var_om", "CCGT Var O&M");
    ("coal", "capex_annualized", "Coal CAPEX (annualized)");
    ("coal", "fixed_om", "Coal Fixed O&M");
    ("coal", "var_om", "Coal Var O&M") ].

(** The cost a row carries: the number in its cell, and zero for a cell
    that is missing, zero or not a number. *)
Definition cost_of (row : CostRow) : float :=
  match cost_usd row with
  | Some v => if PrimFloat.eqb v v && negb (PrimFloat.eqb v 0%float) then v else 0%float
  | None => 0%float
  end.

(** The sum of the costs of the rows that satisfy [wanted], added to
    [total] one row after the other. *)
Fixpoint sum_where (wanted : CostRow -> bool) (total : float) (rows : list CostRow) : float :=
  match rows with
  | [] => total
  | row :: rest =>
      sum_where wanted (if wanted row then PrimFloat.add total (cost_of row) else total) rest
  end.

(** The sum of the rows of a technology and component. *)
Definition matching_sum (tech comp : string) (rows : list CostRow) : float :=
  sum_where (fun row => bool_decide (technology row = Some tech) &&
                        bool_decide (component row = Some comp))
            0%float rows.

(** The sum of the penalty rows. *)
Definition penalty_sum (rows : list CostRow) : float :=
  sum_where (fun row => bool_decide (component row = Some "unserved_penalty")) 0%float rows.

(** The step of a pair: none when the absolute value of the sum is below
    one half. *)
Definition kept_pair (rows : list CostRow) (entry : string * string * string)
  : option (string * float) :=
  let v := matching_sum entry.1.1 entry.1.2 rows in
  if PrimFloat.ltb (PrimFloat.abs v) 0.5%float then None else Some (entry.2, v).

(** The penalty step: present when the absolute value of the sum is at
    least one half. *)
Definition kept_penalty (rows : list CostRow) : list (string * float) :=
  let v := penalty_sum rows in
  if PrimFloat.leb 0.5%float (PrimFloat.abs v) then [("Unserved Penalty", v)] else [].

(** The retained steps, in order: label and value. *)
Definition kept_steps (rows : list CostRow) : list (string * float) :=
  omap (kept_pair rows) labelled_pairs ++ kept_penalty rows.

(** Sample data: the solar capital rows cancel down to a quarter, the
    battery capital rows add up to one half exactly, the diesel rows add up
    to a thousand, and a lone quarter for coal. *)
Definition mixed_rows : list CostRow :=
  [ mkCostRow None (Some "solar") (Some "capex_annualized") (Some 1000%float);
    mkCostRow None (Some "diesel") (Some "var_om") (Some 600%float);
    mkCostRow None (Some "battery") (Some "capex_annualized") (Some 0.25%float);
    mkCostRow None (Some "solar") (Some "capex_annualized") (Some (-999.75)%float);
    mkCostRow None None (Some "unserved_penalty") (Some 8%float);
    mkCostRow None (Some "battery") (Some "capex_annualized") (Some 0.25%float);
    mkCostRow None (Some "coal") (Some "fixed_om") (Some 0.25%float);
    mkCostRow None (Some "diesel") (Some "var_om") (Some 400%float) ].

End WaterfallSpec.

(** ** Comparison aggregator: [loadComparisonData] *)

Module Comparison.
Import Model Fetch.

(** One of the [tasks]: the async function applied to a catalog row, with
    what the network answers to its request. *)
Definition task (useApiBackend : bool) (row : Descriptor) (o : JsonOutcome Summary)
  : Settled Summary :=
  if useApiBackend then
    match fetchJson (api_url "/api/summary" (id row)) false o with
    | Rejected m => Rejected m
    | Fulfilled None => Rejected (null_access "scenario_id")
    | Fulfilled (Some payload) =>
        let reported := Js.str_or (scenario_id payload) (id row) in
        Fulfilled (mkSummary (Some reported)
                             (Some (if Js.nonempty (label row) then label row else reported))
                             (figures payload))
    end
  else
    match fetchJson (static_url (id row) "/summary.json") false o with
    | Rejected m => Rejected m
    | Fulfilled payload =>
        Fulfilled (mkSummary (Some (id row))
                             (Some (if Js.nonempty (label row) then label row else id row))
                             (from_option figures ∅ payload))
    end.

Definition fulfilled_value {A : Type} (s : Settled A) : option A :=
  match s with
  | Fulfilled a => Some a
  | Rejected _ => None
  end.

Record ComparisonState := mkComparison {
  comparisonSummaries : list Summary;
  comparisonLoadFailures : nat
}.

(** [loadComparisonData]: the catalog is given with the answer to each
    row's request. *)
Definition loadComparisonData (useApiBackend : bool)
    (scenarios : list (Descriptor * JsonOutcome Summary)) : ComparisonState :=
  let settled := (fun e => task useApiBackend (fst e) (snd e)) <$> scenarios in
  let summaries := omap fulfilled_value settled in
  mkComparison summaries (length settled - length summaries).

(** *** Specification side *)

Definition request_url (useApiBackend : bool) (row : Descriptor) : string :=
  if useApiBackend then api_url "/api/summary" (id row)
  else static_url (id row) "/summary.json".

(** Whether the retrieval of a catalog entry rejects. *)
Definition rejects (useApiBackend : bool) (e : Descriptor * JsonOutcome Summary) : bool :=
  match fetchJson (request_url useApiBackend (fst e)) false (snd e) with
  | Rejected _ => true
  | Fulfilled _ => false
  end.

(** The retrieval of a catalog entry does not deliver the document
    [null]. *)
Definition delivers_no_null (useApiBackend : bool) (e : Descriptor * JsonOutcome Summary)
  : Prop :=
  fetchJson (request_url useApiBackend (fst e)) false (snd e) <> Fulfilled None.

(** The scenario id a comparison row is tagged with: in API mode the id
    the summary reports, when it reports one. *)
Definition tag_id (useApiBackend : bool) (row : Descriptor) (payload : Summary) : string :=
  if useApiBackend then Js.str_or (scenario_id payload) (id row) else id row.

(** The comparison row [sm] is the summary retrieved for the entry [e],
    tagged. *)
Definition tagged (useApiBackend : bool) (e : Descriptor * JsonOutcome Summary)
    (sm : Summary) : Prop :=
  exists payload,
    fetchJson (request_url useApiBackend (fst e)) false (snd e) = Fulfilled (Some payload) /\
    figures sm = figures payload /\
    scenario_id sm = Some (tag_id useApiBackend (fst e) payload) /\
    scenario_label sm =
      Some (if Js.nonempty (label (fst e)) then label (fst e)
            else tag_id useApiBackend (fst e) payload).

(** Sample data: five scenarios of which the third cannot be retrieved,
    and an API whose summary reports another id than the catalog's. *)
Definition summary_of (scenarioId : string) : JsonOutcome Summary :=
  Answer (mkResponse true 200 "" (Fulfilled (Some (mkSummary (Some scenarioId) None ∅)))).

Definition five_scenarios : list (Descriptor * JsonOutcome Summary) :=
  [ (mkDescriptor "base" "Base case" static_base None, summary_of "base");
    (mkDescriptor "nf70" "70%" static_index None, summary_of "nf70");
    (mkDescriptor "nf80" "80%" static_index None,
     Answer (mkResponse false 500 "summary unavailable" (Rejected "")));
    (mkDescriptor "nf90" "90%" static_index None, summary_of "nf90");
    (mkDescriptor "nf95" "95%" static_index None, summary_of "nf95") ].

Definition renamed_by_api : list (Descriptor * JsonOutcome Summary) :=
  [ (mkDescriptor "nf70" "70% non-fossil" api None, summary_of "NF-70") ].

End Comparison.

(** ** The page: labels, the start slider and the two time charts *)

Module Page.
Import Model Temporal.

(** [scenarioLabelById(id)], over the global [scenarios]. *)
Definition scenarioLabelById (scenarios : list Descriptor) (wanted : string) : string :=
  match List.find (fun s => String.eqb (id s) wanted) scenarios with
  | Some row => label row
  | None => wanted
  end.

(** The start slider: its [max] and its [value], both read as numbers. *)
Record Slider := mkSlider { slider_max : Z; slider_value : Z }.

(** [updateSliderMax()]: the slider after the call. *)
Definition updateSliderMax {A : Type} (hourly : list A) (windowSize : Z) (startSlider : Slider)
  : Slider :=
  let maxStart := Z.max 0 (Z.of_nat (length hourly) - windowSize) in
  mkSlider maxStart
           (if (maxStart <? slider_value startSlider)%Z then maxStart
            else slider_value startSlider).

(** A series handed to the charting library: its name, its colour and its
    two coordinate arrays.  Line widths and the other constants of style
    are left out. *)
Record Trace := mkTrace {
  trace_name : string;
  trace_color : string;
  trace_x : list string;
  trace_y : list float
}.

Record Plot := mkPlot {
  traces : list Trace;
  xaxis_title : string;
  yaxis_title : string;
  yaxis2_title : option string
}.

Definition stacks : list string :=
  ["gen_solar_mwh"; "gen_diesel_mwh"; "gen_ccgt_mwh"; "gen_coal_mwh"; "battery_discharge_mwh"].

Definition stack_labels : gmap string string :=
  list_to_map [ ("gen_solar_mwh", "Solar"); ("gen_diesel_mwh", "Diesel");
                ("gen_ccgt_mwh", "CCGT"); ("gen_coal_mwh", "Coal");
                ("battery_discharge_mwh", "Battery Discharge") ].

Definition stack_colors : gmap string string :=
  list_to_map [ ("gen_solar_mwh", "#ffcf5c"); ("gen_diesel_mwh", "#ff7f50");
                ("gen_ccgt_mwh", "#55d3be"); ("gen_coal_mwh", "#7fb3ff");
                ("battery_discharge_mwh", "#9ef076") ].

(** [renderDispatch(rows, isDaily)]: what is handed to the chart. *)
Definition renderDispatch (rows : list Row) (isDaily : bool) : Plot :=
  let x := timestamp <$> rows in
  let stacked :=
    (fun key => mkTrace (default "undefined" (stack_labels !! key))
                        (default "undefined" (stack_colors !! key))
                        x (reading key <$> rows)) <$> stacks in
  let charge :=
    mkTrace "Battery Charge (-)" "#f27d7d" x
            ((fun r => PrimFloat.mul (reading "battery_charge_mwh" r) (-1)%float) <$> rows) in
  let unserved := mkTrace "Unserved" "#ff4d6d" x (reading "unserved_mwh" <$> rows) in
  let demand := mkTrace "Demand" "#f2a13b" x (reading "demand_mwh" <$> rows) in
  mkPlot (stacked ++ [charge] ++ [unserved] ++ [demand])
         (if isDaily then "Day" else "Time")
         (if isDaily then "MWh per day" else "MWh per hour")
         None.

(** [renderBattery(rows, isDaily)] *)
Definition renderBattery (rows : list Row) (isDaily : bool) : Plot :=
  let x := timestamp <$> rows in
  mkPlot [ mkTrace "State of Charge" "#7ec7ff" x (reading "battery_soc_mwh" <$> rows);
           mkTrace "Battery Net Output" "#50d2c2" x (reading "battery_net_mwh" <$> rows) ]
         (if isDaily then "Day" else "Time")
         "SOC (MWh)"
         (Some (if isDaily then "Net Output (MWh/day)" else "Net Output (MWh/h)")).

(** [renderWindow()]: the store after the call and the two plots drawn,
    [None] when [aggregateDaily] throws. *)
Definition renderWindowPlots (h : heap) (hourly : list loc) (windowSize start : Z)
  : option (heap * Plot * Plot) :=
  match renderWindow h hourly windowSize start with
  | Some (h', rows) =>
      let isDaily := isFullYearWindowSelected windowSize in
      Some (h', renderDispatch (deref h' <$> rows) isDaily,
                renderBattery (deref h' <$> rows) isDaily)
  | None => None
  end.

(** The y values of the trace called [name], if the plot has one. *)
Definition trace_values (plot : Plot) (name : string) : option (list float) :=
  trace_y <$> List.find (fun t => String.eqb (trace_name t) name) (traces plot).

(** What the day-total of a column reads as when it is plotted. *)
Definition plotted_total (key : string) (group : list Row) : float :=
  Js.number_or_zero (Some (column_sum key group)).

Definition plotted_soc (group : list Row) : float :=
  Js.number_or_zero (Some (closing_soc group)).

(** The columns the dispatch chart plots as they are, with the names of
    their series. *)
Definition dispatch_series : list (string * string) :=
  [ ("gen_solar_mwh", "Solar"); ("gen_diesel_mwh", "Diesel"); ("gen_ccgt_mwh", "CCGT");
    ("gen_coal_mwh", "Coal"); ("battery_discharge_mwh", "Battery Discharge");
    ("unserved_mwh", "Unserved"); ("demand_mwh", "Demand") ].

End Page.

(** ** The assumptions line: [cleanText] *)

Module Assumptions.

(** The characters that [/[^\x20-\x7E]/g] leaves in place. *)
Definition printable (c : ascii) : bool :=
  let n := nat_of_ascii c in ((32 <=? n) && (n <=? 126))%nat.

(** [.replace(/[^\x20-\x7E]/g, "")]: every byte of a character outside the
    range is outside the range. *)
Fixpoint keep_printable (s : string) : string :=
  match s with
  | EmptyString => EmptyString
  | String c rest =>
      if printable c then String c (keep_printable rest) else keep_printable rest
  end.

(** [.replace(/\s+/g, " ")]: [after_space] tells that the character just
    before belongs to the run of white space being replaced. *)
Fixpoint collapse_spaces (after_space : bool) (s : string) : string :=
  match s with
  | EmptyString => EmptyString
  | String c rest =>
      if Js.is_space c
      then (if after_space then collapse_spaces true rest
            else String " " (collapse_spaces true rest))
      else String c (collapse_spaces false rest)
  end.

(** [cleanText(value)] for a cell that holds a string, [None] standing for
    [null] or [undefined]. *)
Definition cleanText (value : option string) : string :=
  Js.trim (collapse_spaces false (keep_printable (default EmptyString value))).

(** *** Specification side *)

Fixpoint all_printable (s : string) : bool :=
  match s with
  | EmptyString => true
  | String c rest => printable c && all_printable rest
  end.

(** No white space other than single spaces between two other characters. *)
Fixpoint single_spaced (after_space : bool) (s : string) : bool :=
  match s with
  | EmptyString => true
  | String c rest =>
      if Js.is_space c then negb after_space && single_spaced true rest
      else single_spaced false rest
  end.

Definition starts_with_space (s : string) : bool :=
  match s with
  | EmptyString => false
  | String c _ => Js.is_space c
  end.

Fixpoint ends_with_space (s : string) : bool :=
  match s with
  | EmptyString => false
  | String c EmptyString => Js.is_space c
  | String _ rest => ends_with_space rest
  end.

(** A text in the form [cleanText] produces. *)
Definition tidy (s : string) : bool :=
  all_printable s && single_spaced false s &&
  negb (starts_with_space s) && negb (ends_with_space s).

End Assumptions.

(** ** The comparison charts: [renderComparison] *)

Module ComparisonView.
Import Model Comparison.












End ComparisonView.

(** ** Vocabulary for the properties of texts and of the cost chart *)

Module Text.

(** Every character of a text satisfies [P]. *)
Fixpoint string_forall (P : ascii -> bool) (s : string) : bool :=
  match s with
  | EmptyString => true
  | String c rest => P c && string_forall P rest
  end.

(** The characters of a text that satisfy [P], in order. *)
Fixpoint string_filter (P : ascii -> bool) (s : string) : string :=
  match s with
  | EmptyString => EmptyString
  | String c rest => if P c then String c (string_filter P rest) else string_filter P rest
  end.

(** The value of an upper-case hexadecimal digit. *)
Definition hex_value (c : ascii) : nat :=
  let n := nat_of_ascii c in
  if (n <? 58)%nat then n - 48 else n - 55.

End Text.

Module CostTerms.
Import Model Waterfall.


(** The key a cost row is grouped under. *)
Definition bucket_key (row : CostRow) : string := default "undefined" (bucket row).

(** The total of one bucket, accumulated in row order as the loop does:
    a running total that is zero or not a number restarts from zero. *)
Definition bucket_sum_from (start : float) (key : string) (costRows : list CostRow) : float :=
  foldl (fun total row =>
           PrimFloat.add (Js.number_or_zero (Some total)) (Js.number_or_zero (cost_usd row)))
        start (filter (fun row => bucket_key row = key) costRows).

Definition bucket_sum (key : string) (costRows : list CostRow) : float :=
  bucket_sum_from 0%float key costRows.

Definition drawn_buckets : list string := ["fixed"; "variable"; "penalty"].

End CostTerms.

(** ** Vocabulary and sample data for the further properties *)

Module Examples.
Import Model Fetch Resolver Loader.




(** A load from static files whose assumptions file is missing. *)
Definition requests_without_assumptions (scenarioId : string) (demand : float) : Requests :=
  StaticRequests true
    (ok_json (mkSummary (Some scenarioId) None {[ "total_demand_mwh" := demand ]}))
    (ok_csv [mkRow "2024-01-01T00:00:00" {[ "demand_mwh" := demand ]}])
    (ok_csv [mkCostRow None (Some "solar") (Some "capex_annualized") (Some demand)])
    (Answer (mkResponse false 404 "Not Found" (mkParsed None []))).

(** A cost table of the coarse schema, with a row of a bucket that is not
    drawn and a row without bucket. *)
Definition coarse_rows : list CostRow :=
  [ mkCostRow (Some "fixed") None None (Some 100%float);
    mkCostRow (Some "variable") None None (Some 40%float);
    mkCostRow (Some "other") None None (Some 7%float);
    mkCostRow (Some "fixed") None None (Some 20%float);
    mkCostRow None None None (Some 3%float) ].


End Examples.

(** * Properties *)

(** ** Retrievals *)

Module FetchFacts.
Import Fetch.

(** A request that is not optional delivers [null] only when the body of
    an ok response is [null]. *)
Lemma fetchJson_required {A : Type} (url : string) (o : JsonOutcome A) :
  fetchJson url false o = Fulfilled None <->
  exists resp, o = Answer resp /\ ok resp = true /\ payload resp = Fulfilled None.
Proof.
  unfold fetchJson. destruct o as [m|resp]; [split; [done|by intros (? & ? & _)]|].
  destruct (ok resp) eqn:Hok; cbn [negb andb].
  - split; [eauto|]. by intros (resp' & [= <-] & _ & ?).
  - split; [done|]. intros (resp' & [= <-] & ? & _). congruence.
Qed.

End FetchFacts.

(** ** The sub-range view *)

Module TemporalFacts.
Import Model Temporal DailySpec.

Lemma slice_lookup {A : Type} (l : list A) (start stop : Z) (i : nat) :
  (0 <= start)%Z -> (0 <= stop <= Z.of_nat (length l))%Z ->
  Js.slice l start stop !! i =
    if decide (Z.of_nat i < stop - start)%Z then l !! (Z.to_nat start + i)%nat else None.
Proof.
  intros Hs Hstop. unfold Js.slice, Js.relative_index.
  destruct (Z.ltb_spec start 0) as [|_]; [lia|].
  destruct (Z.ltb_spec stop 0) as [|_]; [lia|].
  rewrite (Z.min_l stop) by lia.
  case_decide as Hi.
  - rewrite lookup_take_lt by lia. rewrite lookup_drop.
    f_equal. lia.
  - destruct (decide (start <= Z.of_nat (length l))%Z).
    + apply lookup_take_ge. lia.
    + apply lookup_ge_None_2. rewrite length_take, length_drop. lia.
Qed.

(** C9: for a start offset and a window size that are not negative, the
    sub-range view is the contiguous slice of the hourly sequence from
    [start] to [min(length, start + window)]: its i-th row is row
    [start + i] of the sequence for every [i] below the slice length, it has
    no other row, so it never runs past the end; a 100-row sequence with
    window 10 and start 95 yields the 5 rows 95..99, and an empty input
    yields an empty output. *)
Theorem window_is_clamped_slice (A : Type) (hourly : list A) (windowSize start : Z) :
  (0 <= start)%Z -> (0 <= windowSize)%Z ->
  let stop := Z.min (Z.of_nat (length hourly)) (start + windowSize) in
  let view := getWindowedRows hourly windowSize start in
  (forall i : nat,
      view !! i = if decide (Z.of_nat i < stop - start)%Z
                  then hourly !! (Z.to_nat start + i)%nat else None) /\
  Z.of_nat (length view) = Z.max 0 (stop - start) /\
  (Z.of_nat (length view) <= windowSize)%Z /\
  (view = [] \/ (start + Z.of_nat (length view) <= Z.of_nat (length hourly))%Z) /\
  getWindowedRows (seq 0 100) 10 95 = [95; 96; 97; 98; 99]%nat /\
  getWindowedRows (@nil A) windowSize start = [].
Proof.
  intros Hs Hw stop view.
  assert (Hlook : forall i : nat,
             view !! i = if decide (Z.of_nat i < stop - start)%Z
                         then hourly !! (Z.to_nat start + i)%nat else None).
  { intros i. apply slice_lookup; subst stop; lia. }
  assert (Hlen : Z.of_nat (length view) = Z.max 0 (stop - start)).
  { destruct (decide (stop - start <= 0)%Z) as [Hle|Hgt].
    - assert (view = []) as ->; [|simpl; lia].
      destruct view as [|v view'] eqn:Hv; [done|].
      specialize (Hlook 0%nat). rewrite decide_False in Hlook by lia. done.
    - assert (Hb : forall i : nat, is_Some (view !! i) <-> (Z.of_nat i < stop - start)%Z).
      { intros i. rewrite Hlook. case_decide as Hi.
        - split; [done|]. intros _. apply lookup_lt_is_Some. subst stop. lia.
        - split; [by intros [? ?]|done]. }
      assert (length view <= Z.to_nat (stop - start))%nat.
      { destruct (decide (length view <= Z.to_nat (stop - start))%nat); [done|].
        assert (is_Some (view !! Z.to_nat (stop - start))) as Hsome
          by (apply lookup_lt_is_Some; lia).
        apply Hb in Hsome. lia. }
      assert (Z.to_nat (stop - start) <= length view)%nat.
      { destruct (decide (Z.to_nat (stop - start) <= length view)%nat); [done|].
        assert (is_Some (view !! length view)) as Hsome by (apply Hb; lia).
        apply lookup_lt_is_Some in Hsome. lia. }
      lia. }
  split; [exact Hlook|]. split; [exact Hlen|].
  split; [subst stop; lia|].
  split.
  - destruct (decide (stop - start <= 0)%Z).
    + left. apply length_zero_iff_nil. lia.
    + right. subst stop. lia.
  - split; [reflexivity|]. unfold getWindowedRows, Js.slice.
    by rewrite drop_nil, take_nil.
Qed.

Lemma window_is_clamped_slice_witness :
  getWindowedRows [1; 2; 3; 4]%nat 3 2 !! 1%nat = Some 4%nat.
Proof.
  pose proof (window_is_clamped_slice nat [1; 2; 3; 4]%nat 3 2 ltac:(lia) ltac:(lia)) as H.
  cbv zeta in H. destruct H as [H _]. rewrite (H 1%nat). reflexivity.
Defined.

(** ** The daily rollup *)

(** *** The inner loop acts on the accumulator object only *)

Lemma deref_alter_ne (f : Row -> Row) (h : heap) (a r : loc) :
  a <> r -> deref (alter f a h) r = deref h r.
Proof. intros Hne. unfold deref. by rewrite list_lookup_alter_ne. Qed.

Lemma deref_alter_eq (f : Row -> Row) (h : heap) (a : loc) :
  a < length h -> deref (alter f a h) a = f (deref h a).
Proof.
  intros Hlt. unfold deref. rewrite list_lookup_alter_eq.
  destruct (lookup_lt_is_Some_2 h a Hlt) as [o Ho]. by rewrite Ho.
Qed.

Lemma add_keys_alter (r a : loc) (keys : list string) (h : heap) :
  a <> r ->
  foldl (add_key r a) h keys = alter (absorb_keys (deref h r) keys) a h.
Proof.
  intros Hne. revert h. induction keys as [|key keys IH]; intros h; simpl.
  - symmetry. by apply list_alter_id.
  - rewrite IH.
    assert (deref (add_key r a h key) r = deref h r) as ->
      by (unfold add_key; by rewrite deref_alter_ne).
    unfold add_key. by rewrite list_alter_alter_eq.
Qed.

Lemma inner_loop_alter (r a : loc) (h : heap) :
  a <> r ->
  set_soc r a (foldl (add_key r a) h DAILY_SUM_KEYS) = alter (absorb (deref h r)) a h.
Proof.
  intros Hne. rewrite add_keys_alter by done. unfold set_soc.
  rewrite deref_alter_ne by done. by rewrite list_alter_alter_eq.
Qed.

Lemma alter_snoc (f : Row -> Row) (h : heap) (o : Row) :
  alter f (length h) (h ++ [o]) = h ++ [f o].
Proof.
  rewrite alter_app_r_alt by lia. by rewrite Nat.sub_diag.
Qed.

Lemma daily_step_same (st : LoopState) (r a : loc) :
  day st = Some (day_key (deref (store st) r)) -> acc st = Some a -> a <> r ->
  daily_step st r =
    Some (mkLoop (alter (absorb (deref (store st) r)) a (store st)) (grouped st)
                 (day st) (Some a)).
Proof.
  intros Hday Hacc Hne. unfold daily_step.
  rewrite bool_decide_eq_true_2 by done. rewrite Hacc.
  by rewrite inner_loop_alter.
Qed.

Lemma daily_step_new (st : LoopState) (r : loc) :
  day st <> Some (day_key (deref (store st) r)) -> r < length (store st) ->
  daily_step st r =
    Some (mkLoop (store st ++ [absorb (deref (store st) r)
                                      (fresh_acc (day_key (deref (store st) r)))])
                 (grouped st ++ [length (store st)])
                 (Some (day_key (deref (store st) r))) (Some (length (store st)))).
Proof.
  intros Hday Hlt. unfold daily_step.
  rewrite bool_decide_eq_false_2 by done. cbn [acc store grouped day].
  rewrite inner_loop_alter by lia.
  assert (deref (store st ++ [fresh_acc (day_key (deref (store st) r))]) r
          = deref (store st) r) as ->.
  { unfold deref. by rewrite lookup_app_l. }
  by rewrite alter_snoc.
Qed.

(** *** What the accumulator object holds *)

Lemma absorb_keys_timestamp (v : Row) (keys : list string) (o : Row) :
  timestamp (absorb_keys v keys o) = timestamp o.
Proof.
  revert o. induction keys as [|key keys IH]; intros o; [done|].
  unfold absorb_keys in *. simpl. by rewrite IH.
Qed.

Lemma absorb_keys_lookup (v : Row) (keys : list string) (o : Row) (k : string) :
  NoDup keys ->
  num (absorb_keys v keys o) !! k =
    if decide (k ∈ keys) then Some (PrimFloat.add (get_num o k) (reading k v))
    else num o !! k.
Proof.
  intros Hnd. revert o. induction Hnd as [|key keys Hnotin Hnd IH]; intros o.
  - by rewrite decide_False by apply not_elem_of_nil.
  - change (absorb_keys v (key :: keys) o)
      with (absorb_keys v keys
              (set_num o key (PrimFloat.add (get_num o key) (reading key v)))).
    rewrite IH. destruct (decide (k ∈ keys)) as [Hin|Hout].
    + rewrite decide_True by (by right).
      assert (key <> k) by congruence.
      unfold get_num, set_num; cbn [num]. by rewrite lookup_insert_ne.
    + destruct (decide (k = key)) as [->|Hne].
      * rewrite decide_True by left. unfold set_num; cbn [num].
        by rewrite lookup_insert_eq.
      * rewrite decide_False by (intros [?|?]%elem_of_cons; done).
        unfold set_num; cbn [num]. by rewrite lookup_insert_ne.
Qed.

Lemma DAILY_SUM_KEYS_NoDup : NoDup DAILY_SUM_KEYS.
Proof. apply (bool_decide_unpack _). vm_compute. exact I. Qed.

Lemma SOC_KEY_not_summed : SOC_KEY ∉ DAILY_SUM_KEYS.
Proof. apply (bool_decide_unpack _). vm_compute. exact I. Qed.

Lemma tracks_fresh (d : string) : tracks d [] (fresh_acc d).
Proof.
  split; [reflexivity|]. split; [|reflexivity].
  intros key Hk. unfold DAILY_SUM_KEYS in Hk.
  repeat (apply elem_of_cons in Hk as [-> | Hk]; [reflexivity|]).
  by apply elem_of_nil in Hk.
Qed.

Lemma tracks_absorb (d : string) (group : list Row) (o v : Row) :
  tracks d group o -> tracks d (group ++ [v]) (absorb v o).
Proof.
  intros (Hts & Hkeys & Hsoc). split; [|split].
  - unfold absorb, set_num; cbn [timestamp]. by rewrite absorb_keys_timestamp.
  - intros key Hk. unfold absorb, set_num; cbn [num].
    rewrite lookup_insert_ne
      by (intros <-; by apply SOC_KEY_not_summed).
    rewrite absorb_keys_lookup by apply DAILY_SUM_KEYS_NoDup.
    rewrite decide_True by done. unfold get_num. rewrite (Hkeys key Hk).
    unfold column_sum. by rewrite foldl_snoc.
  - unfold absorb, set_num; cbn [num]. rewrite lookup_insert_eq.
    unfold closing_soc. by rewrite last_snoc.
Qed.

Lemma tracks_summarizes (d : string) (group : list Row) (o : Row) :
  group <> [] -> Forall (fun v => day_key v = d) group ->
  tracks d group o -> summarizes group o.
Proof.
  intros Hne Hall (Hts & Hkeys & Hsoc). split; [|done].
  destruct group as [|first rest]; [done|].
  exists first. split; [done|]. apply Forall_cons in Hall as [Hfirst _]. congruence.
Qed.

(** *** The runs of a sequence *)

Lemma runs_cons_shape (x : Row) (l : list Row) :
  exists g gs, runs (x :: l) = (x :: g) :: gs.
Proof.
  simpl. destruct (runs l) as [|[|y g] gs]; [eauto..|].
  case_bool_decide; eauto.
Qed.

Lemma runs_uniform (d : string) (g : list Row) :
  g <> [] -> Forall (fun v => day_key v = d) g -> runs g = [g].
Proof.
  induction g as [|x g IH]; [done|]. intros _ Hall.
  apply Forall_cons in Hall as [Hx Hall].
  destruct g as [|y g]; [done|].
  change (runs (x :: y :: g)) with
    (match runs (y :: g) with
     | (next :: others) :: later =>
         if bool_decide (day_key x = day_key next)
         then (x :: next :: others) :: later else [x] :: (next :: others) :: later
     | _ => [[x]]
     end).
  rewrite IH by done.
  apply Forall_cons in Hall as [Hy _].
  rewrite bool_decide_eq_true_2 by congruence. done.
Qed.

Lemma runs_split (d : string) (g : list Row) (v : Row) (l : list Row) :
  g <> [] -> Forall (fun x => day_key x = d) g -> day_key v <> d ->
  runs (g ++ v :: l) = g :: runs (v :: l).
Proof.
  induction g as [|x g IH]; [done|]. intros _ Hall Hv.
  apply Forall_cons in Hall as [Hx Hall].
  destruct (runs_cons_shape v l) as (gv & gs & Hshape).
  destruct g as [|y g].
  - simpl app.
    change (runs (x :: v :: l)) with
      (match runs (v :: l) with
       | (next :: others) :: later =>
           if bool_decide (day_key x = day_key next)
           then (x :: next :: others) :: later else [x] :: (next :: others) :: later
       | _ => [[x]]
       end).
    rewrite Hshape. rewrite bool_decide_eq_false_2 by congruence. done.
  - change (runs ((x :: y :: g) ++ v :: l)) with
      (match runs ((y :: g) ++ v :: l) with
       | (next :: others) :: later =>
           if bool_decide (day_key x = day_key next)
           then (x :: next :: others) :: later else [x] :: (next :: others) :: later
       | _ => [[x]]
       end).
    rewrite IH by done.
    apply Forall_cons in Hall as [Hy _].
    rewrite bool_decide_eq_true_2 by congruence. done.
Qed.

Lemma runs_no_empty_group (l : list Row) (gs : list (list Row)) : runs l <> [] :: gs.
Proof.
  destruct l as [|x l]; [done|].
  destruct (runs_cons_shape x l) as (g & gs' & ->). done.
Qed.

Lemma runs_concat (l : list Row) : concat (runs l) = l.
Proof.
  induction l as [|x l IH]; [done|]. simpl.
  destruct (runs l) as [|[|y g] gs] eqn:Hr.
  - simpl in IH. by subst l.
  - by apply runs_no_empty_group in Hr.
  - case_bool_decide; simpl in *; by rewrite IH.
Qed.

Lemma runs_groups (l : list Row) :
  Forall (fun g => g <> [] /\ forall r1 r2, r1 ∈ g -> r2 ∈ g -> day_key r1 = day_key r2)
         (runs l).
Proof.
  induction l as [|x l IH]; [constructor|]. simpl.
  destruct (runs l) as [|[|y g] gs] eqn:Hr.
  - repeat constructor; [done|]. intros r1 r2 ->%list_elem_of_singleton
      ->%list_elem_of_singleton. done.
  - repeat constructor; [done|]. intros r1 r2 ->%list_elem_of_singleton
      ->%list_elem_of_singleton. done.
  - apply Forall_cons in IH as [[_ Hsame] IH].
    case_bool_decide as Hk.
    + constructor; [|done]. split; [done|].
      assert (Hx : forall r, r ∈ x :: y :: g -> day_key r = day_key y).
      { intros r [->|Hin]%elem_of_cons; [done|]. apply Hsame; [done|left]. }
      intros r1 r2 H1 H2. rewrite (Hx r1 H1), (Hx r2 H2). done.
    + constructor.
      * split; [done|]. intros r1 r2 ->%list_elem_of_singleton
          ->%list_elem_of_singleton. done.
      * constructor; done.
Qed.

Lemma runs_neighbours (l : list Row) : neighbours_differ (runs l).
Proof.
  induction l as [|x l IH]; [done|]. simpl.
  destruct (runs l) as [|[|y g] gs] eqn:Hr; [done..|].
  case_bool_decide as Hk.
  - destruct gs as [|g2 gs]; [done|].
    destruct IH as [Hd IH]. split; [|exact IH].
    intros r1 r2 Hl Hh. exact (Hd r1 r2 Hl Hh).
  - split; [|exact IH]. intros r1 r2 [= <-] [= <-]. done.
Qed.

(** *** The loop *)

Lemma daily_loop_spec (h0 : heap) (rows : list loc) :
  Forall (fun r => r < length h0) rows ->
  forall (st : LoopState) (finished : list (list Row)) (g : list Row)
         (d : string) (a : loc) (locs : list loc),
    (forall i, i < length h0 -> store st !! i = h0 !! i) ->
    day st = Some d -> acc st = Some a -> grouped st = locs ++ [a] ->
    a < length (store st) -> length h0 <= a -> Forall (fun l => l < a) locs ->
    g <> [] -> Forall (fun v => day_key v = d) g ->
    tracks d g (deref (store st) a) ->
    Forall2 summarizes finished (deref (store st) <$> locs) ->
    exists st',
      daily_loop st rows = Some st' /\
      (forall i, i < length h0 -> store st' !! i = h0 !! i) /\
      Forall2 summarizes (finished ++ runs (g ++ (deref h0 <$> rows)))
              (deref (store st') <$> grouped st').
Proof.
  induction 1 as [|r rows Hr Hrows IH];
    intros st finished g d a locs Hpre Hday Hacc Hgr Ha Hge Hlocs Hg Hall Htr Hfin.
  - exists st. split; [done|]. split; [done|].
    rewrite app_nil_r, (runs_uniform d) by done.
    rewrite Hgr, fmap_app. apply Forall2_app; [done|].
    constructor; [|constructor]. by apply (tracks_summarizes d).
  - assert (Hv : deref (store st) r = deref h0 r).
    { unfold deref. by rewrite Hpre. }
    set (v := deref h0 r) in *.
    assert (Hkeep : forall f l, l < a ->
               deref (alter f a (store st)) l = deref (store st) l).
    { intros f l Hl. apply deref_alter_ne. lia. }
    destruct (decide (day_key v = d)) as [Hsame|Hnew].
    + destruct (IH (mkLoop (alter (absorb v) a (store st)) (grouped st) (day st) (Some a))
                   finished (g ++ [v]) d a locs) as (st' & Hloop & Hpre' & Hout).
      * intros i Hi. cbn [store]. rewrite list_lookup_alter_ne by lia. by apply Hpre.
      * done.
      * done.
      * done.
      * cbn [store]. by rewrite length_alter.
      * done.
      * done.
      * by destruct g.
      * apply Forall_app. split; [done|]. by constructor.
      * cbn [store]. rewrite deref_alter_eq by done. by apply tracks_absorb.
      * cbn [store]. erewrite (Forall_fmap_ext_1 _ (deref (store st))); [done|].
        eapply Forall_impl; [exact Hlocs|]. intros l Hl. by apply Hkeep.
      * exists st'. split; [|split; [done|]].
        -- cbn [daily_loop]. rewrite (daily_step_same st r a).
           ++ rewrite Hv. exact Hloop.
           ++ rewrite Hv, Hday. by rewrite Hsame.
           ++ done.
           ++ lia.
        -- rewrite <- app_assoc in Hout. done.
    + set (o := absorb v (fresh_acc (day_key v))).
      destruct (IH (mkLoop (store st ++ [o]) (grouped st ++ [length (store st)])
                           (Some (day_key v)) (Some (length (store st))))
                   (finished ++ [g]) [v] (day_key v) (length (store st)) (locs ++ [a]))
        as (st' & Hloop & Hpre' & Hout).
      * intros i Hi. cbn [store]. rewrite lookup_app_l by lia. by apply Hpre.
      * done.
      * done.
      * cbn [grouped]. by rewrite Hgr.
      * cbn [store]. rewrite length_app. simpl. lia.
      * lia.
      * apply Forall_app. split; [|by repeat constructor].
        eapply Forall_impl; [exact Hlocs|]. intros l Hl. simpl in Hl. lia.
      * done.
      * by repeat constructor.
      * cbn [store]. unfold deref at 1. rewrite list_lookup_middle by done.
        cbn [default]. subst o. apply (tracks_absorb _ []). apply tracks_fresh.
      * cbn [store].
        assert (Hsame : forall l, l < length (store st) ->
                   deref (store st ++ [o]) l = deref (store st) l).
        { intros l Hl. unfold deref. by rewrite lookup_app_l. }
        rewrite fmap_app. apply Forall2_app.
        -- erewrite (Forall_fmap_ext_1 _ (deref (store st))); [done|].
           eapply Forall_impl; [exact Hlocs|]. intros l Hl. apply Hsame. simpl in Hl. lia.
        -- constructor; [|constructor]. rewrite Hsame by done.
           by apply (tracks_summarizes d).
      * exists st'. split; [|split; [done|]].
        -- cbn [daily_loop]. rewrite (daily_step_new st r).
           ++ rewrite Hv. exact Hloop.
           ++ rewrite Hv, Hday. congruence.
           ++ lia.
        -- rewrite <- app_assoc in Hout. cbn [fmap list_fmap].
           rewrite (runs_split d) by done. exact Hout.
Qed.

Lemma aggregateDaily_spec (h : heap) (rows : list loc) :
  Forall (fun r => r < length h) rows ->
  exists h' out,
    aggregateDaily h rows = Some (h', out) /\
    (forall i, i < length h -> h' !! i = h !! i) /\
    Forall2 summarizes (runs (deref h <$> rows)) (deref h' <$> out).
Proof.
  intros Hvalid. destruct rows as [|r rows].
  - exists h, []. split; [done|]. split; [done|]. constructor.
  - apply Forall_cons in Hvalid as [Hr Hrows].
    set (v := deref h r).
    set (o := absorb v (fresh_acc (day_key v))).
    destruct (daily_loop_spec h rows Hrows
                (mkLoop (h ++ [o]) [length h] (Some (day_key v)) (Some (length h)))
                [] [v] (day_key v) (length h) [])
      as (st' & Hloop & Hpre' & Hout).
    + intros i Hi. cbn [store]. by rewrite lookup_app_l.
    + done.
    + done.
    + done.
    + cbn [store]. rewrite length_app. simpl. lia.
    + lia.
    + constructor.
    + done.
    + by repeat constructor.
    + cbn [store]. unfold deref at 1. rewrite list_lookup_middle by done.
      cbn [default]. subst o. apply (tracks_absorb _ []). apply tracks_fresh.
    + constructor.
    + exists (store st'), (grouped st'). split; [|split; [done|]].
      * unfold aggregateDaily. cbn [daily_loop].
        rewrite (daily_step_new (mkLoop h [] None None) r) by done.
        cbn [store grouped app]. fold v. fold o. by rewrite Hloop.
      * exact Hout.
Qed.

Lemma summarizes_opening (groups : list (list Row)) (outs : list Row) :
  Forall2 summarizes groups outs -> timestamp <$> outs = opening_key <$> groups.
Proof.
  induction 1 as [|g o groups outs Hs _ IH]; [done|].
  cbn [fmap list_fmap]. f_equal; [|exact IH].
  destruct Hs as [(first & Hhead & ->) _]. unfold opening_key. by rewrite Hhead.
Qed.

Lemma day_changes_runs_from (l : list Row) (previous : option string) :
  day_changes previous l =
    match l with
    | [] => []
    | x :: _ =>
        if bool_decide (previous = Some (day_key x))
        then tail (opening_key <$> runs l) else opening_key <$> runs l
    end.
Proof.
  revert previous. induction l as [|x l IH]; intros previous; [done|].
  assert (Hopen : opening_key <$> runs (x :: l)
                  = day_key x :: day_changes (Some (day_key x)) l).
  { rewrite IH. destruct l as [|y l]; [done|].
    destruct (runs_cons_shape y l) as (g & gs & Hshape).
    change (runs (x :: y :: l)) with
      (match runs (y :: l) with
       | (next :: others) :: later =>
           if bool_decide (day_key x = day_key next)
           then (x :: next :: others) :: later else [x] :: (next :: others) :: later
       | _ => [[x]]
       end).
    rewrite Hshape. destruct (decide (day_key x = day_key y)) as [He|Hne].
    - rewrite !bool_decide_eq_true_2 by congruence. done.
    - rewrite !bool_decide_eq_false_2 by congruence. done. }
  rewrite Hopen. cbn [day_changes tail]. by case_bool_decide.
Qed.

Lemma day_changes_runs (l : list Row) :
  day_changes None l = opening_key <$> runs l.
Proof. rewrite day_changes_runs_from. by destruct l. Qed.

Lemma reading_of_number (key : string) (row : Row) (v : float) :
  num row !! key = Some v -> Js.is_nan v = false ->
  PrimFloat.eqb (reading key row) v = true.
Proof.
  intros Hcell Hnan. unfold reading, Js.number_or_zero, Js.num_or. rewrite Hcell.
  unfold Js.truthy. rewrite Hnan. cbn [negb andb].
  unfold Js.is_nan in Hnan. apply negb_false_iff in Hnan.
  destruct (PrimFloat.eqb v 0%float) eqn:Hzero; cbn [negb default]; [|exact Hnan].
  rewrite FloatAxioms.eqb_spec in *.
  change (Prim2SF 0%float) with (S754_zero false) in *.
  destruct (Prim2SF v) as [sign|sign| |sign m e]; cbn in *;
    try destruct sign; cbn in *; done.
Qed.

Lemma reading_of_missing (key : string) (row : Row) :
  num row !! key = None -> reading key row = 0%float.
Proof. intros Hcell. unfold reading. by rewrite Hcell. Qed.

(** *** The rollup, read from the rows *)

Lemma prefix_take (n : nat) (s : string) :
  String.substring 0 n s = string_of_list_ascii (take n (list_ascii_of_string s)).
Proof.
  revert n. induction s as [|c s IH]; intros [|n]; cbn; try done. by rewrite IH.
Qed.

Lemma day_key_calendar_day (row : Row) : day_key row = calendar_day row.
Proof. unfold day_key, Js.str_prefix, calendar_day. apply prefix_take. Qed.

Lemma reading_cell (key : string) (row : Row) : reading key row = cell key row.
Proof.
  unfold reading, Js.number_or_zero, Js.num_or, Js.truthy, Js.is_nan, cell.
  destruct (num row !! key) as [v|]; [|done]. rewrite negb_involutive.
  by destruct (PrimFloat.eqb v v && negb (PrimFloat.eqb v 0%float)).
Qed.

Lemma column_sum_flow_total (key : string) (group : list Row) :
  column_sum key group = flow_total key group.
Proof.
  unfold column_sum, flow_total. generalize 0%float.
  induction group as [|row group IH]; intros total; [done|].
  cbn [foldl flow_total_from]. by rewrite IH, reading_cell.
Qed.

Lemma closing_soc_closing_charge (group : list Row) :
  closing_soc group = closing_charge group.
Proof.
  unfold closing_soc, closing_charge. destruct (last group); [|done].
  apply reading_cell.
Qed.

Lemma runs_day_groups (rows : list Row) : runs rows = day_groups rows.
Proof.
  induction rows as [|row rows IH]; [done|]. cbn [runs day_groups]. rewrite IH.
  destruct (day_groups rows) as [|[|next others] later]; [done..|].
  rewrite !day_key_calendar_day.
  case_bool_decide as Hday.
  - by rewrite (proj2 (String.eqb_eq _ _) Hday).
  - by rewrite (proj2 (String.eqb_neq _ _) Hday).
Qed.

Lemma flow_columns_summed (key : string) : key ∈ flow_columns -> key ∈ DAILY_SUM_KEYS.
Proof.
  assert (Hall : Forall (fun k => k ∈ DAILY_SUM_KEYS) flow_columns).
  { apply (bool_decide_unpack _). vm_compute. exact I. }
  intros Hin. by apply (proj1 (Forall_forall _ _) Hall).
Qed.

Lemma summarizes_day_row (group : list Row) (out : Row) :
  summarizes group out -> day_row group out.
Proof.
  intros ((first & Hhead & Hstamp) & Hsum & Hsoc). split; [|split].
  - exists first. by rewrite <- day_key_calendar_day.
  - intros key Hkey. rewrite <- column_sum_flow_total.
    by apply Hsum, flow_columns_summed.
  - by rewrite <- closing_soc_closing_charge.
Qed.

Lemma neighbours_days_differ (groups : list (list Row)) :
  neighbours_differ groups -> days_differ groups.
Proof.
  induction groups as [|g1 [|g2 rest] IH]; [done..|].
  intros [Hfirst Hrest]. split; [|by apply IH].
  intros r1 r2 Hlast Hhead. rewrite <- !day_key_calendar_day. by apply Hfirst.
Qed.

(** C5: for every hourly input sequence the daily rollup returns; its
    output rows correspond, one to one and in order, to the maximal groups
    of consecutive input rows that share the first 10 characters of their
    timestamp; each output row carries that prefix as its timestamp, holds
    for each flow quantity (demand, solar, diesel, CCGT and coal
    generation, battery charge, battery discharge, battery net output,
    unserved energy) the sum of the column over the rows of its group
    (added up from zero in row order) and holds as state of charge that of
    the last row of the group; the groups, concatenated in order, are the
    input, so they appear in first-seen order; every group is non-empty
    and of one calendar day, and a group ends on another day than the next
    one starts on; an empty input yields an empty output.  A cell that
    holds a number contributes that number, a missing cell zero. *)
Theorem daily_rollup_sums_runs (h : heap) (rows : list loc) :
  Forall (fun r => r < length h) rows ->
  exists h' out,
    aggregateDaily h rows = Some (h', out) /\
    let input := deref h <$> rows in
    Forall2 day_row (day_groups input) (deref h' <$> out) /\
    concat (day_groups input) = input /\
    Forall (fun g => g <> [] /\
                     forall r1 r2, r1 ∈ g -> r2 ∈ g -> calendar_day r1 = calendar_day r2)
           (day_groups input) /\
    days_differ (day_groups input) /\
    aggregateDaily h [] = Some (h, []) /\
    (forall key row v, num row !! key = Some v -> Js.is_nan v = false ->
                       PrimFloat.eqb (cell key row) v = true) /\
    (forall key row, num row !! key = None -> cell key row = 0%float).
Proof.
  intros Hvalid.
  destruct (aggregateDaily_spec h rows Hvalid) as (h' & out & Hrun & _ & Hsum).
  exists h', out. split; [exact Hrun|]. cbv zeta. rewrite <- runs_day_groups.
  split; [eapply Forall2_impl; [exact Hsum|apply summarizes_day_row]|].
  split; [apply runs_concat|]. split.
  { eapply Forall_impl; [apply runs_groups|]. intros g [Hne Hsame]. split; [done|].
    intros r1 r2 H1 H2. rewrite <- !day_key_calendar_day. by apply Hsame. }
  split; [apply neighbours_days_differ, runs_neighbours|].
  split; [done|]. split.
  - intros key row v Hcell Hnan. rewrite <- reading_cell. by apply reading_of_number.
  - intros key row Hcell. rewrite <- reading_cell. by apply reading_of_missing.
Qed.

Lemma daily_rollup_sums_runs_witness :
  exists h' out,
    aggregateDaily busy_days [0; 1; 2] = Some (h', out) /\
    deref h' <$> out = busy_days_rollup /\
    Forall2 day_row [[deref busy_days 0; deref busy_days 1]; [deref busy_days 2]]
            (deref h' <$> out).
Proof.
  destruct (daily_rollup_sums_runs busy_days [0; 1; 2]) as (h' & out & Hrun & Hrows & _).
  { repeat constructor. }
  exists h', out. split; [exact Hrun|]. split; [|exact Hrows].
  vm_compute in Hrun. injection Hrun as <- <-. vm_compute. reflexivity.
Defined.

(** C10: the daily rollup opens a new output row exactly at the rows whose
    10-character day prefix differs from that of the row just before them
    (the first row has none before it): the timestamps of the output are
    the prefixes of those rows, in order, and the output has as many rows
    as the input has maximal runs of equal prefix; a day whose rows are
    not consecutive therefore appears once per run, as for the prefixes
    01, 02, 01 which yield three rows; and the call leaves every object
    that existed before it unchanged, so the input rows read the same
    afterwards. *)
Theorem daily_rollup_opens_row_on_change (h : heap) (rows : list loc) :
  Forall (fun r => r < length h) rows ->
  exists h' out,
    aggregateDaily h rows = Some (h', out) /\
    timestamp <$> (deref h' <$> out) = day_changes None (deref h <$> rows) /\
    length out = length (runs (deref h <$> rows)) /\
    (forall i, i < length h -> h' !! i = h !! i) /\
    deref h' <$> rows = deref h <$> rows /\
    (exists h2 out2,
        aggregateDaily day_comes_back [0; 1; 2] = Some (h2, out2) /\
        timestamp <$> (deref h2 <$> out2) = ["2024-01-01"; "2024-01-02"; "2024-01-01"] /\
        take 3 h2 = day_comes_back).
Proof.
  intros Hvalid.
  destruct (aggregateDaily_spec h rows Hvalid) as (h' & out & Hrun & Hkeep & Hsum).
  exists h', out. split; [exact Hrun|].
  split; [rewrite day_changes_runs; by apply summarizes_opening|].
  split.
  { apply Forall2_length in Hsum. rewrite length_fmap in Hsum. done. }
  split; [exact Hkeep|]. split.
  { apply Forall_fmap_ext_1. eapply Forall_impl; [exact Hvalid|].
    intros r Hr. unfold deref. by rewrite Hkeep. }
  eexists _, _. split; [vm_compute; reflexivity|]. split; vm_compute; reflexivity.
Qed.

Lemma daily_rollup_opens_row_on_change_witness :
  exists h' out,
    aggregateDaily two_days [0; 1; 2] = Some (h', out) /\
    timestamp <$> (deref h' <$> out) = ["2024-01-01"; "2024-01-02"] /\
    take 3 h' = two_days.
Proof.
  destruct (daily_rollup_opens_row_on_change two_days [0; 1; 2])
    as (h' & out & Hrun & Hts & _ & Hkeep & _).
  { repeat constructor. }
  exists h', out. split; [exact Hrun|]. split; [exact Hts|].
  vm_compute in Hrun. injection Hrun as <- <-. vm_compute. reflexivity.
Defined.

End TemporalFacts.

(** ** The source resolver *)

Module ResolverFacts.
Import Model Fetch Resolver.

(** *** Deduplication *)

Lemma filter_id_first_by_id (Q : string -> Prop) (P : Descriptor -> Prop)
    `{!forall x, Decision (P x)} (l : list Descriptor) :
  (forall x, P x <-> Q (id x)) ->
  filter P (first_by_id l) = first_by_id (filter P l).
Proof.
  intros HPQ. induction l as [|x l IH]; [done|]. cbn [first_by_id].
  destruct (decide (P x)) as [Hp|Hp].
  - rewrite !filter_cons_True by done. cbn [first_by_id]. f_equal.
    rewrite <- IH. rewrite !list_filter_filter.
    apply list_filter_iff. intros y. tauto.
  - rewrite !filter_cons_False by done. rewrite <- IH.
    apply list_filter_filter_l. intros y Hy Heq. apply Hp.
    apply HPQ. rewrite <- Heq. by apply HPQ.
Qed.

Lemma dedupe_loop_first_by_id (rows : list Descriptor) :
  forall (seen : gset string) (deduped : list Descriptor),
    dedupe_loop rows seen deduped
    = deduped ++ first_by_id
        (filter (fun row => Js.nonempty (id row) = true /\ id row ∉ seen) rows).
Proof.
  induction rows as [|row rest IH]; intros seen deduped.
  - by rewrite app_nil_r.
  - cbn [dedupe_loop].
    destruct (Js.nonempty (id row)) eqn:Hne; cbn [negb orb].
    + case_bool_decide as Hseen.
      * rewrite filter_cons_False by (intros [_ ?]; done). apply IH.
      * rewrite filter_cons_True by done. cbn [first_by_id].
        rewrite IH, <- app_assoc. cbn [app]. do 2 f_equal.
        rewrite (filter_id_first_by_id (fun i => i <> id row)) by done.
        f_equal. rewrite list_filter_filter. apply list_filter_iff.
        intros y. rewrite not_elem_of_union, elem_of_singleton. tauto.
    + rewrite filter_cons_False by (intros [? _]; congruence). apply IH.
Qed.

Lemma nonempty_iff (i : string) : Js.nonempty i = true <-> i <> "".
Proof. destruct i; naive_solver. Qed.

Lemma dedupe_first_by_id (rows : list Descriptor) :
  Forall (fun row => id row <> "") rows -> dedupe rows = first_by_id rows.
Proof.
  intros Hall. unfold dedupe. rewrite dedupe_loop_first_by_id. cbn [app].
  f_equal. induction Hall as [|row rows Hrow _ IH]; [done|].
  rewrite filter_cons_True; [by rewrite IH|].
  split; [by apply nonempty_iff|apply not_elem_of_empty].
Qed.

Lemma filter_ids_NoDup (P : Descriptor -> Prop) `{!forall x, Decision (P x)}
    (l : list Descriptor) :
  NoDup (id <$> l) -> NoDup (id <$> filter P l).
Proof.
  induction l as [|x l IH]; [done|]. cbn [fmap list_fmap].
  intros [Hnotin Hnd]%NoDup_cons. rewrite filter_cons.
  case_decide; [|by apply IH]. cbn [fmap list_fmap]. apply NoDup_cons.
  split; [|by apply IH].
  intros (y & Hy & [_ Hin]%list_elem_of_filter)%list_elem_of_fmap.
  apply Hnotin. apply list_elem_of_fmap. eauto.
Qed.

Lemma first_by_id_NoDup (l : list Descriptor) : NoDup (id <$> first_by_id l).
Proof.
  induction l as [|x l IH]; [constructor|]. cbn [first_by_id fmap list_fmap].
  apply NoDup_cons. split; [|by apply filter_ids_NoDup].
  intros (y & Hy & [Hne _]%list_elem_of_filter)%list_elem_of_fmap. congruence.
Qed.

Lemma first_by_id_ids (l : list Descriptor) (i : string) :
  i ∈ (id <$> l) <-> i ∈ (id <$> first_by_id l).
Proof.
  induction l as [|x l IH]; [done|]. cbn [first_by_id fmap list_fmap].
  rewrite !elem_of_cons, IH. split.
  - intros [->|Hin]; [by left|].
    destruct (decide (i = id x)) as [->|Hne]; [by left|]. right.
    apply list_elem_of_fmap in Hin as (y & -> & Hin).
    apply list_elem_of_fmap. exists y. split; [done|].
    apply list_elem_of_filter. done.
  - intros [->|Hin]; [by left|]. right.
    apply list_elem_of_fmap in Hin as (y & -> & [_ Hin]%list_elem_of_filter).
    apply list_elem_of_fmap. eauto.
Qed.

Lemma first_by_id_sublist (l : list Descriptor) : first_by_id l `sublist_of` l.
Proof.
  induction l as [|x l IH]; [done|]. cbn [first_by_id].
  apply sublist_skip. etrans; [apply sublist_filter|exact IH].
Qed.

Lemma first_by_id_is_first (l : list Descriptor) (row : Descriptor) :
  row ∈ first_by_id l ->
  exists n, l !! n = Some row /\
            forall m earlier, m < n -> l !! m = Some earlier -> id earlier <> id row.
Proof.
  induction l as [|x l IH]; [by intros ?%elem_of_nil|]. cbn [first_by_id].
  intros [->|[Hne Hin]%list_elem_of_filter]%elem_of_cons.
  - exists 0. split; [done|]. intros m earlier Hm. lia.
  - destruct (IH Hin) as (n & Hn & Hfirst). exists (S n). split; [done|].
    intros [|m] earlier Hm Hearlier.
    + injection Hearlier as <-. congruence.
    + apply (Hfirst m); [lia|done].
Qed.

Lemma push_index_entry_nonempty (rows : list Descriptor) (e : IndexEntry) :
  Forall (fun row => id row <> "") rows ->
  Forall (fun row => id row <> "") (push_index_entry rows e).
Proof.
  intros Hall. unfold push_index_entry.
  destruct (Js.nonempty _) eqn:Hne; cbn [negb]; [|done].
  apply Forall_app. split; [done|]. constructor; [|constructor].
  by apply nonempty_iff.
Qed.

Lemma collected_ids_nonempty (baseSummary : option Summary) (indexPayload : option IndexDoc) :
  Forall (fun row => id row <> "") (push_index_rows (base_rows baseSummary) indexPayload).
Proof.
  assert (Hbase : Forall (fun row => id row <> "") (base_rows baseSummary)).
  { destruct baseSummary; repeat constructor. done. }
  unfold push_index_rows. destruct indexPayload as [[[entries|]]|]; [|done..].
  revert Hbase. generalize (base_rows baseSummary).
  induction entries as [|e entries IH]; intros rows Hrows; [done|].
  cbn [foldl]. apply IH. by apply push_index_entry_nonempty.
Qed.

(** C8: for every sequence of scenario descriptors (ids are non-empty, as
    the data model has them and as every row the resolver collects has
    them), duplicates included, the deduplication step returns a list in
    which no id occurs twice, in which every id of the input occurs, which
    keeps the input's order, and whose every row is the first row of the
    input that carries its id; it is the list obtained by keeping each row
    and dropping the later rows with the same id. *)
Theorem dedupe_keeps_first_occurrences (rows : list Descriptor) :
  Forall (fun row => id row <> "") rows ->
  NoDup (id <$> dedupe rows) /\
  (forall i, i ∈ (id <$> rows) <-> i ∈ (id <$> dedupe rows)) /\
  dedupe rows `sublist_of` rows /\
  (forall row, row ∈ dedupe rows ->
     exists n, rows !! n = Some row /\
               forall m earlier, m < n -> rows !! m = Some earlier -> id earlier <> id row) /\
  dedupe rows = first_by_id rows /\
  (forall baseSummary indexPayload,
     Forall (fun row => id row <> "")
            (push_index_rows (base_rows baseSummary) indexPayload)).
Proof.
  intros Hall. rewrite (dedupe_first_by_id rows Hall).
  split; [apply first_by_id_NoDup|]. split; [apply first_by_id_ids|].
  split; [apply first_by_id_sublist|]. split; [apply first_by_id_is_first|].
  split; [done|]. apply collected_ids_nonempty.
Qed.

Lemma dedupe_keeps_first_occurrences_witness :
  id <$> dedupe repeated_rows = ["base"; "nf70"; "nf90"] /\
  label <$> dedupe repeated_rows = ["Base case"; "70%"; "90%"] /\
  NoDup (id <$> dedupe repeated_rows).
Proof.
  assert (Hids : Forall (fun row => id row <> "") repeated_rows)
    by (repeat constructor; done).
  destruct (dedupe_keeps_first_occurrences repeated_rows Hids) as (Hnd & _).
  split; [vm_compute; reflexivity|]. split; [vm_compute; reflexivity|exact Hnd].
Defined.

(** *** Fallback to the API *)









End ResolverFacts.

(** ** The scenario data loader *)

Module LoaderFacts.
Import Model Fetch Loader FetchFacts.

(** *** Promises *)

Lemma reason_None {A : Type} (s : Settled A) : reason s = None <-> exists a, s = Fulfilled a.
Proof. destruct s as [a|m]; cbn; split; [eauto|done|done|by intros [? ?]]. Qed.

Lemma fulfilled_no_rejection (scenarioId : string) (rq : Requests) (p : Payloads) :
  fulfilled_payloads scenarioId rq = Some p ->
  forall slot, rejection scenarioId rq slot = None.
Proof.
  unfold fulfilled_payloads, rejection. intros Hp slot.
  destruct rq as [s h c a|papa s h c a];
    repeat match type of Hp with
           | context [match ?x with Fulfilled _ => _ | Rejected _ => _ end] =>
               destruct x; try discriminate
           end;
    by destruct slot.
Qed.

Lemma no_rejection_fulfilled (scenarioId : string) (rq : Requests) :
  (forall slot, rejection scenarioId rq slot = None) ->
  exists p, fulfilled_payloads scenarioId rq = Some p.
Proof.
  intros Hall.
  pose proof (Hall SummarySlot) as Hs. pose proof (Hall HourlySlot) as Hh.
  pose proof (Hall CostSlot) as Hc. pose proof (Hall AssumptionsSlot) as Ha.
  unfold fulfilled_payloads, rejection in *.
  destruct rq as [s h c a|papa s h c a];
    apply reason_None in Hs as [? ->]; apply reason_None in Hh as [? ->];
    apply reason_None in Hc as [? ->]; apply reason_None in Ha as [? ->]; eauto.
Qed.

(** The assignments after the [await] overwrite every field and do not
    throw when no document is [null]; they throw when one is. *)
Lemma assign_complete (scenarioId : string) (p : Payloads) (d : Dashboard) :
  no_null_document p = true ->
  assign scenarioId p d = (published scenarioId p, None).
Proof.
  unfold published.
  destruct p as [[sp|] [hp|] [cp|] [ap|]|[sp|] hourlyRows costs assumptions]; done.
Qed.

Lemma assign_throws (scenarioId : string) (p : Payloads) (d : Dashboard) :
  no_null_document p = false ->
  exists property,
    property ∈ ["scenario_id"; "rows"] /\
    snd (assign scenarioId p d) = Some (null_access property).
Proof.
  destruct p as [[sp|] [hp|] [cp|] [ap|]|[sp|] hourlyRows costs assumptions];
    try done; intros _;
    first [ by exists "scenario_id"; split; [set_solver|]
          | by exists "rows"; split; [set_solver|] ].
Qed.

Lemma all_arrived_spec (got : list Slot) : all_arrived got = true <-> forall s, s ∈ got.
Proof.
  unfold all_arrived, all_slots. cbn [forallb].
  rewrite !andb_true_iff, !bool_decide_eq_true. split.
  - intros (? & ? & ? & ? & _) []; done.
  - intros Hall. repeat split; apply Hall.
Qed.

(** *** One settlement *)

Lemma settle_loads (w : World) (k : nat) (ld : Load) (slot : Slot) :
  exists ph,
    loads (settle w k ld slot)
    = <[k := mkLoad (target ld) (requests ld) (slot :: arrived ld) ph]> (loads w).
Proof.
  unfold settle. destruct (phase ld); [|eauto..].
  destruct (rejection _ _ slot); [eauto|].
  destruct (all_arrived _); [|eauto].
  destruct (fulfilled_payloads _ _); [|eauto].
  destruct (assign _ _ _) as [d [m|]]; eauto.
Qed.

Lemma settle_ok (w : World) (k : nat) (ld : Load) (slot : Slot) :
  world_ok w -> loads w !! k = Some ld -> world_ok (settle w k ld slot).
Proof.
  intros Hw Hk. unfold world_ok in *.
  assert (Hld : load_ok ld) by (eapply Forall_lookup_1; eauto).
  unfold load_ok in Hld. unfold settle.
  destruct (phase ld) as [|m|] eqn:Hph.
  - destruct Hld as [Hnone Hnot].
    destruct (rejection (target ld) (requests ld) slot) as [m|] eqn:Hrej; cbn [loads].
    + apply Forall_insert; [done|]. unfold load_ok; cbn.
      left. exists slot. split; [left|done].
    + destruct (all_arrived (slot :: arrived ld)) eqn:Hall; cbn [loads].
      * assert (Hevery : forall s, rejection (target ld) (requests ld) s = None).
        { intros s. pose proof (proj1 (all_arrived_spec _) Hall s) as Hs.
          apply elem_of_cons in Hs as [->|Hin]; [done|]. by apply Hnone. }
        destruct (no_rejection_fulfilled _ _ Hevery) as [p Hp]. rewrite Hp.
        destruct (no_null_document p) eqn:Hdocs.
        -- rewrite (assign_complete _ _ _ Hdocs). cbn [loads].
           apply Forall_insert; [done|]. unfold load_ok; cbn. eauto.
        -- destruct (assign_throws (target ld) p (dashboard w) Hdocs)
             as (property & _ & Hthrown).
           destruct (assign (target ld) p (dashboard w)) as [d' thrown].
           cbn [snd] in Hthrown. subst thrown. cbn [loads].
           apply Forall_insert; [done|]. unfold load_ok; cbn. right. eauto.
      * apply Forall_insert; [done|]. unfold load_ok; cbn. split; [|done].
        intros s [->|Hin]%elem_of_cons; [done|]. by apply Hnone.
  - cbn [loads]. apply Forall_insert; [done|]. unfold load_ok; cbn.
    destruct Hld as [(s & Hin & Hrej)|[Hall Hevery]].
    + left. exists s. split; [by right|done].
    + right. split; [|done].
      apply all_arrived_spec. intros s. right. by apply all_arrived_spec.
  - cbn [loads]. apply Forall_insert; [done|]. unfold load_ok; cbn.
    destruct Hld as [Hall Hevery]. split; [|done].
    apply all_arrived_spec. intros s. right. by apply all_arrived_spec.
Qed.

(** A call all of whose promises have arrived fulfilled, none with a
    [null] document, has completed. *)
Lemma arrived_load_completed (ld : Load) (p : Payloads) :
  load_ok ld -> (forall s, s ∈ arrived ld) ->
  fulfilled_payloads (target ld) (requests ld) = Some p -> no_null_document p = true ->
  phase ld = Completed.
Proof.
  unfold load_ok. intros Hld Hall Hp Hdocs.
  destruct (phase ld) as [|m|]; [| |done].
  - destruct Hld as [_ Hnot]. apply all_arrived_spec in Hall. congruence.
  - destruct Hld as [(s & _ & Hrej)|(_ & p' & Hp' & Hdocs')].
    + by rewrite (fulfilled_no_rejection _ _ _ Hp) in Hrej.
    + congruence.
Qed.

Lemma step_ok (w : World) (e : Event) : world_ok w -> world_ok (step w e).
Proof.
  intros Hw. destruct e as [scenarioId rq|k slot]; cbn [step].
  - unfold world_ok in *. cbn [loads]. apply Forall_app. split; [done|].
    constructor; [|constructor]. unfold load_ok; cbn. split; [|done].
    by intros s ?%elem_of_nil.
  - destruct (loads w !! k) as [ld|] eqn:Hk; [|done].
    case_bool_decide; [done|]. by apply settle_ok.
Qed.

Lemma run_ok (events : list Event) (w : World) : world_ok w -> world_ok (run w events).
Proof.
  revert w. induction events as [|e events IH]; intros w Hw; [done|].
  apply IH. by apply step_ok.
Qed.

Lemma blank_ok (d : Dashboard) (shown : option string) : world_ok (mkWorld d [] shown).
Proof. constructor. Qed.

(** What a step does to the record of one call. *)
Lemma step_load_at (w : World) (e : Event) (k : nat) (ld : Load) :
  loads w !! k = Some ld ->
  exists ld',
    loads (step w e) !! k = Some ld' /\
    target ld' = target ld /\ requests ld' = requests ld /\
    (forall s, s ∈ arrived ld' <-> s ∈ arrived ld \/ e = Settle k s).
Proof.
  intros Hk. destruct e as [scenarioId rq|k0 slot]; cbn [step].
  - exists ld. cbn [loads]. split; [by apply lookup_app_l_Some|].
    split; [done|]. split; [done|]. intros s. split; [by left|by intros [?|?]].
  - destruct (loads w !! k0) as [ld0|] eqn:Hk0.
    + case_bool_decide as Hin.
      * exists ld. split; [done|]. split; [done|]. split; [done|].
        intros s. split; [by left|]. intros [?|[= -> ->]]; [done|].
        rewrite Hk in Hk0. by injection Hk0 as ->.
      * destruct (settle_loads w k0 ld0 slot) as [ph ->].
        destruct (decide (k0 = k)) as [->|Hne].
        -- rewrite Hk in Hk0. injection Hk0 as <-.
           eexists. split; [apply list_lookup_insert_eq; by eapply lookup_lt_Some|].
           cbn. split; [done|]. split; [done|].
           intros s. rewrite elem_of_cons. split.
           ++ intros [->|?]; [by right|by left].
           ++ intros [?|[= ->]]; [by right|by left].
        -- exists ld. rewrite list_lookup_insert_ne by done.
           split; [done|]. split; [done|]. split; [done|].
           intros s. split; [by left|]. intros [?|[= ? ?]]; done.
    + exists ld. split; [done|]. split; [done|]. split; [done|].
      intros s. split; [by left|]. intros [?|[= -> ->]]; [done|]. congruence.
Qed.

Lemma run_load_at (events : list Event) (w : World) (k : nat) (ld : Load) :
  loads w !! k = Some ld ->
  exists ld',
    loads (run w events) !! k = Some ld' /\
    target ld' = target ld /\ requests ld' = requests ld /\
    (forall s, s ∈ arrived ld' <-> s ∈ arrived ld \/ Settle k s ∈ events).
Proof.
  revert w ld. induction events as [|e events IH]; intros w ld Hk.
  - exists ld. split; [done|]. split; [done|]. split; [done|].
    intros s. split; [by left|]. by intros [?|?%elem_of_nil].
  - destruct (step_load_at w e k ld Hk) as (ld1 & Hk1 & Ht1 & Hr1 & Ha1).
    destruct (IH (step w e) ld1 Hk1) as (ld' & Hk' & Ht' & Hr' & Ha').
    exists ld'. split; [done|]. split; [congruence|]. split; [congruence|].
    intros s. rewrite Ha', Ha1, elem_of_cons. intuition congruence.
Qed.

Lemma settles_keep_length (events : list Event) (w : World) :
  Forall (fun e => is_initiate e = false) events ->
  length (loads (run w events)) = length (loads w).
Proof.
  revert w. induction events as [|e events IH]; intros w Hall; [done|].
  apply Forall_cons in Hall as [He Hall]. cbn [run foldl].
  change (foldl step (step w e) events) with (run (step w e) events).
  rewrite IH by done. destruct e as [|k slot]; [done|]. cbn [step].
  destruct (loads w !! k) as [ld|]; [|done]. case_bool_decide; [done|].
  destruct (settle_loads w k ld slot) as [ph ->]. by rewrite length_insert.
Qed.

(** The call whose last promise fulfils publishes. *)
Lemma final_settle_publishes (w : World) (k : nat) (ld : Load) (slot : Slot) (p : Payloads) :
  world_ok w -> loads w !! k = Some ld -> slot ∉ arrived ld ->
  (forall s, s <> slot -> s ∈ arrived ld) ->
  fulfilled_payloads (target ld) (requests ld) = Some p ->
  no_null_document p = true ->
  dashboard (step w (Settle k slot)) = published (target ld) p /\
  loads (step w (Settle k slot))
  = <[k := mkLoad (target ld) (requests ld) (slot :: arrived ld) Completed]> (loads w).
Proof.
  intros Hw Hk Hnot Hrest Hp Hdocs. cbn [step]. rewrite Hk.
  rewrite bool_decide_eq_false_2 by done.
  assert (Hld : load_ok ld) by (eapply Forall_lookup_1; eauto).
  pose proof (fulfilled_no_rejection _ _ _ Hp) as Hnone.
  unfold load_ok in Hld. unfold settle.
  destruct (phase ld) as [|m|].
  - rewrite Hnone.
    assert (all_arrived (slot :: arrived ld) = true) as ->.
    { apply all_arrived_spec. intros s.
      destruct (decide (s = slot)) as [->|Hne]; [left|right; by apply Hrest]. }
    by rewrite Hp, (assign_complete _ _ _ Hdocs).
  - destruct Hld as [(s & _ & Hrej)|[Hall _]]; [by rewrite Hnone in Hrej|].
    destruct Hnot. by apply (proj1 (all_arrived_spec _) Hall).
  - destruct Hld as [Hall _]. destruct Hnot. by apply (proj1 (all_arrived_spec _) Hall).
Qed.

(** The current data change only when the fourth of four fulfilled
    promises of a call arrives, by the assignments that follow the
    [await]; every field is replaced when no document is [null]. *)
Lemma dashboard_changes_only_on_completion (w : World) (e : Event) :
  dashboard (step w e) <> dashboard w ->
  exists k slot ld p,
    e = Settle k slot /\ loads w !! k = Some ld /\ (slot ∉ arrived ld) /\
    phase ld = Waiting /\
    fulfilled_payloads (target ld) (requests ld) = Some p /\
    (forall s, s ∈ (slot :: arrived ld)) /\
    (forall s, rejection (target ld) (requests ld) s = None) /\
    dashboard (step w e) = fst (assign (target ld) p (dashboard w)) /\
    (no_null_document p = true -> dashboard (step w e) = published (target ld) p).
Proof.
  destruct e as [scenarioId rq|k slot]; cbn [step]; [done|].
  destruct (loads w !! k) as [ld|] eqn:Hk; [|done].
  case_bool_decide as Hin; [done|]. unfold settle.
  destruct (phase ld) eqn:Hph; [|done..].
  destruct (rejection (target ld) (requests ld) slot) eqn:Hrej; [done|].
  destruct (all_arrived (slot :: arrived ld)) eqn:Hall; [|done].
  destruct (fulfilled_payloads (target ld) (requests ld)) as [p|] eqn:Hp; [|done].
  intros _.
  exists k, slot, ld, p. split; [done|]. split; [done|]. split; [done|].
  split; [done|]. split; [done|]. split; [by apply all_arrived_spec|].
  split; [by eapply fulfilled_no_rejection|].
  split; [by destruct (assign _ _ _) as [d' [thrown|]]|].
  intros Hdocs. by rewrite (assign_complete _ _ _ Hdocs).
Qed.

Lemma failed_stays (w : World) (e : Event) (k : nat) (ld : Load) (m : string) :
  loads w !! k = Some ld -> phase ld = Failed m ->
  exists ld', loads (step w e) !! k = Some ld' /\ phase ld' = Failed m.
Proof.
  intros Hk Hph. destruct e as [scenarioId rq|k0 slot]; cbn [step].
  - exists ld. split; [by apply lookup_app_l_Some|done].
  - destruct (loads w !! k0) as [ld0|] eqn:Hk0; [|eauto].
    case_bool_decide; [eauto|].
    destruct (decide (k0 = k)) as [->|Hne].
    + rewrite Hk in Hk0. injection Hk0 as <-. unfold settle. rewrite Hph. cbn [loads].
      eexists. split; [apply list_lookup_insert_eq; by eapply lookup_lt_Some|done].
    + destruct (settle_loads w k0 ld0 slot) as [ph ->].
      exists ld. by rewrite list_lookup_insert_ne.
Qed.

Lemma failed_forever (events : list Event) (w : World) (k : nat) (ld : Load) (m : string) :
  loads w !! k = Some ld -> phase ld = Failed m ->
  exists ld', loads (run w events) !! k = Some ld' /\ phase ld' = Failed m.
Proof.
  revert w ld. induction events as [|e events IH]; intros w ld Hk Hph; [eauto|].
  destruct (failed_stays w e k ld m Hk Hph) as (ld1 & Hk1 & Hph1).
  exact (IH (step w e) ld1 Hk1 Hph1).
Qed.

(** *** One call on its own *)

Lemma lone_failed_keeps (order : list Slot) :
  forall (w : World) (ld : Load) (m : string),
    loads w = [ld] -> phase ld = Failed m ->
    dashboard (run w (Settle 0 <$> order)) = dashboard w /\
    exists ld', loads (run w (Settle 0 <$> order)) = [ld'] /\ phase ld' = Failed m.
Proof.
  induction order as [|s order IH]; intros w ld m Hloads Hph; [eauto|].
  cbn [fmap list_fmap run foldl].
  change (foldl step (step w (Settle 0 s)) (Settle 0 <$> order))
    with (run (step w (Settle 0 s)) (Settle 0 <$> order)).
  cbn [step]. rewrite Hloads. cbn [lookup list_lookup].
  case_bool_decide.
  - by apply (IH w ld m).
  - unfold settle. rewrite Hph, Hloads.
    destruct (IH (mkWorld (dashboard w)
                    (<[0 := mkLoad (target ld) (requests ld) (s :: arrived ld) (Failed m)]> [ld])
                    (shown_error w))
                 (mkLoad (target ld) (requests ld) (s :: arrived ld) (Failed m)) m)
      as (Hd & ld' & Hl & Hp); [done..|].
    split; [exact Hd|]. eauto.
Qed.

Lemma lone_call_fails (order : list Slot) :
  forall (w : World) (ld : Load) (m : string),
    loads w = [ld] -> phase ld = Waiting -> NoDup order ->
    (forall s, s ∈ order -> s ∉ arrived ld) ->
    first_rejection (target ld) (requests ld) order = Some m ->
    dashboard (run w (Settle 0 <$> order)) = dashboard w /\
    exists ld', loads (run w (Settle 0 <$> order)) = [ld'] /\ phase ld' = Failed m.
Proof.
  induction order as [|s order IH]; intros w ld m Hloads Hph Hnd Hnew Hfirst; [done|].
  apply NoDup_cons in Hnd as [Hs Hnd]. cbn [first_rejection] in Hfirst.
  cbn [fmap list_fmap run foldl].
  change (foldl step (step w (Settle 0 s)) (Settle 0 <$> order))
    with (run (step w (Settle 0 s)) (Settle 0 <$> order)).
  cbn [step]. rewrite Hloads. cbn [lookup list_lookup].
  rewrite bool_decide_eq_false_2 by (apply Hnew; left).
  unfold settle. rewrite Hph, Hloads.
  destruct (rejection (target ld) (requests ld) s) as [m0|] eqn:Hrej.
  - injection Hfirst as ->.
    destruct (lone_failed_keeps order
                (mkWorld (dashboard w)
                   (<[0 := mkLoad (target ld) (requests ld) (s :: arrived ld) (Failed m)]> [ld])
                   (Some m))
                (mkLoad (target ld) (requests ld) (s :: arrived ld) (Failed m)) m)
      as (Hd & ld' & Hl & Hp); [done..|].
    split; [exact Hd|]. eauto.
  - assert (all_arrived (s :: arrived ld) = false) as ->.
    { destruct order as [|s' order]; [done|].
      apply not_true_is_false. intros Hall.
      pose proof (proj1 (all_arrived_spec _) Hall s') as Hin.
      apply elem_of_cons in Hin as [->|Hin].
      - apply Hs. left.
      - apply (Hnew s'); [right; left|done]. }
    destruct (IH (mkWorld (dashboard w)
                    (<[0 := mkLoad (target ld) (requests ld) (s :: arrived ld) Waiting]> [ld])
                    (shown_error w))
                 (mkLoad (target ld) (requests ld) (s :: arrived ld) Waiting) m)
      as (Hd & ld' & Hl & Hp); [done|done|done| |done|].
    + cbn [arrived]. intros s' Hin [->|Hin']%elem_of_cons; [done|].
      apply (Hnew s'); [by right|done].
    + split; [exact Hd|]. eauto.
Qed.

Lemma loadScenarioData_fails (scenarioId : string) (rq : Requests) (order : list Slot)
    (d : Dashboard) (m : string) :
  NoDup order -> first_rejection scenarioId rq order = Some m ->
  loadScenarioData scenarioId rq order d = (d, Some (Failed m)).
Proof.
  intros Hnd Hfirst. unfold loadScenarioData. cbv zeta.
  assert (Hrun : run (mkWorld d [] None) (Initiate scenarioId rq :: (Settle 0 <$> order))
                 = run (mkWorld d [mkLoad scenarioId rq [] Waiting] None)
                       (Settle 0 <$> order)) by reflexivity.
  rewrite Hrun.
  destruct (lone_call_fails order
              (mkWorld d [mkLoad scenarioId rq [] Waiting] None)
              (mkLoad scenarioId rq [] Waiting) m)
    as (Hd & ld' & Hl & Hp); [done|done|done| |done|].
  - intros s _ ?%elem_of_nil. done.
  - rewrite Hd, Hl. cbn. by rewrite Hp.
Qed.

Lemma lone_call_resumes (order : list Slot) :
  forall (w : World) (ld : Load) (p : Payloads),
    loads w = [ld] -> phase ld = Waiting -> NoDup order -> order <> [] ->
    (forall s, s ∈ order -> s ∉ arrived ld) ->
    (forall s, s ∈ order \/ s ∈ arrived ld) ->
    fulfilled_payloads (target ld) (requests ld) = Some p ->
    dashboard (run w (Settle 0 <$> order)) = fst (assign (target ld) p (dashboard w)) /\
    exists ld', loads (run w (Settle 0 <$> order)) = [ld'] /\
                phase ld' = resumed (snd (assign (target ld) p (dashboard w))).
Proof.
  induction order as [|s order IH];
    intros w ld p Hloads Hph Hnd Hne Hnew Hcover Hp; [done|].
  apply NoDup_cons in Hnd as [Hs Hnd].
  cbn [fmap list_fmap run foldl].
  change (foldl step (step w (Settle 0 s)) (Settle 0 <$> order))
    with (run (step w (Settle 0 s)) (Settle 0 <$> order)).
  cbn [step]. rewrite Hloads. cbn [lookup list_lookup].
  rewrite bool_decide_eq_false_2 by (apply Hnew; left).
  unfold settle. rewrite Hph, Hloads, (fulfilled_no_rejection _ _ _ Hp).
  destruct order as [|s' order].
  - assert (all_arrived (s :: arrived ld) = true) as ->.
    { apply all_arrived_spec. intros x.
      destruct (Hcover x) as [->%list_elem_of_singleton|?]; [left|by right]. }
    rewrite Hp. destruct (assign (target ld) p (dashboard w)) as [d' [thrown|]]; cbn; eauto.
  - assert (all_arrived (s :: arrived ld) = false) as ->.
    { apply not_true_is_false. intros Hall.
      pose proof (proj1 (all_arrived_spec _) Hall s') as Hin.
      apply elem_of_cons in Hin as [->|Hin].
      - apply Hs. left.
      - apply (Hnew s'); [right; left|done]. }
    destruct (IH (mkWorld (dashboard w)
                    (<[0 := mkLoad (target ld) (requests ld) (s :: arrived ld) Waiting]> [ld])
                    (shown_error w))
                 (mkLoad (target ld) (requests ld) (s :: arrived ld) Waiting) p)
      as (Hd & ld' & Hl & Hph'); [done|done|done|done| | |done|].
    + cbn [arrived]. intros x Hin [->|Hin']%elem_of_cons; [done|].
      apply (Hnew x); [by right|done].
    + cbn [arrived]. intros x. destruct (Hcover x) as [[->|?]%elem_of_cons|?].
      * right. left.
      * by left.
      * right. by right.
    + split; [exact Hd|]. eauto.
Qed.

Lemma loadScenarioData_resumes (scenarioId : string) (rq : Requests) (order : list Slot)
    (d : Dashboard) (p : Payloads) :
  order ≡ₚ all_slots -> fulfilled_payloads scenarioId rq = Some p ->
  loadScenarioData scenarioId rq order d
  = (fst (assign scenarioId p d), Some (resumed (snd (assign scenarioId p d)))).
Proof.
  intros Hperm Hp. unfold loadScenarioData. cbv zeta.
  assert (Hrun : run (mkWorld d [] None) (Initiate scenarioId rq :: (Settle 0 <$> order))
                 = run (mkWorld d [mkLoad scenarioId rq [] Waiting] None)
                       (Settle 0 <$> order)) by reflexivity.
  rewrite Hrun.
  destruct (lone_call_resumes order
              (mkWorld d [mkLoad scenarioId rq [] Waiting] None)
              (mkLoad scenarioId rq [] Waiting) p)
    as (Hd & ld' & Hl & Hph); [done|done| | | | |done|].
  - rewrite Hperm. apply (bool_decide_unpack _). vm_compute. exact I.
  - intros ->. apply Permutation_nil_l in Hperm. discriminate.
  - intros s _ ?%elem_of_nil. done.
  - intros s. left. rewrite Hperm. destruct s; set_unfold; tauto.
  - rewrite Hd, Hl. cbn. by rewrite Hph.
Qed.

Lemma loadScenarioData_publishes (scenarioId : string) (rq : Requests) (order : list Slot)
    (d : Dashboard) (p : Payloads) :
  order ≡ₚ all_slots -> fulfilled_payloads scenarioId rq = Some p ->
  no_null_document p = true ->
  loadScenarioData scenarioId rq order d = (published scenarioId p, Some Completed).
Proof.
  intros Hperm Hp Hdocs. rewrite (loadScenarioData_resumes _ _ _ _ p Hperm Hp).
  by rewrite (assign_complete _ _ _ Hdocs).
Qed.

Lemma loadScenarioData_throws (scenarioId : string) (rq : Requests) (order : list Slot)
    (d : Dashboard) (p : Payloads) :
  order ≡ₚ all_slots -> fulfilled_payloads scenarioId rq = Some p ->
  no_null_document p = false ->
  exists property,
    property ∈ ["scenario_id"; "rows"] /\
    loadScenarioData scenarioId rq order d
    = (fst (assign scenarioId p d), Some (Failed (null_access property))).
Proof.
  intros Hperm Hp Hdocs. rewrite (loadScenarioData_resumes _ _ _ _ p Hperm Hp).
  destruct (assign_throws scenarioId p d Hdocs) as (property & Hin & Hthrown).
  exists property. split; [done|]. by rewrite Hthrown.
Qed.

(** C2 (as amended): in every state the page can reach, when one of the
    four retrievals of a scenario load rejects, the current data (scenario
    id, summary, hourly rows, cost rows, assumption rows) are left as they
    were; if the load was still pending it fails with that retrieval's
    message, which is shown, and if it had already failed it keeps its
    first message; such a load is never completed, now or after any later
    events.  The current data change only at the step at which the last of
    the four promises of a load arrives, all four having fulfilled, by the
    assignments that follow the [await]; when none of the documents
    delivered is [null], that step replaces all five fields together by
    what the load retrieved.  Seen as one call: whatever the order in
    which its promises settle, a call of which a retrieval rejects returns
    the current data as it found them and ends with the message of the
    first rejection; a call whose four retrievals fulfil, none with a
    [null] document, ends having replaced all five fields; and a call
    whose four retrievals fulfil, one of them with a [null] document, fails
    with the message of the type error once the assignments that precede
    the reading of that document are done.  What a load publishes is,
    through the API, the scenario id its summary reports (the requested
    one when it reports none), the summary and the three row lists; with
    static files, the requested id, the summary tagged with the id it
    reports or else the requested one, the two tables, and the assumption
    rows with their columns renamed. *)
Theorem failed_retrieval_fails_whole_load (d0 : Dashboard) (events : list Event)
    (k : nat) (ld : Load) (slot : Slot) (m : string) :
  let w := run (mkWorld d0 [] None) events in
  loads w !! k = Some ld -> slot ∉ arrived ld ->
  rejection (target ld) (requests ld) slot = Some m ->
  let w' := step w (Settle k slot) in
  dashboard w' = dashboard w /\
  (phase ld = Waiting ->
     shown_error w' = Some m /\ phase <$> loads w' !! k = Some (Failed m)) /\
  (forall first, phase ld = Failed first ->
     phase <$> loads w' !! k = Some (Failed first)) /\
  phase ld <> Completed /\
  (forall later, exists ld' m', loads (run w' later) !! k = Some ld' /\ phase ld' = Failed m') /\
  (forall e, dashboard (step w e) <> dashboard w ->
     exists k' slot' ld' p,
       e = Settle k' slot' /\ loads w !! k' = Some ld' /\ (slot' ∉ arrived ld') /\
       phase ld' = Waiting /\
       fulfilled_payloads (target ld') (requests ld') = Some p /\
       (forall s, s ∈ (slot' :: arrived ld')) /\
       (forall s, rejection (target ld') (requests ld') s = None) /\
       dashboard (step w e) = fst (assign (target ld') p (dashboard w)) /\
       (no_null_document p = true -> dashboard (step w e) = published (target ld') p)) /\
  (forall scenarioId rq order d first,
     NoDup order -> first_rejection scenarioId rq order = Some first ->
     loadScenarioData scenarioId rq order d = (d, Some (Failed first))) /\
  (forall scenarioId rq order d p,
     order ≡ₚ all_slots -> fulfilled_payloads scenarioId rq = Some p ->
     no_null_document p = true ->
     loadScenarioData scenarioId rq order d = (published scenarioId p, Some Completed)) /\
  (forall scenarioId rq order d p,
     order ≡ₚ all_slots -> fulfilled_payloads scenarioId rq = Some p ->
     no_null_document p = false ->
     exists property,
       property ∈ ["scenario_id"; "rows"] /\
       loadScenarioData scenarioId rq order d
       = (fst (assign scenarioId p d), Some (Failed (null_access property)))) /\
  (forall scenarioId sp hp cp ap,
     published scenarioId (ApiPayloads (Some sp) (Some hp) (Some cp) (Some ap))
     = mkDashboard (Some (Js.str_or (scenario_id sp) scenarioId)) (Some sp)
                   (default [] (rows hp)) (default [] (rows cp)) (default [] (rows ap))) /\
  (forall scenarioId sp hourlyRows costs assumptions,
     published scenarioId (StaticPayloads (Some sp) hourlyRows costs assumptions)
     = mkDashboard (Some scenarioId)
         (Some (mkSummary (Some (Js.str_or (scenario_id sp) scenarioId))
                          (scenario_label sp) (figures sp)))
         hourlyRows costs (alias_columns <$> assumptions)).
Proof.
  intros w Hk Hnot Hrej w'.
  assert (Hw : world_ok w) by apply run_ok, blank_ok.
  assert (Hld : load_ok ld) by (eapply Forall_lookup_1; eauto).
  assert (Hstep : w' = settle w k ld slot).
  { subst w'. cbn [step]. rewrite Hk. by rewrite bool_decide_eq_false_2. }
  assert (Hlt : k < length (loads w)) by (by eapply lookup_lt_Some).
  assert (Hdone : phase ld <> Completed).
  { intros Hph. unfold load_ok in Hld. rewrite Hph in Hld.
    destruct Hld as (_ & p & Hp & _).
    by rewrite (fulfilled_no_rejection _ _ _ Hp) in Hrej. }
  clear Hld.
  assert (Hfail : exists ld1 m1, loads w' !! k = Some ld1 /\ phase ld1 = Failed m1 /\
                    (phase ld = Waiting -> m1 = m /\ shown_error w' = Some m) /\
                    (forall first, phase ld = Failed first -> m1 = first)).
  { rewrite Hstep. unfold settle. destruct (phase ld) as [|first|] eqn:Hph; [| |done].
    - rewrite Hrej. cbn [loads shown_error]. eexists _, m.
      split; [by apply list_lookup_insert_eq|]. split; [done|]. split; [done|]. done.
    - cbn [loads]. eexists _, first.
      split; [by apply list_lookup_insert_eq|]. split; [done|]. split; [done|].
      by intros ? [= ->]. }
  destruct Hfail as (ld1 & m1 & Hk1 & Hph1 & Hwait & Hfirst).
  split.
  { rewrite Hstep. unfold settle. destruct (phase ld); [|done..]. by rewrite Hrej. }
  split.
  { intros Hph. destruct (Hwait Hph) as [-> Hshown]. split; [done|].
    by rewrite Hk1; cbn; rewrite Hph1. }
  split.
  { intros first Hph. rewrite (Hfirst first Hph) in Hph1. by rewrite Hk1; cbn; rewrite Hph1. }
  split; [exact Hdone|]. split.
  { intros later. destruct (failed_forever later w' k ld1 m1 Hk1 Hph1) as (ld' & ? & ?).
    eauto. }
  split; [intros e; apply dashboard_changes_only_on_completion|].
  split; [|split; [|split; [|split; [done|done]]]].
  - intros scenarioId rq order d first. apply loadScenarioData_fails.
  - intros scenarioId rq order d p. apply loadScenarioData_publishes.
  - intros scenarioId rq order d p. apply loadScenarioData_throws.
Qed.

Lemma failed_retrieval_fails_whole_load_witness :
  let w := run blank [Initiate "nf70" (sample_requests "nf70" 70%float);
                      Initiate "nf90" (sample_requests_cost_missing "nf90" 90%float);
                      Settle 0 SummarySlot; Settle 0 HourlySlot; Settle 0 CostSlot;
                      Settle 0 AssumptionsSlot; Settle 1 SummarySlot] in
  dashboard (step w (Settle 1 CostSlot)) = sample_dashboard "nf70" 70%float /\
  shown_error (step w (Settle 1 CostSlot)) = Some "cost_breakdown.csv not found".
Proof.
  cbv zeta.
  destruct (failed_retrieval_fails_whole_load
              (mkDashboard None None [] [] [])
              [Initiate "nf70" (sample_requests "nf70" 70%float);
               Initiate "nf90" (sample_requests_cost_missing "nf90" 90%float);
               Settle 0 SummarySlot; Settle 0 HourlySlot; Settle 0 CostSlot;
               Settle 0 AssumptionsSlot; Settle 1 SummarySlot]
              1 (mkLoad "nf90" (sample_requests_cost_missing "nf90" 90%float)
                        [SummarySlot] Waiting)
              CostSlot "cost_breakdown.csv not found")
    as (Hsame & Hwait & _).
  - vm_compute. reflexivity.
  - cbn [arrived]. intros Hin. apply list_elem_of_singleton in Hin. discriminate.
  - vm_compute. reflexivity.
  - destruct (Hwait eq_refl) as [Hshown _].
    split; [|exact Hshown]. fold blank in Hsame. rewrite Hsame. vm_compute. reflexivity.
Defined.

(** C2 fails as stated: the fields are not always updated together.
    While the data of scenario nf70 are current, scenario nf90 is loaded
    through the API and its four retrievals all fulfil, that of the hourly
    rows with the document [null]: no retrieval rejects, yet the load
    fails, with the message of the type error, after the scenario id and
    the summary have been replaced, and the hourly rows, the cost rows and
    the assumption rows are still those of nf70.  With static files, a
    summary file that holds [null] has the scenario id replaced and
    nothing else. *)
Lemma null_document_updates_part_of_the_data :
  let d := sample_dashboard "nf70" 70%float in
  let viaApi := api_requests_hourly_null "nf90" 90%float in
  let viaFiles := static_requests_summary_null 90%float in
  (forall slot, rejection "nf90" viaApi slot = None) /\
  loadScenarioData "nf90" viaApi all_slots d
  = (mkDashboard (Some "nf90")
       (Some (mkSummary (Some "nf90") None {[ "total_demand_mwh" := 90%float ]}))
       [mkRow "2024-01-01T00:00:00" {[ "demand_mwh" := 70%float ]}]
       [mkCostRow None (Some "solar") (Some "capex_annualized") (Some 70%float)]
       [mkAssumption (CStr "Demand") (CNum 70%float) (CStr "")],
     Some (Failed "Cannot read properties of null (reading 'rows')")) /\
  (forall slot, rejection "nf90" viaFiles slot = None) /\
  loadScenarioData "nf90" viaFiles all_slots d
  = (mkDashboard (Some "nf90")
       (Some (mkSummary (Some "nf70") None {[ "total_demand_mwh" := 70%float ]}))
       [mkRow "2024-01-01T00:00:00" {[ "demand_mwh" := 70%float ]}]
       [mkCostRow None (Some "solar") (Some "capex_annualized") (Some 70%float)]
       [mkAssumption (CStr "Demand") (CNum 70%float) (CStr "")],
     Some (Failed "Cannot read properties of null (reading 'scenario_id')")).
Proof.
  cbv zeta. split; [by intros []|]. split; [vm_compute; reflexivity|].
  split; [by intros []|]. vm_compute. reflexivity.
Qed.

(** *** Two switches in flight *)

Lemma settle_event_elem (late : list (nat * Slot)) (k : nat) (s : Slot) :
  Settle k s ∈ ((fun e => Settle (fst e) (snd e)) <$> late) <-> (k, s) ∈ late.
Proof.
  rewrite list_elem_of_fmap. split.
  - intros ([k' s'] & [= -> ->] & Hin). done.
  - intros Hin. exists (k, s). done.
Qed.

Lemma early_event_elem (early : list Slot) (k : nat) (s : Slot) :
  Settle k s ∈ (Settle 0 <$> early) <-> (k, s) ∈ ((fun s => (0, s)) <$> early).
Proof.
  rewrite !list_elem_of_fmap. split.
  - intros (s' & [= -> ->] & Hin). eauto.
  - intros (s' & [= -> ->] & Hin). eauto.
Qed.

Lemma both_calls_elem (k : nat) (s : Slot) : (k, s) ∈ both_calls <-> k = 0 \/ k = 1.
Proof.
  unfold both_calls. rewrite elem_of_app, !list_elem_of_fmap. split.
  - intros [(s' & [= -> ->] & _)|(s' & [= -> ->] & _)]; [by left|by right].
  - assert (s ∈ all_slots) by (destruct s; set_unfold; tauto).
    intros [->| ->]; [left|right]; exists s; done.
Qed.

Lemma both_calls_NoDup : NoDup both_calls.
Proof. apply (bool_decide_unpack _). vm_compute. exact I. Qed.

(** C1 (as amended): a load for scenario A is initiated, then a load for
    scenario B, possibly before A's retrievals complete; all eight
    retrievals succeed, none delivering a [null] document, and each
    settles once, in any interleaving.  Both loads complete, and after
    that the current data are those of the load whose last retrieval
    settled last: B's when B's load finishes after A's, and A's, the
    abandoned selection, when A's load finishes after B's.  No load is
    tagged, and nothing is checked before publishing. *)
Theorem last_completed_load_is_published (d0 : Dashboard) (A B : string)
    (rqA rqB : Requests) (early : list Slot) (late : list (nat * Slot))
    (pA pB : Payloads) (k : nat) (slot : Slot) :
  fulfilled_payloads A rqA = Some pA -> fulfilled_payloads B rqB = Some pB ->
  no_null_document pA = true -> no_null_document pB = true ->
  ((fun s => (0, s)) <$> early) ++ late ≡ₚ both_calls ->
  last late = Some (k, slot) ->
  (k = 0 \/ k = 1) /\
  dashboard (run (mkWorld d0 [] None) (two_switches A rqA early B rqB late))
  = (if decide (k = 0) then published A pA else published B pB) /\
  phase <$> loads (run (mkWorld d0 [] None) (two_switches A rqA early B rqB late))
  = [Completed; Completed].
Proof.
  intros HpA HpB HdocsA HdocsB Hperm Hlast.
  apply last_Some in Hlast as [late' ->].
  set (X := ((fun s => (0, s)) <$> early) ++ late').
  assert (HX : X ++ [(k, slot)] ≡ₚ both_calls).
  { subst X. by rewrite <- app_assoc. }
  assert (Hk : k = 0 \/ k = 1).
  { apply (both_calls_elem k slot). rewrite <- HX. apply elem_of_app. right. by left. }
  split; [exact Hk|].
  assert (Hfresh : (k, slot) ∉ X).
  { pose proof both_calls_NoDup as Hnd. rewrite <- HX in Hnd.
    apply NoDup_app in Hnd as (_ & Hdisj & _). intros Hin.
    apply (Hdisj _ Hin). by left. }
  assert (Hrest : forall s, s <> slot -> (k, s) ∈ X).
  { intros s Hne. assert (Hin : (k, s) ∈ X ++ [(k, slot)]).
    { rewrite HX. by apply both_calls_elem. }
    apply elem_of_app in Hin as [?|Hin]; [done|].
    apply list_elem_of_singleton in Hin. congruence. }
  (* the run, cut before its last event *)
  set (w0 := mkWorld d0 [] None).
  set (WA := step w0 (Initiate A rqA)).
  set (WA' := run WA (Settle 0 <$> early)).
  set (WB := step WA' (Initiate B rqB)).
  set (WC := run WB ((fun e => Settle (fst e) (snd e)) <$> late')).
  assert (Hrun : run w0 (two_switches A rqA early B rqB (late' ++ [(k, slot)]))
                 = step WC (Settle k slot)).
  { unfold two_switches, run. cbn [foldl]. rewrite foldl_app. cbn [foldl].
    rewrite fmap_app, foldl_app. done. }
  rewrite Hrun.
  assert (HokC : world_ok WC).
  { subst WC WB WA' WA. apply run_ok, step_ok, run_ok, step_ok, blank_ok. }
  (* the first call *)
  assert (HA0 : loads WA !! 0 = Some (mkLoad A rqA [] Waiting)) by done.
  destruct (run_load_at (Settle 0 <$> early) WA 0 _ HA0)
    as (ldA1 & HA1 & HtA1 & HrA1 & HaA1). fold WA' in HA1.
  assert (Hlen : length (loads WA') = 1).
  { subst WA'. rewrite settles_keep_length; [done|].
    apply Forall_fmap, Forall_true. done. }
  assert (HA1' : loads WB !! 0 = Some ldA1).
  { subst WB. cbn [step loads]. by apply lookup_app_l_Some. }
  assert (HB1 : loads WB !! 1 = Some (mkLoad B rqB [] Waiting)).
  { subst WB. cbn [step loads]. rewrite <- Hlen. by apply list_lookup_middle. }
  destruct (run_load_at ((fun e => Settle (fst e) (snd e)) <$> late') WB 0 _ HA1')
    as (ldA2 & HA2 & HtA2 & HrA2 & HaA2). fold WC in HA2.
  destruct (run_load_at ((fun e => Settle (fst e) (snd e)) <$> late') WB 1 _ HB1)
    as (ldB2 & HB2 & HtB2 & HrB2 & HaB2). fold WC in HB2.
  cbn [target requests arrived] in *.
  assert (HarrA : forall s, s ∈ arrived ldA2 <-> (0, s) ∈ X).
  { intros s. rewrite HaA2, HaA1, settle_event_elem, early_event_elem.
    subst X. rewrite elem_of_app, elem_of_nil. tauto. }
  assert (HarrB : forall s, s ∈ arrived ldB2 <-> (1, s) ∈ X).
  { intros s. rewrite HaB2, settle_event_elem. subst X.
    rewrite elem_of_app, elem_of_nil, list_elem_of_fmap. split; [tauto|].
    intros [(s' & [= ] & _)|?]; tauto. }
  assert (HWC : loads WC = [ldA2; ldB2]).
  { assert (Hlen2 : length (loads WC) = 2).
    { subst WC. rewrite settles_keep_length.
      - subst WB. cbn [step loads]. rewrite length_app, Hlen. done.
      - apply Forall_fmap, Forall_true. done. }
    destruct (loads WC) as [|a [|b [|c more]]]; try discriminate Hlen2.
    cbn in HA2, HB2. congruence. }
  assert (HfulA : fulfilled_payloads (target ldA2) (requests ldA2) = Some pA)
    by (by rewrite HtA2, HrA2, HtA1, HrA1).
  assert (HfulB : fulfilled_payloads (target ldB2) (requests ldB2) = Some pB)
    by (by rewrite HtB2, HrB2).
  assert (Hother : forall j s, j = 0 \/ j = 1 -> j <> k -> (j, s) ∈ X).
  { intros j s Hj Hne. assert (Hin : (j, s) ∈ X ++ [(k, slot)]).
    { rewrite HX. by apply both_calls_elem. }
    apply elem_of_app in Hin as [?|Hin]; [done|].
    apply list_elem_of_singleton in Hin. congruence. }
  assert (HokA : load_ok ldA2) by (eapply Forall_lookup_1; eauto).
  assert (HokB : load_ok ldB2) by (eapply Forall_lookup_1; eauto).
  destruct Hk as [-> | ->].
  - rewrite decide_True by done.
    destruct (final_settle_publishes WC 0 ldA2 slot pA) as [Hdash Hloads];
      [done|done| | |done|done|].
    + by rewrite HarrA.
    + intros s Hne. apply HarrA. by apply Hrest.
    + split; [congruence|]. rewrite Hloads, HWC. cbn. do 2 f_equal.
      apply (arrived_load_completed ldB2 pB); [done| |done|done].
      intros s. apply HarrB. by apply Hother; [right|].
  - rewrite decide_False by done.
    destruct (final_settle_publishes WC 1 ldB2 slot pB) as [Hdash Hloads];
      [done|done| | |done|done|].
    + by rewrite HarrB.
    + intros s Hne. apply HarrB. by apply Hrest.
    + split; [congruence|]. rewrite Hloads, HWC. cbn. f_equal.
      apply (arrived_load_completed ldA2 pA); [done| |done|done].
      intros s. apply HarrA. by apply Hother; [left|].
Qed.

Lemma last_completed_load_is_published_witness :
  dashboard (run blank (two_switches "nf70" (sample_requests "nf70" 70%float) []
                                     "nf90" (sample_requests "nf90" 90%float) both_calls))
  = sample_dashboard "nf90" 90%float.
Proof.
  destruct (last_completed_load_is_published
              (mkDashboard None None [] [] [])
              "nf70" "nf90" (sample_requests "nf70" 70%float)
              (sample_requests "nf90" 90%float) [] both_calls
              (StaticPayloads
                 (Some (mkSummary (Some "nf70") None {[ "total_demand_mwh" := 70%float ]}))
                 [mkRow "2024-01-01T00:00:00" {[ "demand_mwh" := 70%float ]}]
                 [mkCostRow None (Some "solar") (Some "capex_annualized") (Some 70%float)]
                 [ {[ "Assumption" := CStr "Demand"; "Value" := CNum 70%float ]} ])
              (StaticPayloads
                 (Some (mkSummary (Some "nf90") None {[ "total_demand_mwh" := 90%float ]}))
                 [mkRow "2024-01-01T00:00:00" {[ "demand_mwh" := 90%float ]}]
                 [mkCostRow None (Some "solar") (Some "capex_annualized") (Some 90%float)]
                 [ {[ "Assumption" := CStr "Demand"; "Value" := CNum 90%float ]} ])
              1 AssumptionsSlot)
    as (_ & Hpub & _).
  - vm_compute. reflexivity.
  - vm_compute. reflexivity.
  - reflexivity.
  - reflexivity.
  - reflexivity.
  - reflexivity.
  - fold blank in Hpub. rewrite Hpub. vm_compute. reflexivity.
Defined.

(** C1 fails as stated: scenario nf70 is selected, then scenario nf90
    before any retrieval of nf70 has completed; the four retrievals of
    nf90 settle first and those of nf70 last.  After both loads have
    completed the current data are those of nf70, the abandoned
    selection, and not those of nf90. *)
Lemma stale_load_overwrites_newer_selection :
  let w := run blank (two_switches "nf70" (sample_requests "nf70" 70%float) []
                                   "nf90" (sample_requests "nf90" 90%float) stale_last) in
  (phase <$> loads w) = [Completed; Completed] /\
  dashboard w = sample_dashboard "nf70" 70%float /\
  currentScenario (dashboard w) = Some "nf70" /\
  dashboard w <> sample_dashboard "nf90" 90%float.
Proof.
  cbv zeta. split; [vm_compute; reflexivity|]. split; [vm_compute; reflexivity|].
  split; [vm_compute; reflexivity|].
  intros Heq. apply (f_equal currentScenario) in Heq. vm_compute in Heq. discriminate.
Qed.

End LoaderFacts.

(** ** The cost waterfall *)

Module WaterfallFacts.
Import Model Waterfall WaterfallSpec.

(** *** The steps, read from the rows *)

Lemma cost_of_reading (row : CostRow) : Js.number_or_zero (cost_usd row) = cost_of row.
Proof.
  unfold Js.number_or_zero, Js.num_or, Js.truthy, Js.is_nan, cost_of.
  destruct (cost_usd row) as [v|]; [|done]. rewrite negb_involutive.
  by destruct (PrimFloat.eqb v v && negb (PrimFloat.eqb v 0%float)).
Qed.

Lemma total_cost_where (P : CostRow -> Prop) `{!forall row, Decision (P row)}
    (wanted : CostRow -> bool) (rows : list CostRow) :
  (forall row, wanted row = true <-> P row) ->
  forall total,
    foldl (fun sum row => PrimFloat.add sum (Js.number_or_zero (cost_usd row))) total
          (filter P rows)
    = sum_where wanted total rows.
Proof.
  intros Hwanted. induction rows as [|row rows IH]; intros total; [done|].
  rewrite filter_cons. cbn [sum_where]. destruct (decide (P row)) as [Hrow|Hrow].
  - rewrite (proj2 (Hwanted row) Hrow). cbn [foldl]. by rewrite IH, cost_of_reading.
  - destruct (wanted row) eqn:Hw; [by apply Hwanted in Hw|]. apply IH.
Qed.

Lemma valueFor_matching_sum (costRows : list CostRow) (tech comp : string) :
  valueFor costRows tech comp = matching_sum tech comp costRows.
Proof.
  unfold valueFor, total_cost, matching_sum. apply total_cost_where.
  intros row. by rewrite andb_true_iff, !bool_decide_eq_true.
Qed.

Lemma unservedPenalty_penalty_sum (costRows : list CostRow) :
  unservedPenalty costRows = penalty_sum costRows.
Proof.
  unfold unservedPenalty, total_cost, penalty_sum. apply total_cost_where.
  intros row. by rewrite bool_decide_eq_true.
Qed.

Lemma push_component_kept (costRows : list CostRow) (tech comp : string)
    (steps : list Step) :
  (fun st => (label st, value st)) <$> push_component costRows tech steps comp
  = ((fun st => (label st, value st)) <$> steps)
    ++ option_list (kept_pair costRows (tech, comp, step_label tech comp)).
Proof.
  unfold push_component, kept_pair, below_half. cbn [fst snd].
  rewrite valueFor_matching_sum.
  destruct (PrimFloat.ltb _ _); cbn [option_list]; [by rewrite app_nil_r|].
  by rewrite fmap_app.
Qed.

Lemma omap_cons_app {A B : Type} (f : A -> option B) (a : A) (l : list A) :
  omap f (a :: l) = option_list (f a) ++ omap f l.
Proof. cbn. by destruct (f a). Qed.

Lemma build_steps_kept (costRows : list CostRow) :
  (fun st => (label st, value st)) <$> build_steps costRows = kept_steps costRows.
Proof.
  unfold build_steps, kept_steps, kept_penalty, at_least_half.
  rewrite unservedPenalty_penalty_sum.
  assert (Hpairs : (fun st => (label st, value st))
                     <$> foldl (push_technology costRows) [] techOrder
                   = omap (kept_pair costRows) labelled_pairs).
  { unfold techOrder, push_technology, componentOrder, labelled_pairs. cbn [foldl].
    rewrite !push_component_kept, !omap_cons_app. cbn [fmap list_fmap omap list_omap].
    rewrite app_nil_l, app_nil_r, <- !app_assoc. reflexivity. }
  destruct (PrimFloat.leb _ _); [|by rewrite app_nil_r].
  by rewrite fmap_app, Hpairs.
Qed.

Lemma kept_pair_label (costRows : list CostRow) (entry : string * string * string)
    (lab : string) (v : float) :
  kept_pair costRows entry = Some (lab, v) -> lab = entry.2.
Proof. unfold kept_pair. destruct (PrimFloat.ltb _ _); [done|]. by intros [= <- _]. Qed.

Lemma kept_labels_known (costRows : list CostRow) (entries : list (string * string * string))
    (lab : string) :
  lab ∈ (fst <$> omap (kept_pair costRows) entries) -> lab ∈ (snd <$> entries).
Proof.
  rewrite !list_elem_of_fmap. intros ([lab' v] & -> & Hin).
  apply list_elem_of_omap in Hin as (entry & Hentry & Hkept).
  apply kept_pair_label in Hkept. exists entry. done.
Qed.

Lemma kept_labels (costRows : list CostRow) (entries : list (string * string * string)) :
  NoDup (snd <$> entries) ->
  forall entry, entry ∈ entries ->
    entry.2 ∈ (fst <$> omap (kept_pair costRows) entries)
    <-> is_Some (kept_pair costRows entry).
Proof.
  induction entries as [|e entries IH]; intros Hnd entry Hin; [by apply elem_of_nil in Hin|].
  cbn [fmap list_fmap] in Hnd. apply NoDup_cons in Hnd as [Hfresh Hnd].
  rewrite omap_cons_app, fmap_app, elem_of_app.
  apply elem_of_cons in Hin as [->|Hin].
  - split.
    + intros [Hhead|Htail].
      * destruct (kept_pair costRows e); [done|]. by apply elem_of_nil in Hhead.
      * destruct Hfresh. by eapply kept_labels_known.
    + intros [[lab v] Hkept]. left. rewrite Hkept. cbn.
      rewrite (kept_pair_label _ _ _ _ Hkept). apply list_elem_of_singleton. done.
  - assert (Hne : entry.2 <> e.2).
    { intros Heq. apply Hfresh. rewrite <- Heq. apply list_elem_of_fmap. by exists entry. }
    rewrite <- (IH Hnd entry Hin). split; [|by right].
    intros [Hhead|Htail]; [|done].
    destruct (kept_pair costRows e) as [[lab v]|] eqn:Hkept; [|by apply elem_of_nil in Hhead].
    cbn in Hhead. apply list_elem_of_singleton in Hhead.
    by rewrite (kept_pair_label _ _ _ _ Hkept) in Hhead.
Qed.

Lemma labelled_pairs_NoDup : NoDup (snd <$> labelled_pairs).
Proof. apply (bool_decide_unpack _). vm_compute. exact I. Qed.

Lemma labelled_pairs_not_reserved (entry : string * string * string) :
  entry ∈ labelled_pairs ->
  entry.2 <> "Unserved Penalty" /\ entry.2 <> "Total System Cost".
Proof.
  assert (Hall : Forall (fun e : string * string * string =>
                           e.2 <> "Unserved Penalty" /\ e.2 <> "Total System Cost")
                        labelled_pairs).
  { apply (bool_decide_unpack _). vm_compute. exact I. }
  intros Hin. by apply (proj1 (Forall_forall _ _) Hall).
Qed.

(** *** The arrays of the chart *)

Lemma bars_of_steps (scale : float) (steps : list Step) :
  let scaled := (fun st => PrimFloat.mul (value st) scale) <$> steps in
  let b := foldl (push_bar scale) (mkBars [] [] [] [] 0%float) steps in
  x b = label <$> steps /\ y b = scaled /\ running b = sum_of scaled /\
  length (base b) = length scaled /\
  (forall i, i < length scaled -> base b !! i = Some (sum_of (take i scaled))).
Proof.
  induction steps as [|st steps IH] using rev_ind.
  - cbn. split; [done|]. split; [done|]. split; [done|]. split; [done|].
    intros i Hi. lia.
  - cbv zeta in *. destruct IH as (Hx & Hy & Hrun & Hlen & Hbase).
    rewrite foldl_snoc, !fmap_app. cbn [fmap list_fmap].
    set (b := foldl (push_bar scale) (mkBars [] [] [] [] 0%float) steps) in *.
    unfold push_bar. cbn [x y base running].
    rewrite Hx, Hy, Hrun. split; [done|]. split; [done|].
    split; [unfold sum_of; by rewrite foldl_snoc|].
    split; [rewrite !length_app, Hlen; done|].
    intros i Hi. rewrite length_app in Hi. cbn [length] in Hi.
    destruct (decide (i < length ((fun st => PrimFloat.mul (value st) scale) <$> steps)))
      as [Hlt|Hge].
    + rewrite lookup_app_l by lia. rewrite take_app_le by lia. by apply Hbase.
    + assert (i = length ((fun st => PrimFloat.mul (value st) scale) <$> steps)) as ->
        by lia.
      rewrite take_app_length. rewrite <- Hlen at 1.
      by rewrite list_lookup_middle.
Qed.

Lemma waterfall_arrays (scale : float) (steps : list Step) :
  let scaled := (fun st => PrimFloat.mul (value st) scale) <$> steps in
  let bars := waterfall scale steps in
  x bars = (label <$> steps) ++ [TOTAL_LABEL] /\
  y bars = scaled ++ [sum_of scaled] /\
  length (base bars) = S (length scaled) /\
  (forall i, i < length scaled -> base bars !! i = Some (sum_of (take i scaled))) /\
  base bars !! length scaled = Some 0%float.
Proof.
  cbv zeta. destruct (bars_of_steps scale steps) as (Hx & Hy & Hrun & Hlen & Hbase).
  unfold waterfall, push_total. cbn [x y base].
  rewrite Hx, Hy, Hrun. split; [done|]. split; [done|].
  split; [rewrite length_app, Hlen; cbn; lia|]. split.
  - intros i Hi. rewrite lookup_app_l by lia. by apply Hbase.
  - rewrite <- Hlen. by rewrite list_lookup_middle.
Qed.

(** C3: in the detailed-schema cost waterfall, for every cost-row list:
    the step of a technology and component is in the output exactly when
    the costs of the matching rows, summed in row order from zero, do not
    have an absolute value below 0.5; the steps are those of the retained
    pairs, in the order of the chart (solar, battery, diesel, CCGT, coal,
    each with capital, fixed and variable cost), followed by the penalty
    step when the penalty rows sum to an absolute value of at least 0.5;
    the height of a step is its sum times the scale; the base of each
    retained step is the sum, accumulated from zero in order, of the
    scaled values of the retained steps before it; the last entry is
    labelled "Total System Cost", its value is the sum of the scaled
    values of all retained steps, and its base is zero. *)
Theorem detailed_waterfall_is_cumulative (summary : Summary)
    (costUnitMode : option string) (costRows : list CostRow) :
  hasDetailed costRows = true ->
  exists bars axis,
    renderCostBreakdown (Some summary) costUnitMode costRows = Some (Cascade bars axis) /\
    let scale := scale_of (default "total" costUnitMode) summary in
    let kept := kept_steps costRows in
    let scaled := (fun st => PrimFloat.mul st.2 scale) <$> kept in
    (forall tech comp lab, (tech, comp, lab) ∈ labelled_pairs ->
       (lab ∈ x bars <->
        PrimFloat.ltb (PrimFloat.abs (matching_sum tech comp costRows)) 0.5%float = false) /\
       (forall i, x bars !! i = Some lab ->
          y bars !! i = Some (PrimFloat.mul (matching_sum tech comp costRows) scale))) /\
    ("Unserved Penalty" ∈ x bars <->
     PrimFloat.leb 0.5%float (PrimFloat.abs (penalty_sum costRows)) = true) /\
    x bars = (fst <$> kept) ++ ["Total System Cost"] /\
    y bars = scaled ++ [sum_of scaled] /\
    length (base bars) = S (length scaled) /\
    (forall i, i < length scaled -> base bars !! i = Some (sum_of (take i scaled))) /\
    base bars !! length scaled = Some 0%float.
Proof.
  intros Hdetailed. unfold renderCostBreakdown. rewrite Hdetailed. cbn [negb].
  eexists _, _. split; [reflexivity|]. cbv zeta.
  set (scale := scale_of (default "total" costUnitMode) summary).
  destruct (waterfall_arrays scale (build_steps costRows)) as (Hx & Hy & Hrest).
  assert (Hlabels : label <$> build_steps costRows = fst <$> kept_steps costRows).
  { rewrite <- build_steps_kept, <- list_fmap_compose. done. }
  assert (Hscaled : (fun st => PrimFloat.mul (value st) scale) <$> build_steps costRows
                    = (fun st => PrimFloat.mul st.2 scale) <$> kept_steps costRows).
  { rewrite <- build_steps_kept, <- list_fmap_compose. done. }
  rewrite Hscaled in Hy, Hrest. rewrite Hlabels in Hx.
  change TOTAL_LABEL with "Total System Cost" in Hx.
  split; [|split; [|split; [exact Hx|split; [exact Hy|exact Hrest]]]].
  - intros tech comp lab Hin.
    destruct (labelled_pairs_not_reserved _ Hin) as [Hpen Htot]. cbn [snd] in Hpen, Htot.
    pose proof (kept_labels costRows labelled_pairs labelled_pairs_NoDup _ Hin) as Hkept.
    cbn [snd] in Hkept.
    assert (Hsome : is_Some (kept_pair costRows (tech, comp, lab)) <->
                    PrimFloat.ltb (PrimFloat.abs (matching_sum tech comp costRows)) 0.5%float
                    = false).
    { unfold kept_pair. cbn [fst snd]. destruct (PrimFloat.ltb _ _).
      - split; [by intros [? ?]|done].
      - split; [done|eauto]. }
    split.
    + rewrite <- Hsome, <- Hkept, Hx. unfold kept_steps, kept_penalty.
      rewrite fmap_app, !elem_of_app, list_elem_of_singleton. split.
      * intros [[?|Hp]|?]; [done| |done].
        destruct (PrimFloat.leb _ _); [|by apply elem_of_nil in Hp].
        cbn in Hp. by apply list_elem_of_singleton in Hp.
      * intros ?. by left; left.
    + intros i Hi. rewrite Hx in Hi. rewrite Hy.
      assert (Hlt : i < length (kept_steps costRows)).
      { destruct (decide (i < length (kept_steps costRows))) as [?|Hge]; [done|].
        rewrite lookup_app_r in Hi by (rewrite length_fmap; lia).
        apply list_lookup_singleton_Some in Hi as [_ Hi]. done. }
      rewrite lookup_app_l in Hi by (rewrite length_fmap; lia).
      rewrite lookup_app_l by (rewrite length_fmap; lia).
      rewrite list_lookup_fmap in Hi. rewrite list_lookup_fmap.
      destruct (kept_steps costRows !! i) as [[lab' v]|] eqn:Hstep; [|done].
      cbn in Hi. injection Hi as ->. cbn. do 2 f_equal.
      apply list_elem_of_lookup_2 in Hstep. unfold kept_steps, kept_penalty in Hstep.
      apply elem_of_app in Hstep as [Hstep|Hstep].
      * apply list_elem_of_omap in Hstep as (entry & Hentry & Hpair).
        pose proof (kept_pair_label _ _ _ _ Hpair) as Hlab.
        assert (entry = (tech, comp, lab)) as ->.
        { pose proof labelled_pairs_NoDup as Hnd.
          apply list_elem_of_lookup in Hentry as [n Hn].
          apply list_elem_of_lookup in Hin as [n' Hn'].
          assert (n = n') as ->.
          { apply (NoDup_lookup _ _ _ lab Hnd); rewrite list_lookup_fmap.
            - by rewrite Hn; cbn; rewrite Hlab.
            - by rewrite Hn'. }
          congruence. }
        unfold kept_pair in Hpair. cbn [fst snd] in Hpair.
        destruct (PrimFloat.ltb _ _); [done|]. by injection Hpair as <-.
      * destruct (PrimFloat.leb _ _); [|by apply elem_of_nil in Hstep].
        apply list_elem_of_singleton in Hstep. by injection Hstep as -> _.
  - rewrite Hx. unfold kept_steps, kept_penalty.
    rewrite fmap_app, !elem_of_app, list_elem_of_singleton. split.
    + intros [[Hpair|Hp]|?]; [| |done].
      * apply kept_labels_known, list_elem_of_fmap in Hpair as (entry & Hlab & Hentry).
        destruct (labelled_pairs_not_reserved _ Hentry) as [Hpen _]. congruence.
      * destruct (PrimFloat.leb _ _); [done|by apply elem_of_nil in Hp].
    + intros ->. left. right. cbn. left.
Qed.

Lemma detailed_waterfall_is_cumulative_witness :
  exists bars axis,
    renderCostBreakdown (Some served_1000) (Some "total") mixed_rows
      = Some (Cascade bars axis) /\
    x bars = ["Battery CAPEX (annualized)"; "Diesel Var O&M"; "Unserved Penalty";
              "Total System Cost"] /\
    y bars = [0.5%float; 1000%float; 8%float; 1008.5%float] /\
    base bars = [0%float; 0.5%float; 1000.5%float; 0%float] /\
    matching_sum "solar" "capex_annualized" mixed_rows = 0.25%float /\
    ("Solar CAPEX (annualized)" ∉ x bars) /\
    ("Coal Fixed O&M" ∉ x bars).
Proof.
  destruct (detailed_waterfall_is_cumulative served_1000 (Some "total") mixed_rows)
    as (bars & axis & Hrender & Hsteps & _ & Hx & Hy & _).
  { reflexivity. }
  exists bars, axis. split; [exact Hrender|].
  assert (Hsolar : "Solar CAPEX (annualized)" ∉ x bars).
  { intros Hin.
    apply (Hsteps "solar" "capex_annualized" "Solar CAPEX (annualized)") in Hin.
    - vm_compute in Hin. discriminate.
    - apply (bool_decide_unpack _). vm_compute. exact I. }
  assert (Hcoal : "Coal Fixed O&M" ∉ x bars).
  { intros Hin. apply (Hsteps "coal" "fixed_om" "Coal Fixed O&M") in Hin.
    - vm_compute in Hin. discriminate.
    - apply (bool_decide_unpack _). vm_compute. exact I. }
  split; [rewrite Hx; vm_compute; reflexivity|].
  split; [rewrite Hy; vm_compute; reflexivity|].
  vm_compute in Hrender. injection Hrender as <- <-.
  split; [reflexivity|]. split; [vm_compute; reflexivity|]. split; [exact Hsolar|exact Hcoal].
Defined.

(** *** Unit scaling *)

Lemma positive_is_truthy (v : float) :
  PrimFloat.ltb 0%float v = true -> Js.truthy v = true.
Proof.
  unfold Js.truthy, Js.is_nan. rewrite FloatAxioms.ltb_spec, !FloatAxioms.eqb_spec.
  change (Prim2SF 0%float) with (S754_zero false).
  destruct (Prim2SF v) as [s|s| |s m e]; cbn; try discriminate.
  - destruct s; cbn; try discriminate. reflexivity.
  - destruct s; cbn; try discriminate. intros _.
    rewrite Z.compare_refl, Pos.compare_refl. reflexivity.
Qed.

Lemma servedEnergy_effective (summary : Summary) :
  servedEnergy summary = effective_energy summary.
Proof.
  unfold servedEnergy, effective_energy, Js.number_or_zero, Js.num_or.
  destruct (figures summary !! "served_energy_mwh") as [served|]; [|done].
  destruct (Js.truthy served) eqn:Ht; [|done]. by rewrite Ht.
Qed.

(** C4 (as amended): the divisor of the per-unit mode is the summary's
    served energy when that is positive, and otherwise (served energy
    zero, not a number or missing) the summary's total demand, or zero
    when that is unusable too.  When per-unit-served mode is selected and
    the divisor is positive, the scale is the reciprocal [1 / divisor];
    in every other case, in particular when served energy and total
    demand are both zero or missing, the scale is 1 and the values are in
    absolute currency.  Every step value is multiplied by the scale, the
    running offsets and the total are the running sums of the scaled
    values, and the three bars of the coarse schema are multiplied by the
    same scale.  Served energy 1,000 with a single cost of 100,000 yields
    a per-unit total of exactly 100. *)
Theorem per_unit_scaling_uses_reciprocal (summary : Summary)
    (costUnitMode : option string) (costRows : list CostRow) :
  let mode := default "total" costUnitMode in
  let scale := scale_of mode summary in
  (forall served, figures summary !! "served_energy_mwh" = Some served ->
                  PrimFloat.ltb 0%float served = true ->
                  servedEnergy summary = served /\
                  (mode = "per_mwh" -> scale = PrimFloat.div 1%float served)) /\
  servedEnergy summary = effective_energy summary /\
  (mode = "per_mwh" -> PrimFloat.ltb 0%float (servedEnergy summary) = true ->
   scale = PrimFloat.div 1%float (servedEnergy summary)) /\
  (mode <> "per_mwh" \/ PrimFloat.ltb 0%float (servedEnergy summary) = false ->
   scale = 1%float) /\
  ((forall v, figures summary !! "served_energy_mwh" = Some v -> Js.truthy v = false) ->
   (forall v, figures summary !! "total_demand_mwh" = Some v -> Js.truthy v = false) ->
   servedEnergy summary = 0%float /\ scale = 1%float) /\
  (hasDetailed costRows = true ->
   exists bars axis,
     renderCostBreakdown (Some summary) costUnitMode costRows = Some (Cascade bars axis) /\
     let scaled := (fun st => PrimFloat.mul (value st) scale) <$> build_steps costRows in
     y bars = scaled ++ [sum_of scaled] /\
     (forall i, i < length scaled -> base bars !! i = Some (sum_of (take i scaled))) /\
     base bars !! length scaled = Some 0%float) /\
  (hasDetailed costRows = false ->
   exists axis,
     renderCostBreakdown (Some summary) costUnitMode costRows
     = Some (Stacked (bucket_bar (bucket_totals costRows) "fixed" scale)
                     (bucket_bar (bucket_totals costRows) "variable" scale)
                     (bucket_bar (bucket_totals costRows) "penalty" scale) axis)) /\
  renderCostBreakdown (Some served_1000) (Some "per_mwh")
    [mkCostRow None (Some "coal") (Some "var_om") (Some 100000%float)]
  = Some (Cascade (mkBars ["Coal Var O&M"; "Total System Cost"] [100%float; 100%float]
                          [0%float; 0%float] ["#7fb3ff"; "#f2a13b"] 100%float)
                  "USD per MWh served").
Proof.
  cbv zeta.
  assert (Hscale : forall mode,
             scale_of mode summary
             = if String.eqb mode "per_mwh" && PrimFloat.ltb 0%float (servedEnergy summary)
               then PrimFloat.div 1%float (servedEnergy summary) else 1%float) by done.
  assert (Hserved : forall served,
             figures summary !! "served_energy_mwh" = Some served ->
             PrimFloat.ltb 0%float served = true -> servedEnergy summary = served).
  { intros served Hs Hpos. rewrite servedEnergy_effective. unfold effective_energy.
    by rewrite Hs, (positive_is_truthy served Hpos). }
  split.
  { intros served Hs Hpos. split; [by apply Hserved|]. intros Hmode.
    rewrite Hscale, Hmode, (Hserved served Hs Hpos), Hpos. done. }
  split; [apply servedEnergy_effective|]. split.
  { intros Hmode Hpos. by rewrite Hscale, Hmode, Hpos. }
  split.
  { intros [Hmode|Hpos]; rewrite Hscale.
    - destruct (String.eqb_spec (default "total" costUnitMode) "per_mwh"); done.
    - by rewrite Hpos, andb_false_r. }
  split.
  { intros Hs Ht.
    assert (Hzero : servedEnergy summary = 0%float).
    { rewrite servedEnergy_effective. unfold effective_energy, Js.number_or_zero, Js.num_or.
      destruct (figures summary !! "served_energy_mwh") as [served|] eqn:Hserved'.
      - rewrite (Hs served eq_refl).
        destruct (figures summary !! "total_demand_mwh") as [total|]; [|done].
        by rewrite (Ht total eq_refl).
      - destruct (figures summary !! "total_demand_mwh") as [total|]; [|done].
        by rewrite (Ht total eq_refl). }
    split; [exact Hzero|]. rewrite Hscale, Hzero. by rewrite andb_false_r. }
  split.
  { intros Hdetailed. unfold renderCostBreakdown. rewrite Hdetailed. cbn [negb].
    eexists _, _. split; [reflexivity|]. cbv zeta.
    destruct (waterfall_arrays (scale_of (default "total" costUnitMode) summary)
                               (build_steps costRows)) as (_ & Hy & _ & Hbase & Hlast).
    done. }
  split.
  { intros Hcoarse. unfold renderCostBreakdown. rewrite Hcoarse. cbn [negb]. eauto. }
  vm_compute. reflexivity.
Qed.

(** C4 fails as stated: with served energy zero and total demand 4, the
    per-unit mode does not skip scaling, it multiplies every value by 1/4
    (a cost of 1000 is drawn as 250); and with served energy 49 a cost of
    49 is drawn as 49 times the reciprocal of 49, which is not 49 divided
    by 49. *)
Lemma zero_served_energy_still_scales :
  figures nothing_served !! "served_energy_mwh" = Some 0%float /\
  renderCostBreakdown (Some nothing_served) (Some "per_mwh") detailed_rows
  = Some (Cascade (mkBars ["Solar CAPEX (annualized)"; "Unserved Penalty"; "Total System Cost"]
                          [250%float; 2%float; 252%float]
                          [0%float; 250%float; 0%float]
                          ["#ffcf5c"; "#ff4d6d"; "#f2a13b"] 252%float)
                  "USD per MWh served") /\
  renderCostBreakdown (Some nothing_served) (Some "total") detailed_rows
  = Some (Cascade (mkBars ["Solar CAPEX (annualized)"; "Unserved Penalty"; "Total System Cost"]
                          [1000%float; 8%float; 1008%float]
                          [0%float; 1000%float; 0%float]
                          ["#ffcf5c"; "#ff4d6d"; "#f2a13b"] 1008%float)
                  "USD") /\
  (exists bars axis,
     renderCostBreakdown (Some served_49) (Some "per_mwh")
       [mkCostRow None (Some "coal") (Some "var_om") (Some 49%float)]
     = Some (Cascade bars axis) /\
     y bars !! 0 = Some (PrimFloat.mul 49%float (PrimFloat.div 1%float 49%float)) /\
     y bars !! 0 <> Some (PrimFloat.div 49%float 49%float)).
Proof.
  split; [vm_compute; reflexivity|]. split; [vm_compute; reflexivity|].
  split; [vm_compute; reflexivity|].
  eexists _, _. split; [vm_compute; reflexivity|]. cbn [y].
  split; [vm_compute; reflexivity|]. vm_compute. discriminate.
Qed.

End WaterfallFacts.

(** ** The comparison aggregator *)

Module ComparisonFacts.
Import Model Fetch Comparison FetchFacts.

Lemma task_cases (useApiBackend : bool) (e : Descriptor * JsonOutcome Summary) :
  delivers_no_null useApiBackend e ->
  (rejects useApiBackend e = true /\
   fulfilled_value (task useApiBackend (fst e) (snd e)) = None) \/
  (rejects useApiBackend e = false /\
   exists sm, fulfilled_value (task useApiBackend (fst e) (snd e)) = Some sm /\
              tagged useApiBackend e sm).
Proof.
  unfold delivers_no_null, rejects, tagged, task, request_url, tag_id.
  destruct useApiBackend.
  - destruct (fetchJson _ false (snd e)) as [[payload|]|m] eqn:Hfetch; intros Hdoc.
    + right. split; [done|]. eexists. split; [reflexivity|].
      exists payload. done.
    + done.
    + by left.
  - destruct (fetchJson _ false (snd e)) as [[payload|]|m] eqn:Hfetch; intros Hdoc.
    + right. split; [done|]. eexists. split; [reflexivity|].
      exists payload. done.
    + done.
    + by left.
Qed.

(** Every task settles: a row or a failure for each entry. *)
Lemma comparison_total (useApiBackend : bool)
    (scenarios : list (Descriptor * JsonOutcome Summary)) :
  let result := loadComparisonData useApiBackend scenarios in
  length (comparisonSummaries result) + comparisonLoadFailures result = length scenarios.
Proof.
  cbv zeta. unfold loadComparisonData. cbn [comparisonSummaries comparisonLoadFailures].
  rewrite length_fmap.
  assert (length (omap fulfilled_value
                    ((fun e => task useApiBackend (fst e) (snd e)) <$> scenarios))
          <= length scenarios); [|lia].
  induction scenarios as [|e scenarios IH]; [done|].
  cbn [fmap list_fmap omap list_omap length].
  destruct (fulfilled_value _); cbn [length]; lia.
Qed.

Lemma comparison_rows (useApiBackend : bool)
    (scenarios : list (Descriptor * JsonOutcome Summary)) :
  Forall (delivers_no_null useApiBackend) scenarios ->
  let summaries :=
    omap fulfilled_value ((fun e => task useApiBackend (fst e) (snd e)) <$> scenarios) in
  Forall2 (tagged useApiBackend)
          (filter (fun e => rejects useApiBackend e = false) scenarios) summaries /\
  length summaries + length (filter (fun e => rejects useApiBackend e = true) scenarios)
  = length scenarios.
Proof.
  cbv zeta. induction 1 as [|e scenarios Hdoc _ [IHrows IHlen]]; [by split; [constructor|]|].
  cbn [fmap list_fmap omap list_omap]. rewrite !filter_cons.
  destruct (task_cases useApiBackend e Hdoc) as [[Hrej Hnone]|[Hok (sm & Hsome & Htag)]].
  - rewrite Hnone, Hrej, decide_False, decide_True by done.
    split; [exact IHrows|]. cbn [length]. lia.
  - rewrite Hsome, Hok, decide_True, decide_False by done.
    split; [by constructor|]. cbn [length]. lia.
Qed.

(** C7 (as amended): the comparison aggregator never fails as a whole:
    every catalog entry ends as a row or as a counted failure.  For every
    catalog of n scenarios whose retrievals deliver no [null] document and
    of which k retrievals reject, the assembled list holds exactly the n
    minus k retrieved summaries, in catalog order, and the reported
    failure count is k.  Each row carries the figures of its summary and
    the label of its catalog entry (the tagged id when the entry has no
    label).  With static files the row is tagged with the id of its
    catalog entry; with the API it is tagged with the scenario id that the
    retrieved summary itself reports, and with the id of the catalog entry
    only when the summary reports none. *)
Theorem comparison_collects_successes (useApiBackend : bool)
    (scenarios : list (Descriptor * JsonOutcome Summary)) :
  Forall (delivers_no_null useApiBackend) scenarios ->
  let result := loadComparisonData useApiBackend scenarios in
  let k := length (filter (fun e => rejects useApiBackend e = true) scenarios) in
  length (comparisonSummaries result) + comparisonLoadFailures result = length scenarios /\
  comparisonLoadFailures result = k /\
  length (comparisonSummaries result) + k = length scenarios /\
  Forall2 (tagged useApiBackend)
          (filter (fun e => rejects useApiBackend e = false) scenarios)
          (comparisonSummaries result) /\
  (forall e sm, tagged false e sm ->
     scenario_id sm = Some (id (fst e)) /\
     scenario_label sm = Some (if Js.nonempty (label (fst e)) then label (fst e)
                               else id (fst e))) /\
  (forall e sm payload,
     tagged true e sm ->
     fetchJson (api_url "/api/summary" (id (fst e))) false (snd e) = Fulfilled (Some payload) ->
     figures sm = figures payload /\
     scenario_id sm = Some (Js.str_or (scenario_id payload) (id (fst e))) /\
     scenario_label sm
     = Some (Js.str_or (Some (label (fst e)))
                       (Js.str_or (scenario_id payload) (id (fst e))))).
Proof.
  intros Hdocs. cbv zeta.
  destruct (comparison_rows useApiBackend scenarios Hdocs) as [Hrows Hlen].
  split; [apply comparison_total|].
  unfold loadComparisonData. cbn [comparisonSummaries comparisonLoadFailures].
  split; [rewrite length_fmap; lia|]. split; [exact Hlen|]. split; [exact Hrows|].
  split.
  { intros e sm (payload & _ & _ & Hid & Hlabel). done. }
  intros e sm payload (payload' & Hfetch & Hfig & Hid & Hlabel) Hfetch'.
  unfold request_url in Hfetch. rewrite Hfetch in Hfetch'. injection Hfetch' as <-.
  split; [done|]. split; [done|]. rewrite Hlabel. unfold tag_id, Js.str_or at 1.
  done.
Qed.

Lemma comparison_collects_successes_witness :
  length (comparisonSummaries (loadComparisonData false five_scenarios)) = 4 /\
  comparisonLoadFailures (loadComparisonData false five_scenarios) = 1 /\
  (scenario_id <$> comparisonSummaries (loadComparisonData false five_scenarios))
  = [Some "base"; Some "nf70"; Some "nf90"; Some "nf95"].
Proof.
  assert (Hdocs : Forall (delivers_no_null false) five_scenarios).
  { repeat constructor; unfold delivers_no_null; vm_compute; discriminate. }
  destruct (comparison_collects_successes false five_scenarios Hdocs)
    as (_ & Hfailures & Hlength & _).
  cbv zeta in *. split; [|split].
  - vm_compute. reflexivity.
  - rewrite Hfailures. vm_compute. reflexivity.
  - vm_compute. reflexivity.
Defined.

(** C7 fails as stated: with the API backend, the summary retrieved for
    the catalog entry nf70 reports the id NF-70, and the comparison row is
    tagged with NF-70, not with the id of the entry it was retrieved for. *)
Lemma api_row_tagged_with_reported_id :
  comparisonSummaries (loadComparisonData true renamed_by_api)
  = [mkSummary (Some "NF-70") (Some "70% non-fossil") ∅] /\
  (id ∘ fst <$> renamed_by_api) = ["nf70"] /\
  (scenario_id <$> comparisonSummaries (loadComparisonData true renamed_by_api))
  <> (Some ∘ id ∘ fst <$> renamed_by_api).
Proof.
  split; [vm_compute; reflexivity|]. split; [reflexivity|].
  vm_compute. discriminate.
Qed.

End ComparisonFacts.

(** * Further properties of the code *)

(** ** Strings *)

Module StringFacts.

Lemma append_cons (c : ascii) (a b : string) :
  String.append (String c a) b = String c (String.append a b).
Proof. reflexivity. Qed.

Lemma list_of_append (a b : string) :
  list_ascii_of_string (String.append a b)
  = list_ascii_of_string a ++ list_ascii_of_string b.
Proof.
  induction a as [|c a IH]; [done|].
  rewrite append_cons. cbn [list_ascii_of_string app]. by rewrite IH.
Qed.

Lemma list_of_string_inj (a b : string) :
  list_ascii_of_string a = list_ascii_of_string b -> a = b.
Proof.
  intros H. rewrite <- (string_of_list_ascii_of_string a), H.
  apply string_of_list_ascii_of_string.
Qed.

Lemma append_cancel_l (s t t' : string) :
  String.append s t = String.append s t' -> t = t'.
Proof.
  induction s as [|c s IH]; [done|]. rewrite !append_cons. intros [= H]. by apply IH.
Qed.

Lemma append_cancel_r (s s' t : string) :
  String.append s t = String.append s' t -> s = s'.
Proof.
  intros H. apply list_of_string_inj.
  apply (f_equal list_ascii_of_string) in H. rewrite !list_of_append in H.
  by apply app_inv_tail in H.
Qed.

Lemma append_assoc (a b c : string) :
  String.append (String.append a b) c = String.append a (String.append b c).
Proof. induction a as [|x a IH]; [done|]. rewrite !append_cons. by rewrite IH. Qed.

Lemma length_append (a b : string) :
  String.length (String.append a b) = String.length a + String.length b.
Proof.
  induction a as [|x a IH]; [done|]. rewrite append_cons. cbn [String.length]. by rewrite IH.
Qed.

Lemma append_empty_r (a : string) : String.append a EmptyString = a.
Proof. induction a as [|x a IH]; [done|]. rewrite append_cons. by rewrite IH. Qed.

End StringFacts.

(** ** Retrievals and their addresses *)

Module FetchExtras.
Import Model Fetch Text StringFacts.

Lemma request_error_nonempty (url body : string) : request_error url body <> EmptyString.
Proof. unfold request_error. destruct body; cbn; done. Qed.

(** X1: [fetchJson] delivers [null] in two cases only: for an optional
    request whose response is not ok with status 404, and for a response
    that is ok and whose body is the document [null]: a response that is
    ok settles as the parsing of its body does, so a body that does not
    parse rejects.  On any other response that is not ok it rejects with
    the response's text, or with "Request failed: " and the address when
    the text is empty, so the message of such a rejection is never
    empty. *)
Theorem fetchJson_null_only_when_missing_or_null_body {A : Type} (url : string)
    (optional : bool) (o : JsonOutcome A) :
  (fetchJson url optional o = Fulfilled None <->
   exists resp, o = Answer resp /\
     ((optional = true /\ ok resp = false /\ http_status resp = 404%Z) \/
      (ok resp = true /\ payload resp = Fulfilled None))) /\
  (forall resp, o = Answer resp -> ok resp = true -> fetchJson url optional o = payload resp) /\
  (forall resp, o = Answer resp -> ok resp = false ->
                (optional = false \/ http_status resp <> 404%Z) ->
                fetchJson url optional o = Rejected (request_error url (text resp)) /\
                request_error url (text resp) <> EmptyString /\
                (text resp = EmptyString ->
                 request_error url (text resp) = String.append "Request failed: " url)).
Proof.
  split; [|split].
  - unfold fetchJson. destruct o as [m|resp]; [split; [done|by intros (? & ? & _)]|].
    destruct (ok resp) eqn:Hok; cbn [negb].
    + split; [intros Hnull; exists resp; by eauto|].
      intros (resp' & [= <-] & [(_ & Hok' & _)|[_ Hnull]]); congruence.
    + destruct optional; cbn [andb].
      * destruct (Z.eqb_spec (http_status resp) 404) as [Hs|Hs].
        -- split; [|done]. intros _. exists resp. split; [done|]. by left.
        -- split; [done|].
           intros (resp' & [= <-] & [(_ & _ & Hs')|[Hok' _]]); [done|congruence].
      * split; [done|].
        intros (resp' & [= <-] & [(? & _)|[Hok' _]]); [done|congruence].
  - intros resp -> Hok. unfold fetchJson. by rewrite Hok.
  - intros resp -> Hok Hcase. unfold fetchJson. rewrite Hok. cbn [negb].
    split; [|split; [apply request_error_nonempty|]].
    + destruct Hcase as [-> | Hs]; [done|].
      destruct optional; [|done]. cbn [andb].
      by destruct (Z.eqb_spec (http_status resp) 404).
    + intros ->. done.
Qed.

(** X2: [fetchCsvRows] delivers a table in two cases only: the empty table
    for an optional request answered with status 404, whether or not the
    parser is loaded; and, for a response that is ok, with the parser
    loaded and no parse error reported, the parsed rows (the empty table
    when the parser's data is not an array).  A response that is ok is
    rejected when the parser is missing, and when the parser reports
    errors it is rejected with a message that names the address and the
    first error. *)
Theorem fetchCsvRows_delivers_only_clean_tables {A : Type} (papa : bool) (url : string)
    (optional : bool) (o : CsvOutcome A) (rows : list A) :
  (fetchCsvRows papa url optional o = Fulfilled rows <->
   exists resp, o = Answer resp /\
     ((ok resp = false /\ optional = true /\ http_status resp = 404%Z /\ rows = []) \/
      (ok resp = true /\ papa = true /\ errors (payload resp) = [] /\
       rows = default [] (data (payload resp))))) /\
  (forall resp first more, o = Answer resp -> ok resp = true -> papa = true ->
     errors (payload resp) = first :: more ->
     fetchCsvRows papa url optional o
     = Rejected (String.append "CSV parse error ("
                   (String.append url (String.append "): " first)))).
Proof.
  split.
  - unfold fetchCsvRows. destruct o as [m|resp]; [split; [done|by intros (? & ? & _)]|].
    destruct (ok resp) eqn:Hok; cbn [negb].
    + destruct papa; cbn [negb].
      * destruct (errors (payload resp)) as [|first more] eqn:Herr.
        -- split.
           ++ intros [= <-]. exists resp. split; [done|]. right. by rewrite Herr.
           ++ intros (resp' & [= <-] & [(? & _)|(_ & _ & _ & ->)]); [congruence|done].
        -- split; [done|].
           intros (resp' & [= <-] & [(? & _)|(_ & _ & ? & _)]); congruence.
      * split; [done|]. intros (resp' & [= <-] & [(? & _)|(_ & ? & _)]); congruence.
    + destruct optional; cbn [andb].
      * destruct (Z.eqb_spec (http_status resp) 404) as [Hs|Hs].
        -- split.
           ++ intros [= <-]. exists resp. split; [done|]. by left.
           ++ intros (resp' & [= <-] & [(_ & _ & _ & ->)|(? & _)]); [done|congruence].
        -- split; [done|].
           intros (resp' & [= <-] & [(_ & _ & ? & _)|(? & _)]); congruence.
      * split; [done|]. intros (resp' & [= <-] & [(_ & ? & _)|(? & _)]); congruence.
  - intros resp first more -> Hok -> Herr. unfold fetchCsvRows.
    rewrite Hok, Herr. done.
Qed.

(** *** Addresses *)

Lemma escape_digits (c : ascii) :
  Js.unreserved (Js.hex_digit (nat_of_ascii c / 16)) = true /\
  Js.unreserved (Js.hex_digit (nat_of_ascii c mod 16)) = true /\
  hex_value (Js.hex_digit (nat_of_ascii c / 16)) = nat_of_ascii c / 16 /\
  hex_value (Js.hex_digit (nat_of_ascii c mod 16)) = nat_of_ascii c mod 16.
Proof.
  destruct c as [[] [] [] [] [] [] [] []]; vm_compute; done.
Qed.

Lemma encodeURIComponent_inj (s s' : string) :
  Js.encodeURIComponent s = Js.encodeURIComponent s' -> s = s'.
Proof.
  revert s'. induction s as [|c s IH]; intros [|c' s']; cbn [Js.encodeURIComponent].
  - done.
  - by destruct (Js.unreserved c').
  - by destruct (Js.unreserved c).
  - destruct (Js.unreserved c) eqn:Hc, (Js.unreserved c') eqn:Hc'.
    + intros [= -> H]. f_equal. by apply IH.
    + intros [= -> _]. by vm_compute in Hc.
    + intros [= <- _]. by vm_compute in Hc'.
    + intros [= H1 H2 H]. f_equal; [|by apply IH].
      destruct (escape_digits c) as (_ & _ & Hhi & Hlo).
      destruct (escape_digits c') as (_ & _ & Hhi' & Hlo').
      change (Js.hex_digit (nat_of_ascii c / 16) = Js.hex_digit (nat_of_ascii c' / 16)) in H1.
      change (Js.hex_digit (nat_of_ascii c mod 16) = Js.hex_digit (nat_of_ascii c' mod 16))
        in H2.
      rewrite H1, Hhi' in Hhi. rewrite H2, Hlo' in Hlo.
      rewrite <- (ascii_nat_embedding c), <- (ascii_nat_embedding c'). f_equal.
      rewrite (Nat.div_mod_eq (nat_of_ascii c) 16), (Nat.div_mod_eq (nat_of_ascii c') 16).
      congruence.
Qed.

(** X3: the address of a request determines the scenario it is for: two
    scenario ids that give the same API address for an endpoint, or the
    same static address for a file, are the same id. *)
Theorem request_address_determines_scenario (endpoint file id1 id2 : string) :
  (api_url endpoint id1 = api_url endpoint id2 -> id1 = id2) /\
  (static_url id1 file = static_url id2 file -> id1 = id2).
Proof.
  split.
  - unfold api_url. intros H. apply append_cancel_l, append_cancel_l in H.
    by apply encodeURIComponent_inj.
  - unfold static_url, scenarioStaticBasePath, STATIC_OUTPUTS_DIR.
    destruct (String.eqb_spec id1 "base") as [->|H1],
             (String.eqb_spec id2 "base") as [->|H2]; [done| | |].
    + rewrite !append_assoc. intros H. apply append_cancel_l in H.
      apply (f_equal String.length) in H. rewrite !length_append in H. cbn in H. lia.
    + rewrite !append_assoc. intros H. apply append_cancel_l in H.
      apply (f_equal String.length) in H. rewrite !length_append in H. cbn in H. lia.
    + rewrite !append_assoc. intros H.
      apply append_cancel_l, append_cancel_l in H. by apply append_cancel_r in H.
Qed.

Lemma encodeURIComponent_safe (s : string) :
  string_forall (fun c => Js.unreserved c || Ascii.eqb c "%") (Js.encodeURIComponent s) = true.
Proof.
  induction s as [|c s IH]; [done|]. cbn [Js.encodeURIComponent].
  destruct (Js.unreserved c) eqn:Hc; cbn [string_forall].
  - by rewrite Hc, IH.
  - destruct (escape_digits c) as (Hhi & Hlo & _). by rewrite Hhi, Hlo, IH.
Qed.

(** X4: the scenario id is written into an API address with unreserved
    characters and percent signs only, whatever the id holds: none of the
    characters that separate the parts of an address (the ampersand, the
    equals sign, the question mark, the hash, the slash, the space) occurs
    in the encoded id, and an id made of unreserved characters is written
    as it is. *)
Theorem encoded_id_cannot_alter_the_query (scenarioId : string) :
  string_forall (fun c => Js.unreserved c || Ascii.eqb c "%")
                (Js.encodeURIComponent scenarioId) = true /\
  string_forall (fun c => negb (bool_decide (c ∈ ["&"; "="; "?"; "#"; "/"; " "]%char)))
                (Js.encodeURIComponent scenarioId) = true /\
  (string_forall Js.unreserved scenarioId = true ->
   Js.encodeURIComponent scenarioId = scenarioId).
Proof.
  split; [apply encodeURIComponent_safe|]. split.
  - pose proof (encodeURIComponent_safe scenarioId) as H.
    induction (Js.encodeURIComponent scenarioId) as [|c s IH]; [done|].
    cbn [string_forall] in *. apply andb_true_iff in H as [Hc Hs].
    rewrite (IH Hs), andb_true_r. apply negb_true_iff, bool_decide_eq_false.
    intros Hin. repeat (apply elem_of_cons in Hin as [->|Hin]; [by vm_compute in Hc|]).
    by apply elem_of_nil in Hin.
  - induction scenarioId as [|c s IH]; [done|]. cbn [string_forall Js.encodeURIComponent].
    intros [Hc Hs]%andb_true_iff. by rewrite Hc, IH.
Qed.

End FetchExtras.

(** ** The assumptions line *)

Module AssumptionsFacts.
Import Text Assumptions.

Lemma trim_end_cons (c : ascii) (s : string) :
  Js.trim_end (String c s) =
  match Js.trim_end s with
  | EmptyString => if Js.is_space c then EmptyString else String c EmptyString
  | kept => String c kept
  end.
Proof. reflexivity. Qed.

Lemma trim_start_no_leading (s : string) : starts_with_space (Js.trim_start s) = false.
Proof.
  induction s as [|c s IH]; [done|]. cbn [Js.trim_start].
  destruct (Js.is_space c) eqn:Hc; [done|]. exact Hc.
Qed.

Lemma trim_start_fixed (s : string) : starts_with_space s = false -> Js.trim_start s = s.
Proof. destruct s as [|c s]; [done|]. cbn. by intros ->. Qed.

Lemma trim_end_no_trailing (s : string) : ends_with_space (Js.trim_end s) = false.
Proof.
  induction s as [|c s IH]; [done|]. rewrite trim_end_cons.
  destruct (Js.trim_end s) as [|c' kept].
  - destruct (Js.is_space c) eqn:Hc; [done|]. exact Hc.
  - exact IH.
Qed.

Lemma trim_end_fixed (s : string) : ends_with_space s = false -> Js.trim_end s = s.
Proof.
  induction s as [|c s IH]; [done|]. rewrite trim_end_cons. destruct s as [|c' s'].
  - cbn. by intros ->.
  - intros H. by rewrite (IH H).
Qed.

Lemma trim_end_keeps_head (s : string) :
  starts_with_space s = false -> starts_with_space (Js.trim_end s) = false.
Proof.
  destruct s as [|c s]; [done|]. rewrite trim_end_cons. cbn [starts_with_space]. intros Hc.
  destruct (Js.trim_end s); [by rewrite Hc|done].
Qed.

Lemma trim_no_edges (s : string) :
  starts_with_space (Js.trim s) = false /\ ends_with_space (Js.trim s) = false.
Proof.
  unfold Js.trim. split; [|apply trim_end_no_trailing].
  apply trim_end_keeps_head, trim_start_no_leading.
Qed.

Lemma trim_fixed (s : string) :
  starts_with_space s = false -> ends_with_space s = false -> Js.trim s = s.
Proof. intros Hs He. unfold Js.trim. rewrite (trim_start_fixed s Hs). by apply trim_end_fixed. Qed.


(** Printable characters. *)

Lemma printable_space (c : ascii) : printable c = true -> Js.is_space c = true -> c = " "%char.
Proof. destruct c as [[] [] [] [] [] [] [] []]; vm_compute; done. Qed.

Lemma all_printable_keep (s : string) : all_printable (keep_printable s) = true.
Proof.
  induction s as [|c s IH]; [done|]. cbn [keep_printable].
  destruct (printable c) eqn:Hc; [|done]. cbn [all_printable]. by rewrite Hc.
Qed.

Lemma keep_printable_fixed (s : string) : all_printable s = true -> keep_printable s = s.
Proof.
  induction s as [|c s IH]; [done|]. cbn [all_printable keep_printable].
  intros [Hc Hs]%andb_true_iff. by rewrite Hc, IH.
Qed.

Lemma all_printable_collapse (b : bool) (s : string) :
  all_printable s = true -> all_printable (collapse_spaces b s) = true.
Proof.
  revert b. induction s as [|c s IH]; intros b; [done|].
  cbn [all_printable collapse_spaces]. intros [Hc Hs]%andb_true_iff.
  destruct (Js.is_space c); [destruct b|]; cbn [all_printable]; rewrite ?Hc, ?IH; done.
Qed.

Lemma all_printable_trim_start (s : string) :
  all_printable s = true -> all_printable (Js.trim_start s) = true.
Proof.
  induction s as [|c s IH]; [done|]. cbn [Js.trim_start]. destruct (Js.is_space c); [|done].
  cbn [all_printable]. intros [_ Hs]%andb_true_iff. by apply IH.
Qed.

Lemma all_printable_trim_end (s : string) :
  all_printable s = true -> all_printable (Js.trim_end s) = true.
Proof.
  induction s as [|c s IH]; [done|]. rewrite trim_end_cons. cbn [all_printable].
  intros [Hc Hs]%andb_true_iff. specialize (IH Hs).
  destruct (Js.trim_end s) as [|c' kept].
  - destruct (Js.is_space c); [done|]. cbn. by rewrite Hc.
  - change (printable c && all_printable (String c' kept) = true). by rewrite Hc, IH.
Qed.

Lemma single_spaced_collapse (b : bool) (s : string) :
  single_spaced b (collapse_spaces b s) = true.
Proof.
  revert b. induction s as [|c s IH]; intros b; [done|]. cbn [collapse_spaces].
  destruct (Js.is_space c) eqn:Hc.
  - destruct b; [apply IH|]. cbn [single_spaced].
    change (Js.is_space " ") with true. cbn [negb andb]. apply IH.
  - cbn [single_spaced]. rewrite Hc. apply IH.
Qed.

Lemma collapse_fixed (b : bool) (s : string) :
  all_printable s = true -> single_spaced b s = true -> collapse_spaces b s = s.
Proof.
  revert b. induction s as [|c s IH]; intros b; [done|].
  cbn [all_printable single_spaced collapse_spaces]. intros [Hc Hs]%andb_true_iff.
  destruct (Js.is_space c) eqn:Hsp.
  - intros [Hb Hrest]%andb_true_iff. apply negb_true_iff in Hb as ->.
    rewrite (printable_space c Hc Hsp). by rewrite IH.
  - intros Hrest. by rewrite IH.
Qed.

Lemma single_spaced_weaken (s : string) :
  single_spaced true s = true -> single_spaced false s = true.
Proof. destruct s as [|c s]; [done|]. cbn. by destruct (Js.is_space c). Qed.

Lemma single_spaced_trim_start (b : bool) (s : string) :
  single_spaced b s = true -> single_spaced false (Js.trim_start s) = true.
Proof.
  revert b. induction s as [|c s IH]; intros b; [done|].
  cbn [Js.trim_start single_spaced]. destruct (Js.is_space c) eqn:Hc.
  - intros [_ Hrest]%andb_true_iff. by eapply IH.
  - intros Hrest. cbn [single_spaced]. by rewrite Hc.
Qed.

Lemma single_spaced_trim_end (b : bool) (s : string) :
  single_spaced b s = true -> single_spaced b (Js.trim_end s) = true.
Proof.
  revert b. induction s as [|c s IH]; intros b; [done|]. rewrite trim_end_cons.
  cbn [single_spaced]. intros H.
  destruct (Js.trim_end s) as [|c' kept] eqn:Hend.
  - destruct (Js.is_space c) eqn:Hc; [done|]. cbn [single_spaced]. by rewrite Hc.
  - change (single_spaced b (String c (String c' kept)))
      with (if Js.is_space c then negb b && single_spaced true (String c' kept)
            else single_spaced false (String c' kept)).
    destruct (Js.is_space c).
    + apply andb_true_iff in H as [-> Hrest]. by apply IH.
    + by apply IH.
Qed.

Lemma cleanText_tidy (value : option string) : tidy (cleanText value) = true.
Proof.
  unfold tidy, cleanText.
  set (t := collapse_spaces false (keep_printable (default EmptyString value))).
  assert (Hp : all_printable t = true) by apply all_printable_collapse, all_printable_keep.
  assert (Hs : single_spaced false t = true) by apply single_spaced_collapse.
  destruct (trim_no_edges t) as [-> ->]. cbn [negb]. rewrite !andb_true_r.
  unfold Js.trim. apply andb_true_iff. split.
  - by apply all_printable_trim_end, all_printable_trim_start.
  - by eapply single_spaced_trim_end, single_spaced_trim_start.
Qed.

Lemma cleanText_fixed (s : string) : tidy s = true -> cleanText (Some s) = s.
Proof.
  unfold tidy, cleanText. change (default EmptyString (Some s)) with s.
  intros [[[Hp Hs]%andb_true_iff Hl%negb_true_iff]%andb_true_iff Hr%negb_true_iff]%andb_true_iff.
  rewrite (keep_printable_fixed s Hp), (collapse_fixed false s Hp Hs). by apply trim_fixed.
Qed.

Lemma filter_trim_start (s : string) :
  string_filter (fun c => negb (Js.is_space c)) (Js.trim_start s)
  = string_filter (fun c => negb (Js.is_space c)) s.
Proof.
  induction s as [|c s IH]; [done|]. cbn [Js.trim_start string_filter].
  destruct (Js.is_space c) eqn:Hc; cbn [negb]; [exact IH|].
  cbn [string_filter]. by rewrite Hc.
Qed.

Lemma filter_trim_end (s : string) :
  string_filter (fun c => negb (Js.is_space c)) (Js.trim_end s)
  = string_filter (fun c => negb (Js.is_space c)) s.
Proof.
  induction s as [|c s IH]; [done|]. rewrite trim_end_cons. cbn [string_filter]. rewrite <- IH.
  destruct (Js.trim_end s) as [|c' kept].
  - destruct (Js.is_space c) eqn:Hc; cbn [negb string_filter]; [done|]. by rewrite Hc.
  - done.
Qed.

Lemma filter_collapse (b : bool) (s : string) :
  string_filter (fun c => negb (Js.is_space c)) (collapse_spaces b s)
  = string_filter (fun c => negb (Js.is_space c)) s.
Proof.
  revert b. induction s as [|c s IH]; intros b; [done|]. cbn [collapse_spaces string_filter].
  destruct (Js.is_space c) eqn:Hc; cbn [negb].
  - destruct b; [apply IH|]. cbn [string_filter].
    change (Js.is_space " ") with true. cbn [negb]. apply IH.
  - cbn [string_filter]. rewrite Hc. cbn [negb]. by rewrite IH.
Qed.

Lemma filter_keep_printable (s : string) :
  string_filter (fun c => negb (Js.is_space c)) (keep_printable s)
  = string_filter (fun c => printable c && negb (Js.is_space c)) s.
Proof.
  induction s as [|c s IH]; [done|]. cbn [keep_printable string_filter].
  destruct (printable c); cbn [andb]; [|exact IH].
  cbn [string_filter]. by rewrite IH.
Qed.

(** X5: [cleanText] returns a text in tidy form: printable ASCII
    characters only, no white space other than single spaces between two
    other characters, and none at either end.  A text is left as it is
    exactly when it is tidy already, so cleaning twice is cleaning once.
    The characters of the result other than spaces are the printable
    characters other than spaces of the cell, in order: nothing visible is
    lost, added or moved. *)
Theorem cleanText_gives_the_tidy_form (value : option string) (s : string) :
  tidy (cleanText value) = true /\
  (cleanText (Some s) = s <-> tidy s = true) /\
  cleanText (Some (cleanText value)) = cleanText value /\
  string_filter (fun c => negb (Js.is_space c)) (cleanText value)
  = string_filter (fun c => printable c && negb (Js.is_space c)) (default EmptyString value).
Proof.
  split; [apply cleanText_tidy|]. split; [|split].
  - split; [|apply cleanText_fixed]. intros <-. apply cleanText_tidy.
  - apply cleanText_fixed, cleanText_tidy.
  - unfold cleanText, Js.trim.
    by rewrite filter_trim_end, filter_trim_start, filter_collapse, filter_keep_printable.
Qed.

End AssumptionsFacts.

(** ** Labels and the start slider *)

Module PageFacts.
Import Model Temporal Page.

Lemma find_first_by_id (scenarios : list Descriptor) (wanted : string) :
  match List.find (fun s => String.eqb (id s) wanted) scenarios with
  | Some row =>
      exists before after,
        scenarios = before ++ row :: after /\ id row = wanted /\ wanted ∉ id <$> before
  | None => wanted ∉ id <$> scenarios
  end.
Proof.
  induction scenarios as [|s scenarios IH]; cbn [List.find].
  - apply not_elem_of_nil.
  - destruct (String.eqb_spec (id s) wanted) as [Heq|Hne].
    + exists [], scenarios. split; [done|]. split; [done|]. apply not_elem_of_nil.
    + destruct (List.find _ scenarios) as [row|].
      * destruct IH as (before & after & -> & Hid & Hnot).
        exists (s :: before), after. split; [done|]. split; [done|].
        cbn [fmap list_fmap]. rewrite not_elem_of_cons. split; [congruence|done].
      * cbn [fmap list_fmap]. rewrite not_elem_of_cons. split; [congruence|done].
Qed.

(** X6: [scenarioLabelById] returns the id itself when no scenario of the
    catalog carries it, and otherwise the label of the first scenario that
    carries it; when no id occurs twice in the catalog, the label of every
    scenario is found through its id. *)
Theorem scenarioLabelById_finds_first_entry (scenarios : list Descriptor) (wanted : string) :
  (wanted ∉ id <$> scenarios -> scenarioLabelById scenarios wanted = wanted) /\
  (forall before row after,
      scenarios = before ++ row :: after -> id row = wanted -> wanted ∉ id <$> before ->
      scenarioLabelById scenarios wanted = label row) /\
  (NoDup (id <$> scenarios) ->
   forall row, row ∈ scenarios -> scenarioLabelById scenarios (id row) = label row).
Proof.
  assert (Hfirst : forall before row after,
      scenarios = before ++ row :: after -> id row = wanted -> wanted ∉ id <$> before ->
      scenarioLabelById scenarios wanted = label row).
  { intros before row after -> Hid Hnot. unfold scenarioLabelById.
    pose proof (find_first_by_id (before ++ row :: after) wanted) as Hfind.
    destruct (List.find _ _) as [found|].
    - destruct Hfind as (before' & after' & Heq & Hid' & Hnot').
      assert (before = before') as <-.
      { clear -Heq Hid Hid' Hnot Hnot'. revert before' Heq Hnot'.
        induction before as [|b before IH]; intros [|b' before'] Heq Hnot'.
        - done.
        - injection Heq as -> _. destruct Hnot'. cbn. apply elem_of_cons. by left.
        - injection Heq as <- _. destruct Hnot. cbn. apply elem_of_cons. by left.
        - injection Heq as -> Heq. f_equal. apply IH; [|done|].
          + intros Hin. apply Hnot. cbn. apply elem_of_cons. by right.
          + intros Hin. apply Hnot'. cbn. apply elem_of_cons. by right. }
      apply app_inv_head in Heq. by injection Heq as ->.
    - destruct Hfind. rewrite fmap_app. apply elem_of_app. right. cbn. rewrite Hid. apply elem_of_cons. by left. }
  split; [|split; [exact Hfirst|]].
  - intros Hnot. unfold scenarioLabelById.
    pose proof (find_first_by_id scenarios wanted) as Hfind.
    destruct (List.find _ _) as [found|]; [|done].
    destruct Hfind as (before & after & -> & Hid & _). destruct Hnot.
    rewrite fmap_app. apply elem_of_app. right. cbn. rewrite Hid. apply elem_of_cons. by left.
  - clear Hfirst. intros Hnd row Hin. unfold scenarioLabelById.
    pose proof (find_first_by_id scenarios (id row)) as Hfind.
    destruct (List.find _ _) as [found|].
    + destruct Hfind as (before & after & -> & Hid & Hnot).
      f_equal. rewrite fmap_app in Hnd. cbn [fmap list_fmap] in Hnd.
      apply NoDup_app in Hnd as (_ & Hdisj & Hnd2). apply NoDup_cons in Hnd2 as [Hfresh _].
      apply elem_of_app in Hin as [Hin|Hin].
      * destruct Hnot. apply list_elem_of_fmap. by exists row.
      * apply elem_of_cons in Hin as [->|Hin]; [done|].
        destruct Hfresh. rewrite Hid. apply list_elem_of_fmap. by exists row.
    + destruct Hfind. apply list_elem_of_fmap. by exists row.
Qed.

Lemma getWindowedRows_full {A : Type} (hourly : list A) (windowSize start : Z) :
  (0 <= windowSize)%Z -> (0 <= start)%Z ->
  (start <= Z.max 0 (Z.of_nat (length hourly) - windowSize))%Z ->
  getWindowedRows hourly windowSize start
  = take (Z.to_nat windowSize) (drop (Z.to_nat start) hourly).
Proof.
  intros Hw Hs Hmax. unfold getWindowedRows, Js.slice, Js.relative_index.
  set (len := Z.of_nat (length hourly)) in *.
  assert (Hlen : (0 <= len)%Z) by (unfold len; lia).
  destruct (Z.ltb_spec start 0); [lia|].
  destruct (Z.ltb_spec (Z.min len (start + windowSize)) 0); [lia|].
  destruct (Z.le_gt_cases windowSize len) as [Hfit|Hbig].
  - replace (Z.max _ 0) with windowSize by lia. by replace (Z.min start len) with start by lia.
  - assert (start = 0%Z) as -> by lia.
    replace (Z.min 0 len) with 0%Z by lia. cbn [Z.to_nat drop].
    replace (Z.max _ 0) with len by lia. unfold len in *. rewrite Nat2Z.id.
    rewrite !take_ge by (rewrite length_drop; lia). done.
Qed.

(** X7: after [updateSliderMax], for a window size and a slider value
    that are not negative, the slider value lies between zero and the new
    maximum, and it is unchanged when it was within the maximum; the view
    that [getWindowedRows] takes at that start is full: it holds exactly
    the window size of rows, or all the rows when there are fewer. *)
Theorem slider_clamp_keeps_window_full {A : Type} (hourly : list A) (windowSize : Z)
    (startSlider : Slider) :
  (0 <= windowSize)%Z -> (0 <= slider_value startSlider)%Z ->
  let after := updateSliderMax hourly windowSize startSlider in
  (0 <= slider_value after <= slider_max after)%Z /\
  (slider_value startSlider <= slider_max after ->
   slider_value after = slider_value startSlider)%Z /\
  getWindowedRows hourly windowSize (slider_value after)
  = take (Z.to_nat windowSize) (drop (Z.to_nat (slider_value after)) hourly) /\
  length (getWindowedRows hourly windowSize (slider_value after))
  = Nat.min (Z.to_nat windowSize) (length hourly).
Proof.
  intros Hw Hv after.
  assert (Hrange : (0 <= slider_value after <= slider_max after)%Z).
  { unfold after, updateSliderMax. cbn [slider_value slider_max].
    destruct (Z.ltb_spec (Z.max 0 (Z.of_nat (length hourly) - windowSize))
                         (slider_value startSlider)); lia. }
  assert (Hmax : slider_max after = Z.max 0 (Z.of_nat (length hourly) - windowSize)) by done.
  split; [exact Hrange|]. split.
  { unfold after, updateSliderMax. cbn [slider_value slider_max].
    destruct (Z.ltb_spec (Z.max 0 (Z.of_nat (length hourly) - windowSize))
                         (slider_value startSlider)); lia. }
  rewrite getWindowedRows_full by lia. split; [done|].
  rewrite length_take, length_drop. lia.
Qed.

Lemma slider_clamp_keeps_window_full_witness :
  let after := updateSliderMax [1; 2; 3; 4; 5] 3 (mkSlider 9 4) in
  slider_value after = 2%Z /\
  getWindowedRows [1; 2; 3; 4; 5] 3 (slider_value after) = [3; 4; 5].
Proof.
  pose proof (slider_clamp_keeps_window_full [1; 2; 3; 4; 5] 3 (mkSlider 9 4)
                ltac:(lia) ltac:(cbn; lia)) as H.
  cbv zeta in *. destruct H as (_ & _ & H & _). split; [reflexivity|]. rewrite H. reflexivity.
Defined.

End PageFacts.

(** ** The daily rollup and the two time charts *)

Module TemporalExtras.
Import Model Temporal Page TemporalFacts.

Lemma add_keys_length (r a : loc) (keys : list string) (h : heap) :
  length (foldl (add_key r a) h keys) = length h.
Proof.
  revert h. induction keys as [|k keys IH]; intros h; [done|].
  cbn [foldl]. rewrite IH. unfold add_key. apply length_alter.
Qed.

Lemma seq_snoc (n k : nat) : seq n k ++ [n + k] = seq n (S k).
Proof. by rewrite seq_S. Qed.

Lemma daily_step_alloc (st st' : LoopState) (r : loc) (n : nat) :
  daily_step st r = Some st' -> n <= length (store st) ->
  grouped st = seq n (length (store st) - n) ->
  grouped st' = seq n (length (store st') - n) /\
  length (store st) <= length (store st') <= S (length (store st)) /\
  (day st = None -> length (store st') = S (length (store st))).
Proof.
  unfold daily_step. intros Hstep Hn Hg.
  case_bool_decide as Hday.
  - destruct (acc st) as [a|]; [|done]. injection Hstep as <-. cbn [store grouped].
    unfold set_soc, add_key. rewrite !length_alter.
    split; [done|]. split; [lia|]. intros Hnone. by rewrite Hnone in Hday.
  - cbn [acc store grouped day] in Hstep. injection Hstep as <-. cbn [store grouped].
    unfold set_soc, add_key. rewrite !length_alter, length_app. cbn [length].
    split; [|lia]. rewrite Hg.
    replace (length (store st) + 1 - n) with (S (length (store st) - n)) by lia.
    rewrite <- seq_snoc. do 2 f_equal. lia.
Qed.

Lemma daily_loop_alloc (rows : list loc) (st st' : LoopState) (n : nat) :
  daily_loop st rows = Some st' -> n <= length (store st) ->
  grouped st = seq n (length (store st) - n) ->
  grouped st' = seq n (length (store st') - n) /\
  length (store st) <= length (store st') <= length (store st) + length rows.
Proof.
  revert st. induction rows as [|r rows IH]; intros st; cbn [daily_loop].
  - intros [= <-] Hn Hg. split; [done|]. cbn [length]. lia.
  - destruct (daily_step st r) as [st1|] eqn:Hstep; [|done]. intros Hloop Hn Hg.
    destruct (daily_step_alloc _ _ _ _ Hstep Hn Hg) as (Hg1 & Hlen1 & _).
    destruct (IH st1 Hloop ltac:(lia) Hg1) as [Hg' Hlen']. split; [done|].
    cbn [length]. lia.
Qed.

(** X8: when [aggregateDaily] returns, the rows it returns are objects
    it has created: they are the locations that follow the store it was
    given, one after the other; the store has grown by exactly that many
    objects; there are at most as many as input rows, and there is none
    exactly when the input is empty. *)
Theorem aggregateDaily_allocates_one_object_per_row_returned (h : heap) (rows : list loc)
    (h' : heap) (out : list loc) :
  aggregateDaily h rows = Some (h', out) ->
  out = seq (length h) (length out) /\
  length h' = length h + length out /\
  length out <= length rows /\
  (out = [] <-> rows = []).
Proof.
  unfold aggregateDaily. destruct rows as [|r rows]; [by intros [= <- <-]|].
  destruct (daily_loop _ _) as [st|] eqn:Hloop; [|done]. intros [= <- <-].
  cbn [daily_loop] in Hloop.
  destruct (daily_step (mkLoop h [] None None) r) as [st1|] eqn:Hstep; [|done].
  destruct (daily_step_alloc _ _ _ (length h) Hstep) as (Hg1 & Hlen1 & Hfirst).
  { done. } { cbn [store grouped]. by rewrite Nat.sub_diag. }
  specialize (Hfirst eq_refl). cbn [store] in Hlen1, Hfirst.
  destruct (daily_loop_alloc _ _ _ (length h) Hloop) as [Hg Hlen]; [lia|done|].
  assert (Hout : length (grouped st) = length (store st) - length h).
  { by rewrite Hg, length_seq. }
  split; [by rewrite Hout|]. split; [lia|]. split; [cbn [length]; lia|].
  split; [|done]. intros Hnil. rewrite Hnil in Hout. cbn [length] in Hout. lia.
Qed.

Lemma aggregateDaily_allocates_one_object_per_row_returned_witness :
  exists h' out,
    aggregateDaily two_days [0; 1; 2] = Some (h', out) /\ out = [3; 4] /\ length h' = 5.
Proof.
  destruct (aggregateDaily_spec two_days [0; 1; 2]) as (h' & out & Hrun & _).
  { repeat constructor. }
  exists h', out. split; [exact Hrun|].
  destruct (aggregateDaily_allocates_one_object_per_row_returned two_days [0; 1; 2] h' out
              Hrun) as (Hfresh & Hgrown & _).
  vm_compute in Hrun. injection Hrun as <- <-. split; vm_compute; reflexivity.
Defined.

(** *** The two charts of the daily view *)

Lemma readings_of_totals (key : string) (groups : list (list Row)) (outs : list Row) :
  key ∈ DAILY_SUM_KEYS -> Forall2 summarizes groups outs ->
  reading key <$> outs = plotted_total key <$> groups.
Proof.
  intros Hkey. induction 1 as [|g o groups outs Hs _ IH]; [done|].
  cbn [fmap list_fmap]. f_equal; [|exact IH].
  destruct Hs as (_ & Hsum & _). unfold reading, plotted_total. by rewrite (Hsum key Hkey).
Qed.

Lemma readings_of_soc (groups : list (list Row)) (outs : list Row) :
  Forall2 summarizes groups outs ->
  reading SOC_KEY <$> outs = plotted_soc <$> groups.
Proof.
  induction 1 as [|g o groups outs Hs _ IH]; [done|].
  cbn [fmap list_fmap]. f_equal; [|exact IH].
  destruct Hs as (_ & _ & Hsoc). unfold reading, plotted_soc. by rewrite Hsoc.
Qed.

Lemma dispatch_trace (rows : list Row) (isDaily : bool) (key name : string) :
  (key, name) ∈ dispatch_series ->
  trace_values (renderDispatch rows isDaily) name = Some (reading key <$> rows).
Proof.
  unfold dispatch_series. intros Hin.
  repeat (apply elem_of_cons in Hin as [[= -> ->]|Hin]; [reflexivity|]).
  by apply elem_of_nil in Hin.
Qed.

Lemma dispatch_series_summed (key name : string) :
  (key, name) ∈ dispatch_series -> key ∈ DAILY_SUM_KEYS.
Proof.
  unfold dispatch_series. intros Hin.
  repeat (apply elem_of_cons in Hin as [[= -> ->]|Hin];
          [apply (bool_decide_unpack _); vm_compute; exact I|]).
  by apply elem_of_nil in Hin.
Qed.

Lemma window_rows_valid (h : heap) (hourly : list loc) (windowSize start : Z) :
  Forall (fun r => r < length h) hourly ->
  Forall (fun r => r < length h) (getWindowedRows hourly windowSize start).
Proof.
  intros Hvalid. unfold getWindowedRows, Js.slice. by apply Forall_take, Forall_drop.
Qed.

(** X9: with the full-year window selected, [renderWindow] draws days.
    Every series of the two charts has as abscissa the days of the window,
    one for each change of day; each series of the dispatch chart that
    plots a column shows the day totals of that column; the battery charge
    series shows the day totals of the charge, negated; the battery chart
    shows the state of charge at the end of each day and the day totals
    of the net output; the axis titles are those of the daily view. *)
Theorem daily_charts_plot_day_totals (h : heap) (hourly : list loc) (start : Z) :
  Forall (fun r => r < length h) hourly ->
  let window := deref h <$> getWindowedRows hourly FULL_YEAR_HOURS start in
  exists h' dispatch battery,
    renderWindowPlots h hourly FULL_YEAR_HOURS start = Some (h', dispatch, battery) /\
    Forall (fun t => trace_x t = day_changes None window)
           (traces dispatch ++ traces battery) /\
    (forall key name, (key, name) ∈ dispatch_series ->
       trace_values dispatch name = Some (plotted_total key <$> runs window)) /\
    trace_values dispatch "Battery Charge (-)"
    = Some ((fun g => PrimFloat.mul (plotted_total "battery_charge_mwh" g) (-1)%float)
              <$> runs window) /\
    trace_values battery "State of Charge" = Some (plotted_soc <$> runs window) /\
    trace_values battery "Battery Net Output"
    = Some (plotted_total "battery_net_mwh" <$> runs window) /\
    xaxis_title dispatch = "Day" /\ yaxis_title dispatch = "MWh per day" /\
    xaxis_title battery = "Day" /\ yaxis2_title battery = Some "Net Output (MWh/day)".
Proof.
  intros Hvalid window.
  destruct (aggregateDaily_spec h (getWindowedRows hourly FULL_YEAR_HOURS start))
    as (h' & out & Hagg & _ & Hsum); [by apply window_rows_valid|].
  fold window in Hsum.
  exists h', (renderDispatch (deref h' <$> out) true), (renderBattery (deref h' <$> out) true).
  split.
  { unfold renderWindowPlots, renderWindow.
    change (isFullYearWindowSelected FULL_YEAR_HOURS) with true. cbv iota. by rewrite Hagg. }
  pose proof (summarizes_opening _ _ Hsum) as Hx. rewrite <- day_changes_runs in Hx.
  split.
  { unfold renderDispatch, renderBattery, stacks. cbn [traces fmap list_fmap app].
    rewrite Hx. repeat (apply Forall_cons; split; [reflexivity|]). constructor. }
  split.
  { intros key name Hin. rewrite (dispatch_trace _ _ key name Hin).
    f_equal. apply readings_of_totals; [by eapply dispatch_series_summed|done]. }
  split.
  { change (trace_values (renderDispatch (deref h' <$> out) true) "Battery Charge (-)")
      with (Some ((fun r => PrimFloat.mul (reading "battery_charge_mwh" r) (-1)%float)
                    <$> (deref h' <$> out))).
    f_equal.
    assert (Hkey : "battery_charge_mwh" ∈ DAILY_SUM_KEYS)
      by (apply (bool_decide_unpack _); vm_compute; exact I).
    pose proof (readings_of_totals "battery_charge_mwh" _ _ Hkey Hsum) as Hcharge.
    apply (f_equal (fmap (fun v => PrimFloat.mul v (-1)%float))) in Hcharge.
    rewrite <- !list_fmap_compose in Hcharge. rewrite <- !list_fmap_compose.
    exact Hcharge. }
  split.
  { change (trace_values (renderBattery (deref h' <$> out) true) "State of Charge")
      with (Some (reading SOC_KEY <$> (deref h' <$> out))).
    f_equal. by apply readings_of_soc. }
  split.
  { change (trace_values (renderBattery (deref h' <$> out) true) "Battery Net Output")
      with (Some (reading "battery_net_mwh" <$> (deref h' <$> out))).
    f_equal. apply readings_of_totals; [|done].
    apply (bool_decide_unpack _). vm_compute. exact I. }
  done.
Qed.

Lemma daily_charts_plot_day_totals_witness :
  exists h' dispatch battery,
    renderWindowPlots two_days [0; 1; 2] FULL_YEAR_HOURS 0 = Some (h', dispatch, battery) /\
    trace_values dispatch "Demand"
    = Some (plotted_total "demand_mwh" <$> runs two_days).
Proof.
  destruct (daily_charts_plot_day_totals two_days [0; 1; 2] 0)
    as (h' & dispatch & battery & Hrender & _ & Hseries & _).
  { repeat constructor. }
  exists h', dispatch, battery. split; [exact Hrender|].
  apply (Hseries "demand_mwh" "Demand"). unfold dispatch_series. set_solver.
Defined.

End TemporalExtras.

(** ** The static catalog *)

Module ResolverExtras.
Import Model Fetch Resolver Examples ResolverFacts AssumptionsFacts.









End ResolverExtras.

(** ** Optional and required retrievals of a load *)

Module LoaderExtras.
Import Model Fetch Loader Examples LoaderFacts.

(** X11: with static files the assumptions table is optional and the
    other three retrievals are not.  When the assumptions file is answered
    with status 404 while the summary, the hourly table and the cost table
    are retrieved, the load completes, whatever the order of settlement,
    and leaves an empty list of assumption rows; a summary, hourly or cost
    file answered with status 404 rejects, and so does, through the API,
    an assumptions request answered with status 404. *)
Theorem missing_assumptions_file_is_tolerated (scenarioId : string) (papa : bool)
    (summaryR : JsonOutcome Summary) (hourlyR : CsvOutcome Row) (costR : CsvOutcome CostRow)
    (missing : Response (Parsed (gmap string Cell))) (order : list Slot) (d : Dashboard)
    (sp : Summary) (hourlyRows : list Row) (costs : list CostRow) :
  ok missing = false -> http_status missing = 404%Z ->
  fetchJson (static_url scenarioId "/summary.json") false summaryR = Fulfilled (Some sp) ->
  fetchCsvRows papa (static_url scenarioId "/hourly_dispatch.csv") false hourlyR
  = Fulfilled hourlyRows ->
  fetchCsvRows papa (static_url scenarioId "/cost_breakdown.csv") false costR
  = Fulfilled costs ->
  order ≡ₚ all_slots ->
  loadScenarioData scenarioId (StaticRequests papa summaryR hourlyR costR (Answer missing))
                   order d
  = (mkDashboard (Some scenarioId)
       (Some (mkSummary (Some (Js.str_or (scenario_id sp) scenarioId))
                        (scenario_label sp) (figures sp)))
       hourlyRows costs [],
     Some Completed) /\
  (forall (gone : Response (Parsed Row)) assumptionsR,
     ok gone = false ->
     rejection scenarioId (StaticRequests papa summaryR (Answer gone) costR assumptionsR)
               HourlySlot
     = Some (request_error (static_url scenarioId "/hourly_dispatch.csv") (text gone))) /\
  (forall (gone : Response (Parsed CostRow)) assumptionsR,
     ok gone = false ->
     rejection scenarioId (StaticRequests papa summaryR hourlyR (Answer gone) assumptionsR)
               CostSlot
     = Some (request_error (static_url scenarioId "/cost_breakdown.csv") (text gone))) /\
  (forall s h c (gone : Response (Settled (option (RowsDoc AssumptionRow)))),
     ok gone = false ->
     rejection scenarioId (ApiRequests s h c (Answer gone)) AssumptionsSlot
     = Some (request_error (api_url "/api/assumptions" scenarioId) (text gone))).
Proof.
  intros Hok Hstatus Hs Hh Hc Hperm. split; [|split; [|split]].
  - rewrite (loadScenarioData_publishes scenarioId _ order d
               (StaticPayloads (Some sp) hourlyRows costs [])); [done|done| |done].
    unfold fulfilled_payloads. rewrite Hs, Hh, Hc. unfold fetchCsvRows.
    by rewrite Hok, Hstatus.
  - intros gone assumptionsR Hgone. cbn [rejection]. unfold fetchCsvRows.
    by rewrite Hgone.
  - intros gone assumptionsR Hgone. cbn [rejection]. unfold fetchCsvRows.
    by rewrite Hgone.
  - intros s h c gone Hgone. cbn [rejection]. unfold fetchJson. by rewrite Hgone.
Qed.

Lemma missing_assumptions_file_is_tolerated_witness :
  loadScenarioData "nf70" (requests_without_assumptions "nf70" 70%float) all_slots
                   (mkDashboard None None [] [] [])
  = (mkDashboard (Some "nf70")
       (Some (mkSummary (Some "nf70") None {[ "total_demand_mwh" := 70%float ]}))
       [mkRow "2024-01-01T00:00:00" {[ "demand_mwh" := 70%float ]}]
       [mkCostRow None (Some "solar") (Some "capex_annualized") (Some 70%float)]
       [],
     Some Completed).
Proof.
  destruct (missing_assumptions_file_is_tolerated "nf70" true
              (ok_json (mkSummary (Some "nf70") None {[ "total_demand_mwh" := 70%float ]}))
              (ok_csv [mkRow "2024-01-01T00:00:00" {[ "demand_mwh" := 70%float ]}])
              (ok_csv [mkCostRow None (Some "solar") (Some "capex_annualized")
                                 (Some 70%float)])
              (mkResponse false 404 "Not Found" (mkParsed None []))
              all_slots (mkDashboard None None [] [] [])
              (mkSummary (Some "nf70") None {[ "total_demand_mwh" := 70%float ]})
              [mkRow "2024-01-01T00:00:00" {[ "demand_mwh" := 70%float ]}]
              [mkCostRow None (Some "solar") (Some "capex_annualized") (Some 70%float)])
    as [Hload _]; [reflexivity..|].
  exact Hload.
Defined.

End LoaderExtras.

(** ** The two cost charts *)

Module WaterfallExtras.
Import Model Waterfall WaterfallSpec CostTerms Examples WaterfallFacts.

(** *** The coarse schema *)

Lemma add_bucket_other (grouped : gmap string float) (row : CostRow) (key : string) :
  bucket_key row <> key -> add_bucket grouped row !! key = grouped !! key.
Proof. intros Hne. unfold add_bucket. by rewrite lookup_insert_ne. Qed.

Lemma bucket_totals_from (costRows : list CostRow) (key : string) :
  forall (grouped : gmap string float) (start : float),
    grouped !! key = Some start ->
    foldl add_bucket grouped costRows !! key = Some (bucket_sum_from start key costRows).
Proof.
  unfold bucket_sum_from.
  induction costRows as [|row costRows IH]; intros grouped start Hstart; [done|].
  cbn [foldl]. rewrite filter_cons. destruct (decide (bucket_key row = key)) as [Hkey|Hkey].
  - cbn [foldl]. apply IH. unfold add_bucket. fold (bucket_key row).
    rewrite Hkey, lookup_insert_eq, Hstart. done.
  - apply IH. by rewrite add_bucket_other.
Qed.

(** X12: for a cost table of the coarse schema, the three bars are the
    totals of the buckets "fixed", "variable" and "penalty", each
    accumulated in row order over the rows of its own bucket only (a
    running total that is zero or not a number restarts from zero) and
    multiplied by the scale.  Rows of any other bucket, and rows without
    bucket, are not drawn: removing them leaves the chart as it is. *)
Theorem coarse_buckets_are_summed_apart (summary : Summary) (costUnitMode : option string)
    (costRows : list CostRow) :
  hasDetailed costRows = false ->
  let scale := scale_of (default "total" costUnitMode) summary in
  renderCostBreakdown (Some summary) costUnitMode costRows
  = Some (Stacked (PrimFloat.mul (bucket_sum "fixed" costRows) scale)
                  (PrimFloat.mul (bucket_sum "variable" costRows) scale)
                  (PrimFloat.mul (bucket_sum "penalty" costRows) scale)
                  (yAxisTitle (default "total" costUnitMode) summary)) /\
  (forall key, key ∈ drawn_buckets ->
     bucket_sum key costRows
     = bucket_sum key (filter (fun row => bucket row = Some key) costRows)) /\
  renderCostBreakdown (Some summary) costUnitMode
                      (filter (fun row => bucket_key row ∈ drawn_buckets) costRows)
  = renderCostBreakdown (Some summary) costUnitMode costRows.
Proof.
  intros Hcoarse scale.
  assert (Hrender : forall rows, hasDetailed rows = false ->
    renderCostBreakdown (Some summary) costUnitMode rows
    = Some (Stacked (PrimFloat.mul (bucket_sum "fixed" rows) scale)
                    (PrimFloat.mul (bucket_sum "variable" rows) scale)
                    (PrimFloat.mul (bucket_sum "penalty" rows) scale)
                    (yAxisTitle (default "total" costUnitMode) summary))).
  { intros rows Hrows. unfold renderCostBreakdown. rewrite Hrows. cbn [negb].
    unfold bucket_bar, bucket_totals, bucket_sum.
    by rewrite !(bucket_totals_from rows _ _ 0%float). }
  split; [by apply Hrender|]. split.
  - intros key Hkey. unfold bucket_sum, bucket_sum_from. f_equal.
    rewrite list_filter_filter. apply list_filter_iff. intros row. unfold bucket_key.
    split; [|by intros [? _]]. intros Hrow. split; [done|].
    destruct (bucket row) as [b|]; cbn in Hrow; [congruence|].
    subst key. unfold drawn_buckets in Hkey.
    repeat (apply elem_of_cons in Hkey as [Hkey|Hkey]; [discriminate|]).
    by apply elem_of_nil in Hkey.
  - assert (Hkept : hasDetailed (filter (fun row => bucket_key row ∈ drawn_buckets) costRows)
                    = false).
    { apply not_true_is_false. intros Hsome. apply not_true_iff_false in Hcoarse.
      apply Hcoarse. unfold hasDetailed in *. apply existsb_exists in Hsome as (row & Hin & Hrow).
      apply existsb_exists. exists row. split; [|done].
      apply list_elem_of_In. apply list_elem_of_In in Hin.
      by apply list_elem_of_filter in Hin as [_ ?]. }
    assert (Hsame : forall key, key ∈ drawn_buckets ->
              bucket_sum key (filter (fun row => bucket_key row ∈ drawn_buckets) costRows)
              = bucket_sum key costRows).
    { intros key Hkey. unfold bucket_sum, bucket_sum_from. f_equal.
      rewrite list_filter_filter. apply list_filter_iff. intros row.
      split; [by intros [? _]|]. intros Hrow. split; [done|]. by rewrite Hrow. }
    rewrite (Hrender _ Hkept), (Hrender _ Hcoarse).
    rewrite !Hsame; [done|..]; apply (bool_decide_unpack _); vm_compute; exact I.
Qed.

Lemma coarse_buckets_are_summed_apart_witness :
  renderCostBreakdown (Some served_1000) (Some "total") coarse_rows
  = Some (Stacked 120%float 40%float 0%float "USD").
Proof.
  destruct (coarse_buckets_are_summed_apart served_1000 (Some "total") coarse_rows eq_refl)
    as [Hrender _].
  rewrite Hrender. vm_compute. reflexivity.
Defined.

(** *** The detailed schema *)








End WaterfallExtras.

(** ** The comparison page *)

Module ComparisonViewFacts.
Import Model Fetch Comparison ComparisonView ComparisonFacts.



End ComparisonViewFacts.
